(** * Memory Card Game: the game-state engine, its deck generator, score
    calculator and high-score store, embedded from the TypeScript sources.

    Conventions of the embedding.
    - A JavaScript [number] that the engine uses as a count, a score or a
      number of whole seconds is a [Z]; array indices and lengths are [nat].
      [cards.length / 2] can be a half-integer and is kept as a [Q].
    - The completion percentage divides, multiplies and rounds numbers that
      need not be whole: there the arithmetic is IEEE 754 double precision,
      with its infinities and NaN (module [Double]).
    - The host (clock, [Math.random], [localStorage], [setTimeout]) is explicit
      state that the functions thread through.
    - React state setters of one handler are applied as one update of the
      session record; effects run after every update. *)

From Stdlib Require Import ZArith QArith Qround Qabs Qpower Lqa.
From stdpp Require Import base tactics option list strings pretty sorting.

Local Open Scope Z_scope.

(* ===================================================================== *)
(** ** types *)
(* ===================================================================== *)

Record Card := mkCard {
  id : string;
  value : string;
  imageUrl : option string;
  isFlipped : bool;
  isMatched : bool;
  pairId : string;
}.

Inductive Difficulty := EASY | MEDIUM | HARD.

Record GameConfig := mkGameConfig {
  rows : nat;
  columns : nat;
  totalCards : nat;
  timeLimit : option Z;
}.

Record CardTheme := mkCardTheme {
  theme_id : string;
  theme_name : string;
  theme_description : string;
  theme_cards : list string;
  theme_thumbnail : option string;
}.

Record HighScore := mkHighScore {
  hs_id : string;
  hs_playerName : option string;
  hs_moves : Z;
  hs_time : Z;
  hs_difficulty : Difficulty;
  hs_date : N;              (* the instant [toISOString()] renders *)
  hs_score : Z;
}.

Record PlayerStats := mkPlayerStats {
  gamesPlayed : Z;
  gamesWon : Z;
  bestTime : option Z;      (* [None] is [Infinity] *)
  bestMoves : option Z;
  totalMoves : Z;
  averageTime : Q;
  lastPlayed : N;           (* the instant [toISOString()] renders *)
}.

#[global] Instance Difficulty_eq_dec : EqDecision Difficulty.
Proof. solve_decision. Defined.

#[global] Instance Card_eq_dec : EqDecision Card.
Proof. solve_decision. Defined.

(* ===================================================================== *)
(** ** utils/constants.ts *)
(* ===================================================================== *)

Module Constants.

Definition GAME_CONFIGS (d : Difficulty) : GameConfig :=
  match d with
  | EASY => mkGameConfig 2 4 8 None
  | MEDIUM => mkGameConfig 3 4 12 (Some 120)
  | HARD => mkGameConfig 4 5 20 (Some 180)
  end.

Definition MATCH_BONUS : Z := 100.
Definition TIME_BONUS_MULTIPLIER : Z := 10.
Definition PERFECT_GAME_BONUS : Z := 500.
Definition MOVE_PENALTY : Z := 5.

(** [ANIMATION_DURATION], in milliseconds. *)
Definition CARD_FLIP : Z := 600.
Definition MATCH_DELAY : Z := 1000.
Definition NO_MATCH_DELAY : Z := 1200.

Definition MAX_HIGH_SCORES : nat := 10.

Definition CARD_THEMES : list CardTheme :=
  [ mkCardTheme "animals" "Animals" "Cute animal friends"
      ["🐶"; "🐱"; "🐭"; "🐹"; "🐰"; "🦊"; "🐻"; "🐼"; "🐨"; "🐯"]
      (Some "🐾");
    mkCardTheme "fruits" "Fruits" "Fresh and colorful fruits"
      ["🍎"; "🍊"; "🍋"; "🍌"; "🍉"; "🍇"; "🍓"; "🍑"; "🍒"; "🥝"]
      (Some "🍎");
    mkCardTheme "sports" "Sports" "Popular sports and activities"
      ["⚽"; "🏀"; "🏈"; "⚾"; "🎾"; "🏐"; "🏓"; "🏸"; "🏒"; "🏑"]
      (Some "⚽");
    mkCardTheme "vehicles" "Vehicles" "Cars, planes and more"
      ["🚗"; "🚕"; "🚙"; "🚌"; "🚎"; "🏎️"; "🚓"; "🚑"; "🚒"; "🚐"]
      (Some "🚗");
    mkCardTheme "nature" "Nature" "Beautiful nature elements"
      ["🌸"; "🌺"; "🌻"; "🌷"; "🌹"; "🌼"; "🌿"; "🍀"; "🌳"; "🌲"]
      (Some "🌸");
    mkCardTheme "food" "Food" "Delicious food items"
      ["🍕"; "🍔"; "🍟"; "🌭"; "🍿"; "🧁"; "🍰"; "🍪"; "🍩"; "🍦"]
      (Some "🍕");
    mkCardTheme "space" "Space" "Explore the cosmos"
      ["🌍"; "🌎"; "🌏"; "🌕"; "🌖"; "🌗"; "🌘"; "🌑"; "⭐"; "🌟"]
      (Some "🚀");
    mkCardTheme "weather" "Weather" "Weather and seasons"
      ["☀️"; "🌤️"; "⛅"; "🌥️"; "☁️"; "🌦️"; "🌧️"; "⛈️"; "🌩️"; "❄️"]
      (Some "☀️") ].

Definition DEFAULT_THEME_ID : string := "animals".

Definition PERFECT_MOVES (d : Difficulty) : Z :=
  match d with
  | EASY => 8
  | MEDIUM => 12
  | HARD => 20
  end.

End Constants.

(* ===================================================================== *)
(** ** The host: clock and random source *)
(* ===================================================================== *)

(** One outcome of [Math.random()]: the double [fraction / 2^53] in [0, 1),
    together with the text [Number.prototype.toString(36)] gives for it
    (host code, so the text comes with the draw). *)
Record Draw := mkDraw {
  fraction : N;
  radix36 : string;
}.

(** The host as the engine sees it: the k-th call of [Math.random()] and
    the k-th call of [Date.now()], with the number of calls made so far. *)
Record Host := mkHost {
  randomDraws : nat → Draw;
  randomCalls : nat;
  clockReadings : nat → N;
  clockCalls : nat;
}.

(** Computations that consult the host. *)
Definition Eff (A : Type) : Type := Host → A * Host.

Definition eff_ret {A} (a : A) : Eff A := λ h, (a, h).
Definition eff_bind {A B} (m : Eff A) (k : A → Eff B) : Eff B :=
  λ h, let '(a, h') := m h in k a h'.

Notation "'do' x <- m ; k" := (eff_bind m (λ x, k))
  (at level 10, x name, m at level 100, k at level 200).

Definition Math_random : Eff Draw := λ h,
  (randomDraws h (randomCalls h),
   mkHost (randomDraws h) (S (randomCalls h)) (clockReadings h) (clockCalls h)).

Definition Date_now : Eff N := λ h,
  (clockReadings h (clockCalls h),
   mkHost (randomDraws h) (randomCalls h) (clockReadings h) (S (clockCalls h))).

(** [Math.floor(Math.random() * n)], on the exact value of the draw. *)
Definition randomBelow (n : nat) : Eff nat :=
  do d <- Math_random;
  eff_ret (N.to_nat ((fraction d mod 2 ^ 53) * N.of_nat n / 2 ^ 53)).

(* ===================================================================== *)
(** ** utils/gameHelpers.ts *)
(* ===================================================================== *)

Module GameHelpers.
Import Constants.

(** [[shuffled[i], shuffled[j]] = [shuffled[j], shuffled[i]]].  Both indices
    are inside the array wherever [shuffleArray] calls it. *)
Definition swap {T} (i j : nat) (shuffled : list T) : list T :=
  match shuffled !! i, shuffled !! j with
  | Some xi, Some xj => <[j := xi]> (<[i := xj]> shuffled)
  | _, _ => shuffled
  end.

(** The loop [for (let i = shuffled.length - 1; i > 0; i--)]. *)
Fixpoint shuffleLoop {T} (i : nat) (shuffled : list T) : Eff (list T) :=
  match i with
  | O => eff_ret shuffled
  | S i' =>
      do j <- randomBelow (i + 1);
      shuffleLoop i' (swap i j shuffled)
  end.

Definition shuffleArray {T} (array : list T) : Eff (list T) :=
  shuffleLoop (length array - 1) array.

Definition generateId : Eff string :=
  do now <- Date_now;
  do r <- Math_random;
  eff_ret (pretty now +:+ "-" +:+ String.substring 2 9 (radix36 r)).

Definition findTheme (themeId : string) : option CardTheme :=
  List.find (λ t, String.eqb (theme_id t) themeId) CARD_THEMES.

Definition getCardTheme (themeId : string) : CardTheme :=
  match findTheme themeId with
  | Some theme => theme
  | None => default (mkCardTheme "" "" "" [] None) (findTheme DEFAULT_THEME_ID)
  end.

(** The body of [selectedCards.forEach((cardValue, index) => ...)], pushing
    two cards per selected value onto [cards]. *)
Fixpoint pushPairs (index : nat) (selectedCards : list string)
    (cards : list Card) : Eff (list Card) :=
  match selectedCards with
  | [] => eff_ret cards
  | cardValue :: rest =>
      let pairId := "pair-" +:+ pretty index in
      do id1 <- generateId;
      let cards := cards ++ [mkCard id1 cardValue (Some cardValue) false false pairId] in
      do id2 <- generateId;
      let cards := cards ++ [mkCard id2 cardValue (Some cardValue) false false pairId] in
      pushPairs (S index) rest cards
  end.

Definition generateCards (difficulty : Difficulty) (themeId : option string)
    : Eff (list Card) :=
  let config := GAME_CONFIGS difficulty in
  let theme := getCardTheme (default DEFAULT_THEME_ID themeId) in
  let totalPairs := (totalCards config / 2)%nat in
  do shuffledTheme <- shuffleArray (theme_cards theme);
  let selectedCards := take totalPairs shuffledTheme in
  do cards <- pushPairs 0 selectedCards [];
  shuffleArray cards.

Definition checkCardsMatch (card1 card2 : Card) : bool :=
  String.eqb (pairId card1) (pairId card2) && negb (String.eqb (id card1) (id card2)).

(** A present, non-zero [timeLimit] is truthy. *)
Definition truthyLimit (limit : option Z) : option Z :=
  match limit with
  | Some l => if l =? 0 then None else Some l
  | None => None
  end.

(** The two time bonuses are [Math.floor] of a product of integers, which
    is the product. *)
Definition calculateScore (moves timeElapsed : Z) (difficulty : Difficulty)
    (matchedPairs : Z) : Z :=
  let config := GAME_CONFIGS difficulty in
  let totalPairs := Z.of_nat (totalCards config) / 2 in
  let perfectMoves := PERFECT_MOVES difficulty in
  let score := 0 in
  let score := score + matchedPairs * MATCH_BONUS in
  let score :=
    if matchedPairs =? totalPairs then
      let score := score + 1000 in
      let score :=
        if moves =? perfectMoves then score + PERFECT_GAME_BONUS else score in
      let score :=
        match truthyLimit (timeLimit config) with
        | Some limit =>
            let timeRemaining := limit - timeElapsed in
            if 0 <? timeRemaining
            then score + timeRemaining * TIME_BONUS_MULTIPLIER
            else score
        | None =>
            let timeBonusThreshold := 120 in
            if timeElapsed <? timeBonusThreshold
            then score + (timeBonusThreshold - timeElapsed) * TIME_BONUS_MULTIPLIER
            else score
        end in
      let extraMoves := moves - perfectMoves in
      if 0 <? extraMoves then score - extraMoves * MOVE_PENALTY else score
    else score in
  Z.max 0 score.

Definition isGameWon (cards : list Card) : bool :=
  (0 <? length cards)%nat && forallb isMatched cards.

(** [String.prototype.padStart(targetLength, '0')]: zeros in front, as many
    as the string is short of [targetLength]. *)
Fixpoint zeros (n : nat) : string :=
  match n with
  | O => ""
  | S n' => "0" +:+ zeros n'
  end.

Definition padStart (targetLength : nat) (s : string) : string :=
  zeros (targetLength - String.length s) +:+ s.

(** [Math.floor(seconds / 60)] is [Z.div] and [seconds % 60], which takes
    the sign of [seconds], is [Z.rem]. *)
Definition formatTime (seconds : Z) : string :=
  let mins := seconds / 60 in
  let secs := Z.rem seconds 60 in
  padStart 2 (pretty mins) +:+ ":" +:+ padStart 2 (pretty secs).

Definition formatTimeHuman (seconds : Z) : string :=
  let mins := seconds / 60 in
  let secs := Z.rem seconds 60 in
  if mins =? 0 then pretty secs +:+ "s"
  else if secs =? 0 then pretty mins +:+ "m"
  else pretty mins +:+ "m " +:+ pretty secs +:+ "s".

(** [getPerformanceRating] returns one of five fixed texts. *)
Inductive PerformanceRating :=
  | RatingPerfect | RatingExcellent | RatingGreat | RatingGood
  | RatingKeepPracticing.

(** The quotient of a whole number of moves by 8, 12 or 20 lies on the same
    side of 1, 1.2, 1.5 and 2 in doubles as it does exactly. *)
Definition getPerformanceRating (moves : Z) (difficulty : Difficulty)
    : PerformanceRating :=
  let perfectMoves := PERFECT_MOVES difficulty in
  let ratio := (inject_Z moves / inject_Z perfectMoves)%Q in
  if Qeq_bool ratio 1 then RatingPerfect
  else if Qle_bool ratio (12 # 10) then RatingExcellent
  else if Qle_bool ratio (15 # 10) then RatingGreat
  else if Qle_bool ratio 2 then RatingGood
  else RatingKeepPracticing.

End GameHelpers.

(* ===================================================================== *)
(** ** utils/localStorage.ts *)
(* ===================================================================== *)

Module LocalStorage.
Import Constants.

(** What [saveGameState] writes: the snapshot and the instant of [savedAt]. *)
Record SavedGame := mkSavedGame {
  sg_cards : list Card;
  sg_flippedCards : list Card;
  sg_matchedPairs : Z;
  sg_moves : Z;
  sg_score : Z;
  sg_isGameStarted : bool;
  sg_isGameComplete : bool;
  sg_difficulty : Difficulty;
  sg_timeElapsed : Z;
  sg_savedAt : N;
}.

(** The browser's key-value store, one slot per key of [STORAGE_KEYS] the
    engine touches; a slot holds the value whose JSON text is stored, [None]
    when the key is absent.  [setItemThrows] is the store refusing writes
    (quota exceeded). *)
Record Storage := mkStorage {
  HIGH_SCORES : option (list HighScore);
  PLAYER_STATS : option PlayerStats;
  LAST_GAME_STATE : option SavedGame;
  setItemThrows : bool;
}.

Definition setHighScores (v : list HighScore) (st : Storage) : Storage :=
  mkStorage (Some v) (PLAYER_STATS st) (LAST_GAME_STATE st) (setItemThrows st).
Definition setPlayerStats (v : PlayerStats) (st : Storage) : Storage :=
  mkStorage (HIGH_SCORES st) (Some v) (LAST_GAME_STATE st) (setItemThrows st).
Definition setLastGameState (v : option SavedGame) (st : Storage) : Storage :=
  mkStorage (HIGH_SCORES st) (PLAYER_STATS st) v (setItemThrows st).

(** [saveToStorage]: [setItem] inside [try], [false] from the [catch]. *)
Definition saveToStorage (setItem : Storage → Storage) (st : Storage)
    : bool * Storage :=
  if setItemThrows st then (false, st) else (true, setItem st).

Definition loadFromStorage {T} (getItem : Storage → option T) (defaultValue : T)
    (st : Storage) : T :=
  match getItem st with
  | None => defaultValue
  | Some data => data
  end.

Definition removeFromStorage (removeItem : Storage → Storage) (st : Storage)
    : bool * Storage :=
  (true, removeItem st).

(** The comparator handed to [sort] in [saveHighScores]. *)
Definition compareScores (a b : HighScore) : Z :=
  if negb (hs_score b =? hs_score a) then hs_score b - hs_score a
  else hs_time a - hs_time b.

(** [Array.prototype.sort(compare)]: the sort is stable, so for a consistent
    comparator its result is the one a stable insertion sort computes. *)
Fixpoint insertBy {A} (compare : A → A → Z) (x : A) (sorted : list A) : list A :=
  match sorted with
  | [] => [x]
  | y :: rest =>
      if 0 <? compare x y then y :: insertBy compare x rest
      else x :: y :: rest
  end.

Definition sortBy {A} (compare : A → A → Z) (l : list A) : list A :=
  foldr (insertBy compare) [] l.

Definition saveHighScores (scores : list HighScore) (st : Storage)
    : bool * Storage :=
  let sortedScores := take MAX_HIGH_SCORES (sortBy compareScores scores) in
  saveToStorage (setHighScores sortedScores) st.

Definition loadHighScores (st : Storage) : list HighScore :=
  loadFromStorage HIGH_SCORES [] st.

Definition addHighScore (newScore : HighScore) (st : Storage) : bool * Storage :=
  let currentScores := loadHighScores st in
  let updatedScores := currentScores ++ [newScore] in
  saveHighScores updatedScores st.

Definition isHighScore (score : Z) (st : Storage) : bool :=
  let highScores := loadHighScores st in
  if (length highScores <? MAX_HIGH_SCORES)%nat then true
  else
    match highScores !! (length highScores - 1)%nat with
    | Some lowestHighScore => hs_score lowestHighScore <? score
    | None => false   (* not reached: the list has at least 10 entries *)
    end.

(** [Math.min] with [None] for [Infinity]. *)
Definition minInf (a : option Z) (b : Z) : option Z :=
  match a with
  | None => Some b
  | Some a => Some (Z.min a b)
  end.

Definition loadPlayerStats (st : Storage) : Eff PlayerStats :=
  do today <- Date_now;
  let defaultStats := mkPlayerStats 0 0 None None 0 0%Q today in
  eff_ret (loadFromStorage PLAYER_STATS defaultStats st).

Definition updatePlayerStats (moves time : Z) (isWon : bool) (st : Storage)
    : Eff (PlayerStats * Storage) :=
  do currentStats <- loadPlayerStats st;
  do today <- Date_now;
  let updatedStats := mkPlayerStats
    (gamesPlayed currentStats + 1)
    (if isWon then gamesWon currentStats + 1 else gamesWon currentStats)
    (if isWon then minInf (bestTime currentStats) time else bestTime currentStats)
    (if isWon then minInf (bestMoves currentStats) moves else bestMoves currentStats)
    (totalMoves currentStats + moves)
    ((averageTime currentStats * inject_Z (gamesPlayed currentStats) + inject_Z time)
       / inject_Z (gamesPlayed currentStats + 1))%Q
    today in
  eff_ret (updatedStats, snd (saveToStorage (setPlayerStats updatedStats) st)).

Definition saveGameState (gameState : N → SavedGame) (st : Storage)
    : Eff (bool * Storage) :=
  do savedAt <- Date_now;
  eff_ret (saveToStorage (setLastGameState (Some (gameState savedAt))) st).

Definition clearGameState (st : Storage) : bool * Storage :=
  removeFromStorage (setLastGameState None) st.

(** The values of [Difficulty] are these strings. *)
Definition difficultyName (d : Difficulty) : string :=
  match d with
  | EASY => "EASY"
  | MEDIUM => "MEDIUM"
  | HARD => "HARD"
  end.

Definition getHighScoresByDifficulty (difficulty : string) (st : Storage)
    : list HighScore :=
  let allScores := loadHighScores st in
  List.filter (λ score, String.eqb (difficultyName (hs_difficulty score)) difficulty)
    allScores.

Definition getPersonalBest (st : Storage) : option HighScore :=
  let scores := loadHighScores st in
  if (0 <? length scores)%nat then scores !! 0%nat else None.

(** [loadGameState]: the saved state unless it is more than 24 hours old,
    in which case the key is removed.  The clock is read only when there is
    a saved state. *)
Definition loadGameState (st : Storage) : Eff (option SavedGame * Storage) :=
  let savedState := loadFromStorage (λ st, Some <$> LAST_GAME_STATE st) None st in
  match savedState with
  | None => eff_ret (None, st)
  | Some savedState =>
      let savedAt := sg_savedAt savedState in
      do now <- Date_now;
      let hoursDifference :=
        (inject_Z (Z.of_N now - Z.of_N savedAt) / (1000 * 60 * 60))%Q in
      if negb (Qle_bool hoursDifference 24)
      then eff_ret (None, snd (removeFromStorage (setLastGameState None) st))
      else eff_ret (Some savedState, st)
  end.

Definition hasSavedGame (st : Storage) : Eff (bool * Storage) :=
  do loaded <- loadGameState st;
  eff_ret (match loaded.1 with Some _ => true | None => false end, loaded.2).

End LocalStorage.

(* ===================================================================== *)
(** ** utils/localStorage.ts: settings, player name and theme *)
(* ===================================================================== *)

Module Preferences.
Import Constants LocalStorage.

Inductive Theme := light | dark.

Record GameSettings := mkGameSettings {
  soundEnabled : bool;
  musicEnabled : bool;
  theme : Theme;
  showTimer : bool;
  autoFlipDelay : Z;
}.

(** [DEFAULT_SETTINGS] of utils/constants.ts. *)
Definition DEFAULT_SETTINGS : GameSettings :=
  mkGameSettings true true light true NO_MATCH_DELAY.

(** The store with all six keys of [STORAGE_KEYS]: the three the engine
    uses, and the settings, the player name and the theme.  The theme key is
    also read as plain text (main.tsx), so its slot holds the stored text
    itself. *)
Record Store := mkStore {
  gameKeys : Storage;
  GAME_SETTINGS : option GameSettings;
  PLAYER_NAME : option string;
  THEME_PREFERENCE : option string;
}.

Definition setGameSettings (v : GameSettings) (st : Store) : Store :=
  mkStore (gameKeys st) (Some v) (PLAYER_NAME st) (THEME_PREFERENCE st).
Definition setThemePreference (text : string) (st : Store) : Store :=
  mkStore (gameKeys st) (GAME_SETTINGS st) (PLAYER_NAME st) (Some text).

(** [saveToStorage] and [loadFromStorage] on this store. *)
Definition saveToStore (setItem : Store → Store) (st : Store) : bool * Store :=
  if setItemThrows (gameKeys st) then (false, st) else (true, setItem st).

Definition loadFromStore {T} (getItem : Store → option T) (defaultValue : T)
    (st : Store) : T :=
  match getItem st with
  | None => defaultValue
  | Some data => data
  end.

Definition clearAllGameData (st : Store) : bool * Store :=
  (true, mkStore (mkStorage None None None (setItemThrows (gameKeys st)))
           None None None).

Definition loadGameSettings (st : Store) : GameSettings :=
  loadFromStore GAME_SETTINGS DEFAULT_SETTINGS st.

Definition saveGameSettings (settings : GameSettings) (st : Store)
    : bool * Store :=
  saveToStore (setGameSettings settings) st.

(** A key of [GameSettings] with a value of its type. *)
Inductive SettingUpdate :=
  | SoundEnabled (v : bool)
  | MusicEnabled (v : bool)
  | ThemeSetting (v : Theme)
  | ShowTimer (v : bool)
  | AutoFlipDelay (v : Z).

(** [{ ...currentSettings, [key]: value }] *)
Definition withSetting (u : SettingUpdate) (s : GameSettings) : GameSettings :=
  match u with
  | SoundEnabled v =>
      mkGameSettings v (musicEnabled s) (theme s) (showTimer s) (autoFlipDelay s)
  | MusicEnabled v =>
      mkGameSettings (soundEnabled s) v (theme s) (showTimer s) (autoFlipDelay s)
  | ThemeSetting v =>
      mkGameSettings (soundEnabled s) (musicEnabled s) v (showTimer s) (autoFlipDelay s)
  | ShowTimer v =>
      mkGameSettings (soundEnabled s) (musicEnabled s) (theme s) v (autoFlipDelay s)
  | AutoFlipDelay v =>
      mkGameSettings (soundEnabled s) (musicEnabled s) (theme s) (showTimer s) v
  end.

Definition updateSetting (u : SettingUpdate) (st : Store) : bool * Store :=
  let currentSettings := loadGameSettings st in
  let updatedSettings := withSetting u currentSettings in
  saveGameSettings updatedSettings st.

Definition toggleSound (st : Store) : bool * Store :=
  let settings := loadGameSettings st in
  updateSetting (SoundEnabled (negb (soundEnabled settings))) st.

Definition toggleMusic (st : Store) : bool * Store :=
  let settings := loadGameSettings st in
  updateSetting (MusicEnabled (negb (musicEnabled settings))) st.

Definition toggleTheme (st : Store) : bool * Store :=
  let settings := loadGameSettings st in
  let newTheme := match theme settings with light => dark | dark => light end in
  updateSetting (ThemeSetting newTheme) st.

Definition resetSettings (st : Store) : bool * Store :=
  saveGameSettings DEFAULT_SETTINGS st.

Definition loadPlayerName (st : Store) : string :=
  loadFromStore PLAYER_NAME "" st.

Definition hasPlayerName (st : Store) : bool :=
  (0 <? String.length (loadPlayerName st))%nat.

(** The two values of the theme as strings, and [JSON.stringify] of such a
    string: the string itself between double quotes. *)
Definition themeName (t : Theme) : string :=
  match t with
  | light => "light"
  | dark => "dark"
  end.

Definition doubleQuote : string := String (Ascii.ascii_of_nat 34) "".

Definition JSON_stringify (s : string) : string :=
  doubleQuote +:+ s +:+ doubleQuote.

Definition saveThemePreference (t : Theme) (st : Store) : bool * Store :=
  saveToStore (setThemePreference (JSON_stringify (themeName t))) st.

(** main.tsx, [initializeTheme]: whether the document ends up with the
    class [dark].  [prefersDark] is what the media query answers; an empty
    stored text is falsy. *)
Definition initializeTheme (prefersDark : bool) (st : Store) : bool :=
  let savedTheme := THEME_PREFERENCE st in
  let systemTheme := if prefersDark then "dark" else "light" in
  let theme :=
    match savedTheme with
    | Some text => if String.eqb text "" then systemTheme else text
    | None => systemTheme
    end in
  String.eqb theme "dark".

End Preferences.

(* ===================================================================== *)
(** ** JavaScript numbers: division, product and rounding of doubles *)
(* ===================================================================== *)

Module Double.

(** A [number]: a rational that is a double, an infinity or NaN.  The sign
    of a zero is not kept: the zeros met here come from counts and lengths
    and are [+0]. *)
Inductive Number := Finite (q : Q) | PosInfinity | NegInfinity | NaN.

(** [floor (log2 a)] for [a > 0]: the quotient of a numerator of bit length
    [x + 1] by a denominator of bit length [y + 1] lies between
    [2 ^ (x - y - 1)] and [2 ^ (x - y + 1)]. *)
Definition exponent (a : Q) : Z :=
  let e := Z.log2 (Qnum a) - Z.log2 (Z.pos (Qden a)) in
  if Qle_bool (2 ^ e) a then e else e - 1.

(** The nearest integer, the even one of two that are equally near. *)
Definition roundHalfEven (x : Q) : Z :=
  let f := Qfloor x in
  match (x - inject_Z f ?= 1 # 2)%Q with
  | Lt => f
  | Gt => f + 1
  | Eq => if Z.even f then f else f + 1
  end.

Definition infinity (negative : bool) : Number :=
  if negative then NegInfinity else PosInfinity.

(** The double nearest to a rational (round to nearest, ties to even): 53
    significant bits, spaced [2 ^ -1074] apart below [2 ^ -1022], and an
    infinity from [2 ^ 1024] on. *)
Definition round (q : Q) : Number :=
  if Qeq_bool q 0 then Finite 0
  else
    let a := Qabs q in
    let k := Z.max (exponent a - 52) (-1074) in
    let r := (inject_Z (roundHalfEven (a / 2 ^ k)) * 2 ^ k)%Q in
    if Qle_bool (2 ^ 1024) r then infinity (negb (Qle_bool 0 q))
    else Finite (if Qle_bool 0 q then r else (- r)%Q).

Definition isNegative (x : Number) : bool :=
  match x with
  | Finite q => negb (Qle_bool 0 q)
  | NegInfinity => true
  | _ => false
  end.

(** [x / y] *)
Definition div (x y : Number) : Number :=
  match x, y with
  | NaN, _ | _, NaN => NaN
  | Finite a, Finite b =>
      if Qeq_bool b 0
      then if Qeq_bool a 0 then NaN else infinity (isNegative x)
      else round (a / b)
  | Finite _, _ => Finite 0
  | _, Finite _ => infinity (xorb (isNegative x) (isNegative y))
  | _, _ => NaN
  end.

(** [x * y] *)
Definition mul (x y : Number) : Number :=
  match x, y with
  | NaN, _ | _, NaN => NaN
  | Finite a, Finite b => round (a * b)
  | Finite a, _ | _, Finite a =>
      if Qeq_bool a 0 then NaN else infinity (xorb (isNegative x) (isNegative y))
  | _, _ => infinity (xorb (isNegative x) (isNegative y))
  end.




End Double.

(* ===================================================================== *)
(** ** hooks/useGameLogic.ts *)
(* ===================================================================== *)

Module GameLogic.
Import Constants GameHelpers LocalStorage.

Inductive TimerStatus := IDLE | RUNNING | PAUSED | STOPPED.

Record Timer := mkTimer {
  status : TimerStatus;
  time : Z;
}.

(** Modelled from the spec: hooks/useTimer is not among the sources.  The
    timer has the states IDLE, RUNNING, PAUSED and STOPPED; [start] goes from
    IDLE or STOPPED to RUNNING and zeroes the accumulator only from IDLE,
    [pause] and [resume] switch between RUNNING and PAUSED, [stop] freezes
    the value from any state, [reset] returns to IDLE with a zero
    accumulator, and a one-second tick counts only while RUNNING. *)
Definition timer_start (t : Timer) : Timer :=
  match status t with
  | IDLE => mkTimer RUNNING 0
  | STOPPED => mkTimer RUNNING (time t)
  | _ => t
  end.
Definition timer_pause (t : Timer) : Timer :=
  match status t with RUNNING => mkTimer PAUSED (time t) | _ => t end.
Definition timer_resume (t : Timer) : Timer :=
  match status t with PAUSED => mkTimer RUNNING (time t) | _ => t end.
Definition timer_stop (t : Timer) : Timer := mkTimer STOPPED (time t).
Definition timer_reset (t : Timer) : Timer := mkTimer IDLE 0.
Definition timer_tick (t : Timer) : Timer :=
  match status t with RUNNING => mkTimer RUNNING (time t + 1) | _ => t end.

(** [getCongratulationsMessage] returns one of five fixed texts. *)
Inductive Congratulations :=
  PerfectGame | LightningFast | Excellent | GreatJob | WellDone.

Definition getCongratulationsMessage (moves timeElapsed : Z)
    (difficulty : Difficulty) : Congratulations :=
  let perfectMoves := PERFECT_MOVES difficulty in
  let config := GAME_CONFIGS difficulty in
  if moves =? perfectMoves then PerfectGame
  else if match truthyLimit (timeLimit config) with
          | Some limit => Qle_bool (inject_Z timeElapsed) (inject_Z limit / 2)
                          && negb (Qeq_bool (inject_Z timeElapsed) (inject_Z limit / 2))
          | None => false
          end then LightningFast
  else if Qle_bool (inject_Z moves) (inject_Z perfectMoves * (12 # 10)) then Excellent
  else if Qle_bool (inject_Z moves) (inject_Z perfectMoves * (15 # 10)) then GreatJob
  else WellDone.

Record GameCompletionStats := mkStats {
  stats_moves : Z;
  stats_time : Z;
  stats_score : Z;
  stats_difficulty : Difficulty;
  stats_isNewHighScore : bool;
  stats_congratsMessage : Congratulations;
}.

(** The hook's options; a callback is [true] when the caller supplied it. *)
Record Options := mkOptions {
  difficulty : Difficulty;
  themeId : option string;
  onGameComplete : bool;
  onMatch : bool;
  onNoMatch : bool;
  onFlip : bool;
}.

(** A call of one of the supplied callbacks. *)
Inductive Notification :=
  | FlipNotified
  | MatchNotified
  | NoMatchNotified
  | GameCompleteNotified (stats : GameCompletionStats).

(** The closures handed to [setTimeout], with the values they captured. *)
Inductive Callback :=
  | CompareFlipped (firstCard secondCard : Card) (matchedPairs moves time : Z)
  | FlipBack (card1 card2 : Card)
  | NotifyComplete (completionStats : GameCompletionStats)
  | AutoFlip (cardId : string)
  | AutoResolve (firstCard secondCard : Card).

Record Timeout := mkTimeout {
  handle : nat;
  due : Z;
  callback : Callback;
}.

(** The hook's state: the [useState] cells and the two refs. *)
Record Session := mkSession {
  cards : list Card;
  flippedCards : list Card;
  matchedPairs : Z;
  moves : Z;
  score : Z;
  isGameStarted : bool;
  isGameComplete : bool;
  isGamePaused : bool;
  isProcessing : bool;
  processingTimeoutRef : option nat;
  gameCompleteTriggeredRef : bool;
}.

(** The hook together with everything it acts on. *)
Record World := mkWorld {
  options : Options;
  session : Session;
  timer : Timer;
  storage : Storage;
  host : Host;
  elapsed : Z;                       (* milliseconds on the scheduler's clock *)
  pending : list Timeout;            (* scheduled and not yet run or cleared *)
  nextHandle : nat;
  notifications : list Notification; (* callbacks called so far, oldest first *)
}.

Definition withSession (f : Session → Session) (w : World) : World :=
  mkWorld (options w) (f (session w)) (timer w) (storage w) (host w)
    (elapsed w) (pending w) (nextHandle w) (notifications w).
Definition withTimer (f : Timer → Timer) (w : World) : World :=
  mkWorld (options w) (session w) (f (timer w)) (storage w) (host w)
    (elapsed w) (pending w) (nextHandle w) (notifications w).
Definition withStorage (st : Storage) (w : World) : World :=
  mkWorld (options w) (session w) (timer w) st (host w)
    (elapsed w) (pending w) (nextHandle w) (notifications w).
Definition withHost (h : Host) (w : World) : World :=
  mkWorld (options w) (session w) (timer w) (storage w) h
    (elapsed w) (pending w) (nextHandle w) (notifications w).
Definition withPending (f : list Timeout → list Timeout) (w : World) : World :=
  mkWorld (options w) (session w) (timer w) (storage w) (host w)
    (elapsed w) (f (pending w)) (nextHandle w) (notifications w).

(** Calls [callback] when the option is there: [if (onFlip) onFlip()]. *)
Definition notify (supplied : bool) (n : Notification) (w : World) : World :=
  if supplied then
    mkWorld (options w) (session w) (timer w) (storage w) (host w)
      (elapsed w) (pending w) (nextHandle w) (notifications w ++ [n])
  else w.

(** [setTimeout(callback, delay)]; returns the handle with the new world. *)
Definition setTimeout (cb : Callback) (delay : Z) (w : World) : nat * World :=
  (nextHandle w,
   mkWorld (options w) (session w) (timer w) (storage w) (host w)
     (elapsed w) (pending w ++ [mkTimeout (nextHandle w) (elapsed w + delay) cb])
     (S (nextHandle w)) (notifications w)).

Definition clearTimeout (h : nat) (w : World) : World :=
  withPending (filter (λ t, handle t ≠ h)) w.

(** The state setters. *)
Definition setCards (f : list Card → list Card) (s : Session) : Session :=
  mkSession (f (cards s)) (flippedCards s) (matchedPairs s) (moves s) (score s)
    (isGameStarted s) (isGameComplete s) (isGamePaused s) (isProcessing s)
    (processingTimeoutRef s) (gameCompleteTriggeredRef s).
Definition setFlippedCards (v : list Card) (s : Session) : Session :=
  mkSession (cards s) v (matchedPairs s) (moves s) (score s)
    (isGameStarted s) (isGameComplete s) (isGamePaused s) (isProcessing s)
    (processingTimeoutRef s) (gameCompleteTriggeredRef s).
Definition setMatchedPairs (f : Z → Z) (s : Session) : Session :=
  mkSession (cards s) (flippedCards s) (f (matchedPairs s)) (moves s) (score s)
    (isGameStarted s) (isGameComplete s) (isGamePaused s) (isProcessing s)
    (processingTimeoutRef s) (gameCompleteTriggeredRef s).
Definition setMoves (f : Z → Z) (s : Session) : Session :=
  mkSession (cards s) (flippedCards s) (matchedPairs s) (f (moves s)) (score s)
    (isGameStarted s) (isGameComplete s) (isGamePaused s) (isProcessing s)
    (processingTimeoutRef s) (gameCompleteTriggeredRef s).
Definition setScore (v : Z) (s : Session) : Session :=
  mkSession (cards s) (flippedCards s) (matchedPairs s) (moves s) v
    (isGameStarted s) (isGameComplete s) (isGamePaused s) (isProcessing s)
    (processingTimeoutRef s) (gameCompleteTriggeredRef s).
Definition setIsGameStarted (v : bool) (s : Session) : Session :=
  mkSession (cards s) (flippedCards s) (matchedPairs s) (moves s) (score s)
    v (isGameComplete s) (isGamePaused s) (isProcessing s)
    (processingTimeoutRef s) (gameCompleteTriggeredRef s).
Definition setIsGameComplete (v : bool) (s : Session) : Session :=
  mkSession (cards s) (flippedCards s) (matchedPairs s) (moves s) (score s)
    (isGameStarted s) v (isGamePaused s) (isProcessing s)
    (processingTimeoutRef s) (gameCompleteTriggeredRef s).
Definition setIsGamePaused (v : bool) (s : Session) : Session :=
  mkSession (cards s) (flippedCards s) (matchedPairs s) (moves s) (score s)
    (isGameStarted s) (isGameComplete s) v (isProcessing s)
    (processingTimeoutRef s) (gameCompleteTriggeredRef s).
Definition setIsProcessing (v : bool) (s : Session) : Session :=
  mkSession (cards s) (flippedCards s) (matchedPairs s) (moves s) (score s)
    (isGameStarted s) (isGameComplete s) (isGamePaused s) v
    (processingTimeoutRef s) (gameCompleteTriggeredRef s).
Definition setProcessingTimeoutRef (v : option nat) (s : Session) : Session :=
  mkSession (cards s) (flippedCards s) (matchedPairs s) (moves s) (score s)
    (isGameStarted s) (isGameComplete s) (isGamePaused s) (isProcessing s)
    v (gameCompleteTriggeredRef s).
Definition setGameCompleteTriggeredRef (v : bool) (s : Session) : Session :=
  mkSession (cards s) (flippedCards s) (matchedPairs s) (moves s) (score s)
    (isGameStarted s) (isGameComplete s) (isGamePaused s) (isProcessing s)
    (processingTimeoutRef s) v.

(** [cards.length / 2] *)
Definition totalPairs (s : Session) : Q :=
  (inject_Z (Z.of_nat (length (cards s))) / 2)%Q.

Definition Qgt_bool (a b : Q) : bool := negb (Qle_bool a b).


(** *** The operations of the hook *)

Definition initializeGame (w : World) : World :=
  let '(newCards, h) :=
    generateCards (difficulty (options w)) (themeId (options w)) (host w) in
  let w := withHost h w in
  let w := withSession (λ s,
    mkSession newCards [] 0 0 0 false false false false
      (processingTimeoutRef s) false) w in
  let w := withTimer timer_reset w in
  match processingTimeoutRef (session w) with
  | Some h =>
      let w := clearTimeout h w in
      withSession (setProcessingTimeoutRef None) w
  | None => w
  end.

Definition startGame (w : World) : World :=
  let w := withSession (setIsGameStarted true) w in
  let w := withSession (setIsGamePaused false) w in
  withTimer timer_start w.

Definition resetGame (w : World) : World :=
  let w := initializeGame w in
  withStorage (snd (clearGameState (storage w))) w.

(** The snapshot [pauseGame] and the periodic save hand to [saveGameState]. *)
Definition snapshot (w : World) (savedAt : N) : SavedGame :=
  let s := session w in
  mkSavedGame (cards s) [] (matchedPairs s) (moves s) (score s)
    (isGameStarted s) false (difficulty (options w)) (time (timer w)) savedAt.

Definition saveSnapshot (w : World) : World :=
  let '((_, st), h) := saveGameState (snapshot w) (storage w) (host w) in
  withHost h (withStorage st w).

Definition pauseGame (w : World) : World :=
  if negb (isGameStarted (session w)) || isGameComplete (session w) then w
  else
    let w' := withSession (setIsGamePaused true) w in
    let w' := withTimer timer_pause w' in
    (* the snapshot is built from this render's values *)
    let '((_, st), h) := saveGameState (snapshot w) (storage w') (host w') in
    withHost h (withStorage st w').

Definition resumeGame (w : World) : World :=
  if negb (isGamePaused (session w)) then w
  else
    let w := withSession (setIsGamePaused false) w in
    withTimer timer_resume w.

Definition canFlipCard (s : Session) (card : Card) : bool :=
  if negb (isGameStarted s) || isGameComplete s || isGamePaused s || isProcessing s
  then false
  else if isMatched card || isFlipped card then false
  else if (2 <=? length (flippedCards s))%nat then false
  else true.

Definition flipCard (cardId : string) (prevCards : list Card) : list Card :=
  map (λ card,
         if String.eqb (id card) cardId
         then mkCard (id card) (value card) (imageUrl card) true (isMatched card)
                (pairId card)
         else card) prevCards.

(** [cardIds.includes(id)] *)
Definition includes (cardIds : list string) (x : string) : bool :=
  existsb (String.eqb x) cardIds.

Definition unflipCards (cardIds : list string) (prevCards : list Card)
    : list Card :=
  map (λ card,
         if includes cardIds (id card)
         then mkCard (id card) (value card) (imageUrl card) false (isMatched card)
                (pairId card)
         else card) prevCards.

Definition markCardsAsMatched (cardIds : list string) (prevCards : list Card)
    : list Card :=
  map (λ card,
         if includes cardIds (id card)
         then mkCard (id card) (value card) (imageUrl card) true true (pairId card)
         else card) prevCards.

(** [handleMatch], with the [matchedPairs], [moves] and [timer.time] of the
    render that created it. *)
Definition handleMatch (matchedPairs' moves' time' : Z) (card1 card2 : Card)
    (w : World) : World :=
  let w := withSession (setCards (markCardsAsMatched [id card1; id card2])) w in
  let w := withSession (setMatchedPairs (λ prev, prev + 1)) w in
  let w := withSession (setFlippedCards []) w in
  let newMatchedPairs := matchedPairs' + 1 in
  let newScore :=
    calculateScore (moves' + 1) time' (difficulty (options w)) newMatchedPairs in
  let w := withSession (setScore newScore) w in
  let w := notify (onMatch (options w)) MatchNotified w in
  withSession (setIsProcessing false) w.

Definition handleNoMatch (card1 card2 : Card) (w : World) : World :=
  let '(h, w) := setTimeout (FlipBack card1 card2) NO_MATCH_DELAY w in
  withSession (setProcessingTimeoutRef (Some h)) w.

Definition handleCardClick (cardId : string) (w : World) : World :=
  let s := session w in
  match List.find (λ c, String.eqb (id c) cardId) (cards s) with
  | None => w
  | Some card =>
      if negb (canFlipCard s card) then w
      else
        let w' := if negb (isGameStarted s) then startGame w else w in
        let w' := withSession (setCards (flipCard cardId)) w' in
        let w' := notify (onFlip (options w)) FlipNotified w' in
        let newFlippedCards := flippedCards s ++ [card] in
        let w' := withSession (setFlippedCards newFlippedCards) w' in
        match newFlippedCards with
        | [firstCard; secondCard] =>
            let w' := withSession (setIsProcessing true) w' in
            let w' := withSession (setMoves (λ prev, prev + 1)) w' in
            let '(h, w') :=
              setTimeout
                (CompareFlipped firstCard secondCard
                   (matchedPairs s) (moves s) (time (timer w)))
                CARD_FLIP w' in
            withSession (setProcessingTimeoutRef (Some h)) w'
        | _ => w'
        end
  end.

Definition handleGameCompletion (w : World) : World :=
  let s := session w in
  if gameCompleteTriggeredRef s then w
  else
    let moves := moves s in
    let time := time (timer w) in
    let difficulty := difficulty (options w) in
    let w' := withSession (setGameCompleteTriggeredRef true) w in
    let w' := withSession (setIsGameComplete true) w' in
    let w' := withTimer timer_stop w' in
    let finalScore := calculateScore moves time difficulty (matchedPairs s) in
    let w' := withSession (setScore finalScore) w' in
    let isNewHighScore := isHighScore finalScore (storage w') in
    let w' :=
      if isNewHighScore then
        let '(newId, h) := generateId (host w') in
        let '(date, h) := Date_now h in
        let highScore :=
          mkHighScore newId None moves time difficulty date finalScore in
        withHost h (withStorage (snd (addHighScore highScore (storage w'))) w')
      else w' in
    let '((_, st), h) := updatePlayerStats moves time true (storage w') (host w') in
    let w' := withHost h (withStorage st w') in
    let w' := withStorage (snd (clearGameState (storage w'))) w' in
    let congratsMessage := getCongratulationsMessage moves time difficulty in
    let completionStats :=
      mkStats moves time finalScore difficulty isNewHighScore congratsMessage in
    if onGameComplete (options w)
    then snd (setTimeout (NotifyComplete completionStats) MATCH_DELAY w')
    else w'.

(** *** The effects, run after every update *)

(** "Check for game completion" *)
Definition completionEffect (w : World) : World :=
  let s := session w in
  if isGameStarted s && negb (isGameComplete s)
     && negb (gameCompleteTriggeredRef s)
     && (0 <? length (cards s))%nat && isGameWon (cards s)
  then handleGameCompletion w
  else w.

(** "Auto-flip last remaining pair when only 1 pair is left" *)
Definition autoFlipEffect (w : World) : World :=
  let s := session w in
  if isGameStarted s && negb (isGamePaused s) && negb (isProcessing s)
     && negb (isGameComplete s)
     && Qgt_bool (totalPairs s) 0
     && Qeq_bool (totalPairs s - inject_Z (matchedPairs s)) 1
  then
    let unmatchedCards := List.filter (λ card, negb (isMatched card)) (cards s) in
    match unmatchedCards with
    | [firstCard; secondCard] =>
        let w := withSession (setIsProcessing true) w in
        let w := snd (setTimeout (AutoFlip (id firstCard)) 500 w) in
        let w := snd (setTimeout (AutoFlip (id secondCard)) 800 w) in
        snd (setTimeout (AutoResolve firstCard secondCard) (CARD_FLIP + 900) w)
    | _ => w
    end
  else w.

Definition runEffects (w : World) : World :=
  autoFlipEffect (completionEffect w).

(** *** Timeouts *)

(** What a scheduled closure does when it runs. *)
Definition runCallback (cb : Callback) (w : World) : World :=
  match cb with
  | CompareFlipped firstCard secondCard matchedPairs' moves' time' =>
      if checkCardsMatch firstCard secondCard
      then handleMatch matchedPairs' moves' time' firstCard secondCard w
      else handleNoMatch firstCard secondCard w
  | FlipBack card1 card2 =>
      let w := withSession (setCards (unflipCards [id card1; id card2])) w in
      let w := withSession (setFlippedCards []) w in
      let w := withSession (setIsProcessing false) w in
      notify (onNoMatch (options w)) NoMatchNotified w
  | NotifyComplete completionStats =>
      notify true (GameCompleteNotified completionStats) w
  | AutoFlip cardId =>
      let w := notify (onFlip (options w)) FlipNotified w in
      withSession (setCards (flipCard cardId)) w
  | AutoResolve firstCard secondCard =>
      if checkCardsMatch firstCard secondCard then
        let w := withSession (setCards (map (λ card,
          if String.eqb (id card) (id firstCard) || String.eqb (id card) (id secondCard)
          then mkCard (id card) (value card) (imageUrl card) true true (pairId card)
          else card))) w in
        let w := withSession (setMatchedPairs (λ prev, prev + 1)) w in
        let w := withSession (setFlippedCards []) w in
        let w := withSession (setIsProcessing false) w in
        notify (onMatch (options w)) MatchNotified w
      else w
  end.

(** The pending timeout the scheduler runs next, with the ones that stay
    pending: the earliest due, the earlier scheduled among equals. *)
Fixpoint popEarliest (ts : list Timeout) : option (Timeout * list Timeout) :=
  match ts with
  | [] => None
  | t :: rest =>
      match popEarliest rest with
      | Some (t', rest') =>
          if due t' <? due t then Some (t', t :: rest') else Some (t, rest)
      | None => Some (t, [])
      end
  end.

Definition fireTimeout (w : World) : World :=
  match popEarliest (pending w) with
  | None => w
  | Some (t, rest) =>
      let w := mkWorld (options w) (session w) (timer w) (storage w) (host w)
                 (Z.max (elapsed w) (due t)) rest
                 (nextHandle w) (notifications w) in
      runCallback (callback t) w
  end.

(** Time passing with no timeout running: never beyond the next one due. *)
Definition wait (ms : Z) (w : World) : World :=
  let target := elapsed w + Z.max 0 ms in
  let target :=
    match popEarliest (pending w) with
    | Some (t, _) => Z.max (elapsed w) (Z.min target (due t))
    | None => target
    end in
  mkWorld (options w) (session w) (timer w) (storage w) (host w)
    target (pending w) (nextHandle w) (notifications w).

(** The 30-second save, which runs only while a game is in progress. *)
Definition autoSave (w : World) : World :=
  let s := session w in
  if negb (isGameStarted s) || isGameComplete s || isGamePaused s then w
  else saveSnapshot w.

(** *** The hook as a transition system *)

Inductive Event :=
  | CardClick (cardId : string)
  | StartGame
  | ResetGame
  | PauseGame
  | ResumeGame
  | TimeoutFires
  | TimePasses (ms : Z)
  | TimerTick
  | AutoSaveInterval.

#[global] Instance Event_eq_dec : EqDecision Event.
Proof. solve_decision. Defined.

Definition handleEvent (e : Event) (w : World) : World :=
  match e with
  | CardClick cardId => handleCardClick cardId w
  | StartGame => startGame w
  | ResetGame => resetGame w
  | PauseGame => pauseGame w
  | ResumeGame => resumeGame w
  | TimeoutFires => fireTimeout w
  | TimePasses ms => wait ms w
  | TimerTick => withTimer timer_tick w
  | AutoSaveInterval => autoSave w
  end.

Definition step (w : World) (e : Event) : World :=
  runEffects (handleEvent e w).

Definition run (events : list Event) (w : World) : World :=
  foldl step w events.

(** The hook at mount: the initial [useState] values, then the effect that
    initializes the game. *)
Definition mount (o : Options) (st : Storage) (h : Host) : World :=
  let w := mkWorld o
    (mkSession [] [] 0 0 0 false false false false None false)
    (mkTimer IDLE 0) st h 0 [] 1 [] in
  runEffects (initializeGame w).

End GameLogic.

(* ===================================================================== *)
(** ** components/game: the guards of the board *)
(* ===================================================================== *)

Module Board.
Import GameLogic.

(** GameBoard.tsx: [cardsDisabled]. *)
Definition cardsDisabled (isGameStarted isGamePaused isProcessing : bool) : bool :=
  negb isGameStarted || isGamePaused || isProcessing.

(** Card.tsx, [handleClick]: the id handed to [onClick], if any. *)
Definition handleClick (card : Card) (disabled : bool) : option string :=
  if negb disabled && negb (isFlipped card) && negb (isMatched card)
  then Some (id card)
  else None.

(** A click on a card of the board as App.tsx wires it: the board gets the
    hook's flags and [handleCardClick] as [onCardClick]. *)
Definition clickOnBoard (card : Card) (w : World) : World :=
  let s := session w in
  let disabled :=
    cardsDisabled (isGameStarted s) (isGamePaused s) (isProcessing s) in
  match handleClick card disabled with
  | Some cardId => handleCardClick cardId w
  | None => w
  end.

End Board.

(* ===================================================================== *)
(** ** Vocabulary of the statements *)
(* ===================================================================== *)

Import Constants GameHelpers LocalStorage GameLogic.

(** The number of pairs of a difficulty, [config.totalCards / 2]. *)
Definition pairCount (d : Difficulty) : Z :=
  Z.of_nat (totalCards (GAME_CONFIGS d)) / 2.

(** The bonus of the untimed mode for finishing under two minutes. *)
Definition quickFinishBonus (timeElapsed : Z) : Z :=
  if timeElapsed <? 120 then (120 - timeElapsed) * TIME_BONUS_MULTIPLIER else 0.

(** The result of [n] successive calls of [generateId]. *)
Fixpoint generateIds (n : nat) : Eff (list string) :=
  match n with
  | O => eff_ret []
  | S n' =>
      do x <- generateId;
      do xs <- generateIds n';
      eff_ret (x :: xs)
  end.

(** The cards [forEach] pushes for the selected values when the calls of
    [generateId] return [ids], in the order they are pushed. *)
Fixpoint pairCards (index : nat) (selectedCards ids : list string) : list Card :=
  match selectedCards, ids with
  | cardValue :: rest, id1 :: id2 :: ids' =>
      let pairId := "pair-" +:+ pretty index in
      mkCard id1 cardValue (Some cardValue) false false pairId
      :: mkCard id2 cardValue (Some cardValue) false false pairId
      :: pairCards (S index) rest ids'
  | _, _ => []
  end.

(** The ids that the calls of [generateId] inside [generateCards] return:
    they start once the theme's values have been shuffled. *)
Definition idsDrawn (d : Difficulty) (themeId : option string) (h : Host)
    : list string :=
  let theme := getCardTheme (default DEFAULT_THEME_ID themeId) in
  let afterShuffle := (shuffleArray (theme_cards theme) h).2 in
  (generateIds (2 * (totalCards (GAME_CONFIGS d) / 2)) afterShuffle).1.

(** How many cards of a deck carry a pair id. *)
Definition cardsOfPair (p : string) (deck : list Card) : nat :=
  length (filter (λ c, pairId c = p) deck).

(** A deck of the right size whose pair ids come in twos and whose cards
    all lie face down and unmatched. *)
Definition DeckShape (d : Difficulty) (deck : list Card) : Prop :=
  Z.of_nat (length deck) = 2 * pairCount d ∧
  (∀ c, c ∈ deck → cardsOfPair (pairId c) deck = 2%nat) ∧
  (∀ c, c ∈ deck → isFlipped c = false ∧ isMatched c = false).

(** Deck integrity: the shape above, and no id on two cards. *)
Definition DeckIntegrity (d : Difficulty) (deck : list Card) : Prop :=
  DeckShape d deck ∧ NoDup (map id deck).

(** A host whose clock stands still during deck generation and whose random
    source keeps returning 0.5, which [toString(36)] renders as "0.i". *)
Definition stuckHost : Host :=
  mkHost (λ _, mkDraw (2 ^ 52) "0.i") 0 (λ _, 1700000000000%N) 0.

(** A host whose draws are all different, where the two draws behind the
    ids of the first pair are 0.5 + 2^-50 and 0.5 + 2^-51: their radix-36
    texts differ only after the ninth digit.  Deck generation happens within
    one reading of the clock. *)
Definition nearbyDrawsHost : Host :=
  mkHost
    (λ k, if (k =? 9)%nat then mkDraw (2 ^ 52 + 8) "0.i0000000039"
          else if (k =? 10)%nat then mkDraw (2 ^ 52 + 4) "0.i000000001m"
          else mkDraw ((N.of_nat k * 2654435761 * 2 ^ 21 + 977) mod 2 ^ 53)
                      ("0." +:+ pretty (N.of_nat k * 2654435761)%N))
    0 (λ _, 1700000000000%N) 0.

(** The completion callback: calls made, calls scheduled, and both. *)
Definition isCompletion (n : Notification) : bool :=
  match n with GameCompleteNotified _ => true | _ => false end.
Definition schedulesCompletion (t : Timeout) : bool :=
  match callback t with NotifyComplete _ => true | _ => false end.
Definition completionsDelivered (w : World) : nat :=
  length (List.filter isCompletion (notifications w)).
Definition completionsPending (w : World) : nat :=
  length (List.filter schedulesCompletion (pending w)).
Definition completionsFired (w : World) : nat :=
  (completionsDelivered w + completionsPending w)%nat.

(** The card a click on [cardId] is about: [cards.find(c => c.id === cardId)]. *)
Definition clickedCard (cardId : string) (w : World) : option Card :=
  List.find (λ c, String.eqb (id c) cardId) (cards (session w)).

(** A card after the engine has confirmed its pair. *)
Definition matchedCard (card : Card) : Card :=
  mkCard (id card) (value card) (imageUrl card) true true (pairId card).

(** An upper bound on the timeouts one pending timeout stands for: a
    comparison may schedule the flip back. *)
Definition timeoutWork (t : Timeout) : nat :=
  match callback t with
  | CompareFlipped _ _ _ _ _ => 2
  | _ => 1
  end.
Definition pendingWork (ts : list Timeout) : nat :=
  sum_list_with timeoutWork ts.

(** Between two worlds nothing about completion changed. *)
Definition Stutter (w w' : World) : Prop :=
  options w' = options w ∧
  gameCompleteTriggeredRef (session w') = gameCompleteTriggeredRef (session w) ∧
  isGameComplete (session w') = isGameComplete (session w) ∧
  completionsFired w' = completionsFired w.

(** Between two worlds the completion transition happened, once. *)
Definition Completes (w w' : World) : Prop :=
  options w' = options w ∧
  gameCompleteTriggeredRef (session w) = false ∧
  gameCompleteTriggeredRef (session w') = true ∧
  isGameComplete (session w') = true ∧
  completionsFired w' =
    (completionsFired w + if onGameComplete (options w) then 1 else 0)%nat.

(** A host used to run the engine on concrete inputs: distinct draws, a
    clock that advances by a millisecond per reading. *)
Definition demoHost : Host :=
  mkHost (λ k, mkDraw ((N.of_nat k * 2654435761 * 2 ^ 21 + 977) mod 2 ^ 53)
                      ("0." +:+ pretty (N.of_nat k * 2654435761)%N))
         0 (λ k, 1700000000000 + N.of_nat k)%N 0.

Definition emptyStorage : Storage := mkStorage None None None false.

Definition demoOptions (d : Difficulty) : Options :=
  mkOptions d None true true true true.

(** An EASY game right after mount. *)
Definition freshGame : World := mount (demoOptions EASY) emptyStorage demoHost.

(** Clicks on the two cards of a pair, and a game played pair by pair: each
    comparison runs before the next click, and the last pair is left to the
    engine, whose three timeouts run at the end. *)
Definition clicksOnPair (p : string) (w : World) : list Event :=
  map (λ c, CardClick (id c))
    (List.filter (λ c, String.eqb (pairId c) p) (cards (session w))).

Definition threePairs : list Event :=
  StartGame
  :: clicksOnPair "pair-0" freshGame ++ [TimeoutFires]
  ++ clicksOnPair "pair-1" freshGame ++ [TimeoutFires]
  ++ clicksOnPair "pair-2" freshGame.

Definition fullGame : list Event :=
  threePairs ++ [TimeoutFires; TimeoutFires; TimeoutFires; TimeoutFires].

(** The first card of [freshGame]'s deck, that game started and with the
    card clicked once, and the card as it then lies face up. *)
Definition firstCardId : string := "1700000000002-291987933".
Definition afterFirstClick : World :=
  run [StartGame; CardClick firstCardId] freshGame.
Definition firstCardUp : Card :=
  mkCard firstCardId "🐼" (Some "🐼") true false "pair-1".

(** [freshGame] at the moment its third pair has been confirmed, before the
    effects run, and the two cards then left. *)
Definition onePairLeft : World :=
  handleEvent TimeoutFires (run threePairs freshGame).
Definition lastPairFirst : Card :=
  mkCard "1700000000006-398165364" "🐻" (Some "🐻") false false "pair-3".
Definition lastPairSecond : Card :=
  mkCard "1700000000007-424709721" "🐻" (Some "🐻") false false "pair-3".

(** The same game with the third comparison resolving while the game is
    paused: one pair is left, nothing is being compared, the game is paused. *)
Definition pausedOnePairLeft : World :=
  run (threePairs ++ [PauseGame; TimeoutFires]) freshGame.

(** The engine resolving the last pair by itself: with no event but its own
    timeouts, all cards end up matched, [matchedPairs] has grown by one and
    [moves] has not changed. *)
Definition ResolvesLastPair (w : World) : Prop :=
  ∃ n, let w' := run (replicate n TimeoutFires) (runEffects w) in
    (∀ card, card ∈ cards (session w') → isMatched card = true) ∧
    matchedPairs (session w') = matchedPairs (session w) + 1 ∧
    moves (session w') = moves (session w).

(** Exactly one pair remains unmatched: the counters say so, and the
    unmatched cards are two cards of one pair. *)
Definition OnePairLeft (w : World) : Prop :=
  (totalPairs (session w) - inject_Z (matchedPairs (session w)) == 1)%Q ∧
  ∃ firstCard secondCard,
    List.filter (λ card, negb (isMatched card)) (cards (session w))
      = [firstCard; secondCard] ∧
    pairId firstCard = pairId secondCard ∧
    id firstCard ≠ id secondCard.

(** The rule for the last pair with no more conditions than one pair left
    and no comparison under way. *)
Definition LastPairRule (w : World) : Prop :=
  OnePairLeft w → isProcessing (session w) = false → ResolvesLastPair w.

(** Two sessions to evaluate the percentage on: no deck, and a deck of two
    pairs with one of them matched. *)
Definition emptySession : Session :=
  mkSession [] [] 0 0 0 false false false false None false.

(** The product that the guard of [completionPercentage] keeps from an
    empty deck. *)
Definition percentageProduct (s : Session) : Double.Number :=
  Double.mul
    (Double.div (Double.Finite (inject_Z (matchedPairs s)))
       (Double.Finite (totalPairs s)))
    (Double.Finite 100).




(** A deck of forty pairs with 23 of them matched. *)
Definition fortyPairs : Session :=
  mkSession
    (map (λ k, mkCard ("card-" +:+ pretty k) (pretty (k / 2)%nat) None
                 (k <? 46)%nat (k <? 46)%nat ("pair-" +:+ pretty (k / 2)%nat))
       (seq 0 80))
    [] 23 23 2300 true false false false None false.

(** A full leaderboard with the scores 1000, 900, ..., 100, and two
    candidates: one below all of them and one in between. *)
Definition boardEntry (n : nat) : HighScore :=
  mkHighScore ("entry-" +:+ pretty n) None 12 90 EASY 0 (Z.of_nat n * 100).
Definition fullBoard : Storage :=
  mkStorage (Some (map boardEntry [10; 9; 8; 7; 6; 5; 4; 3; 2; 1]%nat))
    None None false.
Definition lowEntry : HighScore := mkHighScore "low" None 30 200 EASY 0 50.
Definition highEntry : HighScore := mkHighScore "high" None 9 40 EASY 0 550.

(** The pending timeouts other than the completion callback. *)
Definition engineTimeouts (ts : list Timeout) : list Timeout :=
  List.filter (λ t, negb (schedulesCompletion t)) ts.

(** What can be pending while the engine is processing: one comparison, one
    flip back, or what is left of an automatic resolution, in the order in
    which it falls due; nothing is left after an automatic resolution that
    found no match. *)
Inductive Busy : list Timeout → Prop :=
  | busy_comparing t c1 c2 mp mv tm :
      callback t = CompareFlipped c1 c2 mp mv tm → Busy [t]
  | busy_flipping_back t c1 c2 :
      callback t = FlipBack c1 c2 → Busy [t]
  | busy_resolving3 ta tb tc a b c1 c2 :
      callback ta = AutoFlip a → callback tb = AutoFlip b →
      callback tc = AutoResolve c1 c2 →
      due ta ≤ due tb → due tb ≤ due tc → Busy [ta; tb; tc]
  | busy_resolving2 tb tc b c1 c2 :
      callback tb = AutoFlip b → callback tc = AutoResolve c1 c2 →
      due tb ≤ due tc → Busy [tb; tc]
  | busy_resolving1 tc c1 c2 :
      callback tc = AutoResolve c1 c2 → Busy [tc]
  | busy_stuck : Busy [].

(** The engine's timeouts agree with [isProcessing]. *)
Definition Orderly (w : World) : Prop :=
  if isProcessing (session w) then Busy (engineTimeouts (pending w))
  else engineTimeouts (pending w) = [].

(** What a comparator says of two elements that may stay in this order. *)
Definition notAfter {A} (compare : A → A → Z) (a b : A) : Prop :=
  compare a b ≤ 0.

(** The order of the leaderboard: higher score first, and among equal
    scores the shorter time first. *)
Definition leaderboardOrder (a b : HighScore) : Prop :=
  hs_score b < hs_score a ∨ (hs_score a = hs_score b ∧ hs_time a ≤ hs_time b).

(* ===================================================================== *)
(** ** Vocabulary of the further properties *)
(* ===================================================================== *)

(** The largest integer below which every integer is a JavaScript number,
    [Number.MAX_SAFE_INTEGER]: up to it a number of whole seconds is exact
    and [toString] writes it out in digits. *)
Definition MAX_SAFE_INTEGER : Z := 9007199254740991.

(** Decimal digits, and strings made of them. *)
Definition isDigit (c : Ascii.ascii) : bool :=
  existsb (Ascii.eqb c) (String.list_ascii_of_string "0123456789").

Fixpoint allDigits (s : string) : bool :=
  match s with
  | EmptyString => true
  | String c s' => isDigit c && allDigits s'
  end.

(** The deck of [freshGame]. *)
Definition demoDeck : list Card := (generateCards EASY None demoHost).1.

(** The milliseconds of the 24 hours a saved game is kept for. *)
Definition dayMs : Z := 24 * 60 * 60 * 1000.

(** A host whose clock reads five minutes after [demoHost]'s. *)
Definition pausedGameHost : Host :=
  mkHost (λ _, mkDraw 0 "0") 0 (λ k, 1700000300000 + 3600000 * N.of_nat k)%N 0.

(** Completed games recorded one after the other, as [handleGameCompletion]
    records them: [(moves, time)] each. *)
Fixpoint recordWins (games : list (Z * Z)) (st : Storage) : Eff Storage :=
  match games with
  | [] => eff_ret st
  | (moves, time) :: rest =>
      do updated <- updatePlayerStats moves time true st;
      recordWins rest updated.2
  end.

(** The stored statistics, or the counters [loadPlayerStats] starts from. *)
Definition storedStats (st : Storage) : PlayerStats :=
  default (mkPlayerStats 0 0 None None 0 0%Q 0%N) (PLAYER_STATS st).

(** The least of the numbers seen so far. *)
Definition leastOf (start : option Z) (l : list Z) : option Z :=
  foldl minInf start l.

(** Everything of the store but the settings. *)
Definition otherKeys (st : Preferences.Store)
    : Storage * option string * option string :=
  (Preferences.gameKeys st, Preferences.PLAYER_NAME st,
   Preferences.THEME_PREFERENCE st).

(** A store with a full leaderboard and a player name, and nothing else. *)
Definition demoStore : Preferences.Store :=
  Preferences.mkStore fullBoard None (Some "Ada") None.

(** What every reachable state of the engine satisfies. *)
Definition Tidy (w : World) : Prop :=
  let s := session w in
  (length (flippedCards s) ≤ 2)%nat ∧
  (length (flippedCards s) = 2%nat → isProcessing s = true) ∧
  isGameComplete s = gameCompleteTriggeredRef s ∧
  (isGameComplete s = true →
     isGameStarted s = true ∧ isGameWon (cards s) = true ∧
     LAST_GAME_STATE (storage w) = None).

(** A card after play went on: the same card, and still matched if it was. *)
Definition sameCard (c c' : Card) : Prop :=
  id c' = id c ∧ value c' = value c ∧ imageUrl c' = imageUrl c ∧
  pairId c' = pairId c ∧ (isMatched c = true → isMatched c' = true).

(** A game after play went on: the same cards in the same places, and
    counters that have not gone down. *)
Definition PlayedOn (w w' : World) : Prop :=
  Forall2 sameCard (cards (session w)) (cards (session w')) ∧
  moves (session w) ≤ moves (session w') ∧
  matchedPairs (session w) ≤ matchedPairs (session w') ∧
  options w' = options w.

(** A game in progress that waits for the first card of a turn, and two
    different cards of its deck that lie face down; more than the last pair
    is left, by the engine's count. *)
Definition ReadyForTurn (w : World) (card1 card2 : Card) : Prop :=
  let s := session w in
  isGameStarted s = true ∧ isGamePaused s = false ∧
  isGameComplete s = false ∧ isProcessing s = false ∧
  flippedCards s = [] ∧ pending w = [] ∧
  NoDup (map id (cards s)) ∧
  card1 ∈ cards s ∧ card2 ∈ cards s ∧ id card1 ≠ id card2 ∧
  isFlipped card1 = false ∧ isMatched card1 = false ∧
  isFlipped card2 = false ∧ isMatched card2 = false ∧
  ¬ (totalPairs s - inject_Z (matchedPairs s) == 1)%Q.

(** The cards of a turn marked as a matched pair. *)
Definition withPairMatched (card1 card2 : Card) (l : list Card) : list Card :=
  map (λ card, if String.eqb (id card) (id card1) || String.eqb (id card) (id card2)
               then matchedCard card else card) l.

(** How many cards of a deck are matched. *)
Definition matchedCards (l : list Card) : nat :=
  length (List.filter isMatched l).

(** The deck has an unmatched card with the id of [c]; and one that lies
    face up as well. *)
Definition unmatchedIn (l : list Card) (c : Card) : Prop :=
  ∃ c', c' ∈ l ∧ id c' = id c ∧ isMatched c' = false.
Definition faceUpIn (l : list Card) (c : Card) : Prop :=
  ∃ c', c' ∈ l ∧ id c' = id c ∧ isFlipped c' = true ∧ isMatched c' = false.

(** The two cards a pending timeout will compare, if it compares. *)
Definition comparison (t : Timeout) : option (Card * Card) :=
  match callback t with
  | CompareFlipped c1 c2 _ _ _ => Some (c1, c2)
  | AutoResolve c1 c2 => Some (c1, c2)
  | _ => None
  end.

(** The counter of matched pairs agrees with the deck, and what keeps it
    so: ids are distinct, a pending comparison is about two different
    unmatched cards, and the cards in [flippedCards] lie face up. *)
Definition Counted (w : World) : Prop :=
  let s := session w in
  NoDup (map id (cards s)) ∧
  2 * matchedPairs s = Z.of_nat (matchedCards (cards s)) ∧
  (∀ t c1 c2, t ∈ pending w → comparison t = Some (c1, c2) →
     id c1 ≠ id c2 ∧ unmatchedIn (cards s) c1 ∧ unmatchedIn (cards s) c2) ∧
  (∀ c, c ∈ flippedCards s → faceUpIn (cards s) c).

(** [freshGame] started; its first card as it lies face down; the full game
    with a pause before the first click; a store that refuses every write;
    and [freshGame] at the moment its last pair has been resolved, before
    the effects run. *)
Definition startedGame : World := run [StartGame] freshGame.
Definition firstCardDown : Card :=
  mkCard firstCardId "🐼" (Some "🐼") false false "pair-1".
Definition pausedAndFinished : list Event :=
  [StartGame; PauseGame; ResumeGame] ++ drop 1 fullGame.
Definition refusingStorage : Storage := mkStorage None None None true.
Definition allMatched : World :=
  handleEvent TimeoutFires
    (run (threePairs ++ [TimeoutFires; TimeoutFires; TimeoutFires]) freshGame).

(* ===================================================================== *)
(** ** Deck generator *)
(* ===================================================================== *)

Section Deck.

Lemma randomBelow_lt n h : (0 < n)%nat → ((randomBelow n h).1 < n)%nat.
Proof.
  intros Hn. unfold randomBelow, eff_bind, Math_random, eff_ret. simpl.
  set (f := (fraction _ mod 2 ^ 53)%N).
  assert (Hf : (f < 2 ^ 53)%N) by (apply N.mod_lt; done).
  assert (Hq : (f * N.of_nat n / 2 ^ 53 < N.of_nat n)%N).
  { apply N.Div0.div_lt_upper_bound. nia. }
  lia.
Qed.

Lemma swap_Permutation {T} i j (l : list T) : swap i j l ≡ₚ l.
Proof.
  unfold swap.
  destruct (l !! i) as [xi|] eqn:Hi; [|done].
  destruct (l !! j) as [xj|] eqn:Hj; [|done].
  by apply Permutation_insert_swap.
Qed.

(** Inside the loop both indices are in range, so a swap really swaps. *)
Lemma swap_in_range {T} i j (l : list T) :
  (i < length l)%nat → (j ≤ i)%nat →
  ∃ xi xj, l !! i = Some xi ∧ l !! j = Some xj ∧
           swap i j l = <[j := xi]> (<[i := xj]> l).
Proof.
  intros Hi Hj.
  destruct (lookup_lt_is_Some_2 l i Hi) as [xi Hxi].
  destruct (lookup_lt_is_Some_2 l j ltac:(lia)) as [xj Hxj].
  exists xi, xj. unfold swap. by rewrite Hxi, Hxj.
Qed.

Lemma shuffleLoop_Permutation {T} i (l : list T) h : (shuffleLoop i l h).1 ≡ₚ l.
Proof.
  revert l h. induction i as [|i IH]; intros l h; simpl; [done|].
  unfold eff_bind. destruct (randomBelow _ h) as [j h'].
  rewrite IH. apply swap_Permutation.
Qed.

Lemma shuffleArray_Permutation {T} (l : list T) h : (shuffleArray l h).1 ≡ₚ l.
Proof. apply shuffleLoop_Permutation. Qed.

Lemma generateIds_length n h : length (generateIds n h).1 = n.
Proof.
  revert h. induction n as [|n IH]; intros h; simpl; [done|].
  unfold eff_bind. destruct (generateId h) as [x h1].
  specialize (IH h1). destruct (generateIds n h1) as [xs h2]. simpl in *.
  by rewrite IH.
Qed.

Lemma pushPairs_pairCards selectedCards index cards h :
  (pushPairs index selectedCards cards h).1 =
    cards ++ pairCards index selectedCards
               (generateIds (2 * length selectedCards) h).1.
Proof.
  revert index cards h.
  induction selectedCards as [|v rest IH]; intros index cards h.
  - simpl. by rewrite app_nil_r.
  - replace (2 * length (v :: rest))%nat with (S (S (2 * length rest)))
      by (simpl; lia).
    cbn [pushPairs generateIds]. unfold eff_bind.
    destruct (generateId h) as [id1 h1].
    destruct (generateId h1) as [id2 h2].
    rewrite IH.
    destruct (generateIds (2 * length rest) h2) as [ids h3]. simpl.
    by rewrite <-!app_assoc.
Qed.

Lemma pairCards_ids index selectedCards ids :
  length ids = (2 * length selectedCards)%nat →
  map id (pairCards index selectedCards ids) = ids.
Proof.
  revert index ids.
  induction selectedCards as [|v rest IH]; intros index ids Hlen.
  - destruct ids; [done|]. simpl in Hlen. lia.
  - destruct ids as [|id1 [|id2 ids]]; simpl in Hlen; try lia.
    simpl. rewrite IH by lia. done.
Qed.

Lemma pairCards_flags index selectedCards ids c :
  c ∈ pairCards index selectedCards ids →
  isFlipped c = false ∧ isMatched c = false.
Proof.
  revert index ids.
  induction selectedCards as [|v rest IH]; intros index ids; simpl.
  - by intros ?%elem_of_nil.
  - destruct ids as [|id1 [|id2 ids]]; try by intros ?%elem_of_nil.
    rewrite !elem_of_cons. intros [->|[->|Hin]]; [done|done|].
    by eapply IH.
Qed.

Lemma pairName_inj (i j : nat) :
  "pair-" +:+ pretty i = "pair-" +:+ pretty j → i = j.
Proof. intros H. apply (inj (String.app "pair-")) in H. by apply (inj pretty). Qed.

(** No card pushed from [index] on carries the pair id of an earlier index. *)
Lemma pairCards_later k index selectedCards ids :
  (k < index)%nat →
  cardsOfPair ("pair-" +:+ pretty k) (pairCards index selectedCards ids) = 0%nat.
Proof.
  unfold cardsOfPair. revert index ids.
  induction selectedCards as [|v rest IH]; intros index ids Hk; simpl; [done|].
  destruct ids as [|id1 [|id2 ids]]; try done.
  rewrite !filter_cons. simpl.
  repeat case_decide; try (apply pairName_inj in H; lia);
    try (apply pairName_inj in H0; lia).
  apply IH. lia.
Qed.

Lemma pairCards_twice k index selectedCards ids :
  length ids = (2 * length selectedCards)%nat →
  (index ≤ k < index + length selectedCards)%nat →
  cardsOfPair ("pair-" +:+ pretty k) (pairCards index selectedCards ids) = 2%nat.
Proof.
  revert index ids.
  induction selectedCards as [|v rest IH]; intros index ids Hlen Hk;
    simpl in Hk; [lia|].
  destruct ids as [|id1 [|id2 ids]]; simpl in Hlen; try lia.
  unfold cardsOfPair. simpl. rewrite !filter_cons. simpl.
  destruct (decide (k = index)) as [->|Hne].
  - rewrite !decide_True by done. simpl. f_equal. f_equal.
    apply pairCards_later. lia.
  - rewrite !decide_False by (intros Heq%pairName_inj; lia).
    apply IH; lia.
Qed.

Lemma pairCards_pairId index selectedCards ids c :
  c ∈ pairCards index selectedCards ids →
  ∃ k, (index ≤ k < index + length selectedCards)%nat ∧
       pairId c = "pair-" +:+ pretty k.
Proof.
  revert index ids.
  induction selectedCards as [|v rest IH]; intros index ids; simpl.
  - by intros ?%elem_of_nil.
  - destruct ids as [|id1 [|id2 ids]]; try by intros ?%elem_of_nil.
    rewrite !elem_of_cons. intros [->|[->|Hin]].
    + exists index. simpl. split; [lia|done].
    + exists index. simpl. split; [lia|done].
    + apply IH in Hin as (k & Hk & ->). exists k. split; [lia|done].
Qed.

Lemma getCardTheme_listed themeId : getCardTheme themeId ∈ CARD_THEMES.
Proof.
  unfold getCardTheme.
  destruct (findTheme themeId) as [theme|] eqn:Hfind.
  - apply list_elem_of_In. by apply find_some in Hfind as [? _].
  - vm_compute. repeat constructor.
Qed.

Lemma theme_has_ten_values themeId :
  length (theme_cards (getCardTheme themeId)) = 10%nat.
Proof.
  pose proof (getCardTheme_listed themeId) as Hin.
  unfold CARD_THEMES in Hin. rewrite !elem_of_cons in Hin.
  destruct Hin as [->|[->|[->|[->|[->|[->|[->|[->|Hin]]]]]]]]; try done.
  by apply elem_of_nil in Hin.
Qed.

(** The deck is a rearrangement of the pushed cards. *)
Lemma generateCards_Permutation d themeId h :
  ∃ selectedCards,
    length selectedCards = (totalCards (GAME_CONFIGS d) / 2)%nat ∧
    (generateCards d themeId h).1 ≡ₚ
      pairCards 0 selectedCards (idsDrawn d themeId h).
Proof.
  unfold generateCards, idsDrawn, eff_bind.
  set (theme := getCardTheme (default DEFAULT_THEME_ID themeId)).
  set (n := (totalCards (GAME_CONFIGS d) / 2)%nat).
  pose proof (shuffleArray_Permutation (theme_cards theme) h) as Hshuffled.
  destruct (shuffleArray (theme_cards theme) h) as [shuffledTheme h1].
  cbn [fst snd] in Hshuffled |- *.
  assert (Hlen : length (take n shuffledTheme) = n).
  { apply length_take_le. rewrite (Permutation_length Hshuffled).
    unfold theme. rewrite theme_has_ten_values.
    unfold n. destruct d; simpl; lia. }
  exists (take n shuffledTheme). split; [done|].
  pose proof (pushPairs_pairCards (take n shuffledTheme) 0 [] h1) as Hpushed.
  destruct (pushPairs 0 (take n shuffledTheme) [] h1) as [cards h2].
  cbn [fst app] in Hpushed. rewrite Hlen in Hpushed. subst cards.
  apply shuffleArray_Permutation.
Qed.

(** The shape of a generated deck, and where its ids come from. *)
Lemma generateCards_shape_and_ids d themeId h :
  DeckShape d (generateCards d themeId h).1 ∧
  map id (generateCards d themeId h).1 ≡ₚ idsDrawn d themeId h.
Proof.
  set (deck := (generateCards d themeId h).1).
  destruct (generateCards_Permutation d themeId h) as (sel & Hsel & Hperm).
  fold deck in Hperm.
  assert (Hids : length (idsDrawn d themeId h) = (2 * length sel)%nat).
  { unfold idsDrawn. by rewrite generateIds_length, Hsel. }
  assert (Hmap : map id deck ≡ₚ idsDrawn d themeId h).
  { rewrite <-(pairCards_ids 0 sel (idsDrawn d themeId h) Hids).
    by apply fmap_Permutation. }
  split; [|done].
  split; [|split].
  - rewrite <-(length_map id), (Permutation_length Hmap), Hids, Hsel.
    unfold pairCount. destruct d; reflexivity.
  - intros c Hc. unfold cardsOfPair. rewrite Hperm in Hc |- *.
    apply pairCards_pairId in Hc as (k & Hk & ->).
    by apply pairCards_twice.
  - intros c Hc. rewrite Hperm in Hc. by eapply pairCards_flags.
Qed.

(** What [generateCards] does guarantee.  For every difficulty, theme id
    and host it returns a deck of [2 * pairCount] cards in which every pair
    id is on exactly two cards and every card is face down and unmatched;
    the ids of the deck are the strings the calls of [generateId] returned,
    so no id is on two cards exactly when those calls returned different
    strings. *)
Theorem generateCards_deck (d : Difficulty) (themeId : option string) (h : Host) :
  let deck := (generateCards d themeId h).1 in
  DeckShape d deck ∧
  map id deck ≡ₚ idsDrawn d themeId h ∧
  (NoDup (map id deck) ↔ NoDup (idsDrawn d themeId h)).
Proof.
  intros deck.
  destruct (generateCards_shape_and_ids d themeId h) as [Hshape Hids].
  fold deck in Hshape, Hids.
  split; [done|]. split; [done|]. by rewrite Hids.
Qed.

(** C2, on the code.  [generateId], documented as generating a unique id,
    joins the clock reading and nine digits of a random draw and checks
    nothing: with a clock that stands still and a random source that
    repeats itself, EASY's eight cards all get the same id, and the deck
    that [generateCards] returns does not have the integrity C2 states. *)
Theorem generateCards_ids_can_repeat :
  map id (generateCards EASY None stuckHost).1 = replicate 8 "1700000000000-i" ∧
  ¬ DeckIntegrity EASY (generateCards EASY None stuckHost).1.
Proof.
  assert (Hids : map id (generateCards EASY None stuckHost).1
                 = replicate 8 "1700000000000-i") by (vm_compute; reflexivity).
  split; [exact Hids|]. intros [_ Hnodup].
  rewrite Hids in Hnodup. cbn [replicate] in Hnodup.
  apply NoDup_cons_1_1 in Hnodup. apply Hnodup. left.
Qed.

(** The same happens with draws that all differ, because only nine digits
    of a draw go into the id. *)
Lemma generateCards_ids_repeat_on_distinct_draws :
  NoDup (map (λ k, fraction (randomDraws nearbyDrawsHost k)) (seq 0 24)) ∧
  ¬ NoDup (map id (generateCards EASY None nearbyDrawsHost).1).
Proof.
  split.
  - apply (bool_decide_unpack
      (NoDup (map (λ k, fraction (randomDraws nearbyDrawsHost k)) (seq 0 24)))).
    vm_compute. reflexivity.
  - rewrite (proj2 (generateCards_shape_and_ids EASY None nearbyDrawsHost)).
    assert (Hids : take 2 (idsDrawn EASY None nearbyDrawsHost)
                   = replicate 2 "1700000000000-i00000000")
      by (vm_compute; reflexivity).
    intros Hnodup. rewrite <-(take_drop 2 (idsDrawn _ _ _)), Hids in Hnodup.
    cbn [replicate app] in Hnodup.
    apply NoDup_cons_1_1 in Hnodup. apply Hnodup. left.
Qed.

End Deck.

(* ===================================================================== *)
(** ** Score calculator *)
(* ===================================================================== *)

Section Score.

Lemma pairCount_values d :
  pairCount d = match d with EASY => 4 | MEDIUM => 6 | HARD => 10 end.
Proof. by destruct d. Qed.

Lemma calculateScore_unfinished moves t d mp :
  mp ≠ pairCount d →
  calculateScore moves t d mp = Z.max 0 (mp * MATCH_BONUS).
Proof.
  intros Hne. unfold calculateScore.
  fold (pairCount d).
  destruct (Z.eqb_spec mp (pairCount d)) as [Heq|_]; [by destruct Hne|].
  by rewrite Z.add_0_l.
Qed.

(** C5. [calculateScore] never returns a negative number, and below the
    full pair count more matched pairs never give a lower score. *)
Theorem calculateScore_nonneg_monotone :
  (∀ moves t d mp, 0 ≤ calculateScore moves t d mp) ∧
  (∀ moves t d mp1 mp2,
     mp1 ≤ mp2 → mp2 < pairCount d →
     calculateScore moves t d mp1 ≤ calculateScore moves t d mp2).
Proof.
  split.
  - intros. unfold calculateScore. apply Z.le_max_l.
  - intros moves t d mp1 mp2 Hle H2.
    rewrite !calculateScore_unfinished by lia.
    unfold MATCH_BONUS. lia.
Qed.

Lemma calculateScore_nonneg_monotone_witness :
  0 ≤ calculateScore 30 500 HARD 10 ∧
  calculateScore 5 40 MEDIUM 2 ≤ calculateScore 5 40 MEDIUM 5.
Proof.
  split.
  - apply (proj1 calculateScore_nonneg_monotone).
  - apply (proj2 calculateScore_nonneg_monotone); vm_compute; congruence.
Defined.

(** C6. On EASY with all four pairs matched, a game of exactly 8 moves
    scores the match points, the completion bonus, the time bonus and the
    perfect-game bonus; a game of 9 moves scores the same without the
    perfect-game bonus (and pays the penalty of one extra move). *)
Theorem perfect_game_bonus_easy (timeElapsed : Z) :
  PERFECT_MOVES EASY = 8 ∧ pairCount EASY = 4 ∧ PERFECT_GAME_BONUS = 500 ∧
  calculateScore 8 timeElapsed EASY 4 =
    4 * MATCH_BONUS + 1000 + quickFinishBonus timeElapsed + PERFECT_GAME_BONUS ∧
  calculateScore 9 timeElapsed EASY 4 =
    4 * MATCH_BONUS + 1000 + quickFinishBonus timeElapsed - 1 * MOVE_PENALTY.
Proof.
  repeat split.
  - unfold calculateScore, quickFinishBonus. simpl.
    unfold TIME_BONUS_MULTIPLIER, PERFECT_GAME_BONUS, MATCH_BONUS.
    destruct (Z.ltb_spec timeElapsed 120); lia.
  - unfold calculateScore, quickFinishBonus. simpl.
    unfold TIME_BONUS_MULTIPLIER, PERFECT_GAME_BONUS, MATCH_BONUS, MOVE_PENALTY.
    destruct (Z.ltb_spec timeElapsed 120); lia.
Qed.

End Score.

(* ===================================================================== *)
(** ** Completion percentage *)
(* ===================================================================== *)

Section Percentage.

Lemma totalPairs_positive s :
  cards s ≠ [] → Qgt_bool (totalPairs s) 0 = true.
Proof.
  intros Hne. unfold Qgt_bool, totalPairs.
  apply negb_true_iff, not_true_iff_false. rewrite Qle_bool_iff.
  destruct (cards s) as [|c l]; [done|].
  apply Qlt_not_le. simpl length.
  apply Qlt_shift_div_l; [reflexivity|].
  rewrite Qmult_0_l. unfold Qlt. simpl. lia.
Qed.


(** *** Doubles: what rounding can add *)




(** Doubles as the code computes them: a tenth, a third, and the quotient
    and product behind the percentage of 23 out of 40 pairs. *)
Lemma doubles_as_computed :
  let value x := match x with Double.Finite q => Some (Qred q) | _ => None end in
  value (Double.div (Double.Finite 1) (Double.Finite 10))
    = Some (3602879701896397 # 36028797018963968) ∧
  value (Double.div (Double.Finite 1) (Double.Finite 3))
    = Some (6004799503160661 # 18014398509481984) ∧
  value (Double.div (Double.Finite 23) (Double.Finite 40))
    = Some (2589569785738035 # 4503599627370496) ∧
  value (percentageProduct fortyPairs)
    = Some (8092405580431359 # 140737488355328) ∧
  Double.div (Double.Finite 0) (Double.Finite 0) = Double.NaN ∧
  Double.div (Double.Finite 1) (Double.Finite 0) = Double.PosInfinity.
Proof. vm_compute. done. Qed.

(** *** The percentage *)










End Percentage.

(* ===================================================================== *)
(** ** High scores *)
(* ===================================================================== *)

Section Sorting.

Context {A : Type} (compare : A → A → Z).

Hypothesis compare_total : ∀ a b, 0 < compare a b → compare b a ≤ 0.
Hypothesis compare_trans :
  ∀ a b c, compare a b ≤ 0 → compare b c ≤ 0 → compare a c ≤ 0.

Lemma insertBy_Permutation x l : insertBy compare x l ≡ₚ x :: l.
Proof using Type.
  induction l as [|y l IH]; simpl; [done|].
  destruct (0 <? compare x y); [|done].
  rewrite IH. apply Permutation_swap.
Qed.

Lemma sortBy_Permutation l : sortBy compare l ≡ₚ l.
Proof using Type.
  induction l as [|x l IH]; simpl; [done|].
  fold (sortBy compare l). by rewrite insertBy_Permutation, IH.
Qed.

Lemma sortBy_length l : length (sortBy compare l) = length l.
Proof using Type. apply Permutation_length, sortBy_Permutation. Qed.

Lemma insertBy_sorted x l :
  StronglySorted (notAfter compare) l → StronglySorted (notAfter compare) (insertBy compare x l).
Proof using compare_total compare_trans.
  induction 1 as [|y l Hsorted IH Hall]; simpl.
  - repeat constructor.
  - destruct (Z.ltb_spec 0 (compare x y)) as [Hgt|Hle].
    + constructor; [done|].
      rewrite insertBy_Permutation. constructor; [|done].
      by apply compare_total.
    + constructor; [by constructor|].
      constructor; [done|].
      eapply Forall_impl; [exact Hall|].
      intros z Hz. by eapply compare_trans.
Qed.

Lemma sortBy_sorted l : StronglySorted (notAfter compare) (sortBy compare l).
Proof using compare_total compare_trans.
  induction l as [|x l IH]; simpl; [constructor|].
  by apply insertBy_sorted.
Qed.

(** A list that is already in order is left as it is. *)
Lemma sortBy_already_sorted l :
  StronglySorted (notAfter compare) l → sortBy compare l = l.
Proof using Type.
  induction 1 as [|x l Hsorted IH Hall]; simpl; [done|].
  fold (sortBy compare l). rewrite IH.
  destruct Hall as [|y l Hxy _]; simpl; [done|].
  destruct (Z.ltb_spec 0 (compare x y)); [unfold notAfter in Hxy; lia | done].
Qed.

End Sorting.

Section HighScores.

Lemma compareScores_order a b : compareScores a b ≤ 0 ↔ leaderboardOrder a b.
Proof.
  unfold compareScores, leaderboardOrder.
  destruct (Z.eqb_spec (hs_score b) (hs_score a)); simpl; lia.
Qed.

Lemma compareScores_total a b : 0 < compareScores a b → compareScores b a ≤ 0.
Proof.
  unfold compareScores.
  destruct (Z.eqb_spec (hs_score b) (hs_score a)),
           (Z.eqb_spec (hs_score a) (hs_score b)); simpl; lia.
Qed.

Lemma compareScores_trans a b c :
  compareScores a b ≤ 0 → compareScores b c ≤ 0 → compareScores a c ≤ 0.
Proof. rewrite !compareScores_order. unfold leaderboardOrder. lia. Qed.

Lemma leaderboardOrder_refl a : leaderboardOrder a a.
Proof. unfold leaderboardOrder. lia. Qed.

Lemma sorted_scores_ordered l :
  StronglySorted leaderboardOrder (sortBy compareScores l).
Proof.
  pose proof (sortBy_sorted compareScores compareScores_total
                compareScores_trans l) as Hsorted.
  induction Hsorted as [|x k _ IH Hall]; constructor; [done|].
  eapply Forall_impl; [exact Hall|].
  intros y. apply compareScores_order.
Qed.

(** What a successful [saveHighScores] leaves under the key. *)
Lemma saveHighScores_stored scores st st' :
  saveHighScores scores st = (true, st') →
  loadHighScores st' = take MAX_HIGH_SCORES (sortBy compareScores scores).
Proof.
  unfold saveHighScores, saveToStorage, loadHighScores, loadFromStorage.
  destruct (setItemThrows st); intros [= <-]. done.
Qed.

(** A refused write changes nothing. *)
Lemma saveHighScores_refused scores st st' :
  saveHighScores scores st = (false, st') → st' = st.
Proof.
  unfold saveHighScores, saveToStorage.
  destruct (setItemThrows st); by intros [= <-].
Qed.

Lemma StronglySorted_take {B} (R : B → B → Prop) n (l : list B) :
  StronglySorted R l → StronglySorted R (take n l).
Proof.
  intros Hs. rewrite <-(take_drop n l) in Hs.
  by apply StronglySorted_app_1_l in Hs.
Qed.

(** Eleven sorted entries are the ten kept ones followed by the dropped one. *)
Lemma full_board_split (l : list HighScore) :
  length l = S MAX_HIGH_SCORES →
  ∃ dropped, l = take MAX_HIGH_SCORES l ++ [dropped].
Proof.
  intros Hlen.
  destruct (drop MAX_HIGH_SCORES l) as [|e [|e' rest]] eqn:Hdrop.
  - apply (f_equal length) in Hdrop. rewrite length_drop, Hlen in Hdrop.
    unfold MAX_HIGH_SCORES in Hdrop. simpl in Hdrop. lia.
  - exists e. by rewrite <-Hdrop, take_drop.
  - apply (f_equal length) in Hdrop. rewrite length_drop, Hlen in Hdrop.
    unfold MAX_HIGH_SCORES in Hdrop. simpl in Hdrop. lia.
Qed.

Lemma addHighScore_stored newScore st st' :
  addHighScore newScore st = (true, st') →
  loadHighScores st' =
    take MAX_HIGH_SCORES (sortBy compareScores (loadHighScores st ++ [newScore])).
Proof. apply saveHighScores_stored. Qed.

(** The entry that falls off a full board ranks below every entry kept. *)
Lemma addHighScore_full_board newScore st st' :
  addHighScore newScore st = (true, st') →
  length (loadHighScores st) = MAX_HIGH_SCORES →
  ∃ dropped,
    loadHighScores st ++ [newScore] ≡ₚ loadHighScores st' ++ [dropped] ∧
    ∀ h, h ∈ loadHighScores st' → leaderboardOrder h dropped.
Proof.
  intros Hadd Hlen. rewrite (addHighScore_stored _ _ _ Hadd).
  set (l := sortBy compareScores (loadHighScores st ++ [newScore])).
  destruct (full_board_split l) as [dropped Hsplit].
  { unfold l. by rewrite sortBy_length, length_app, Hlen. }
  exists dropped. split.
  - rewrite <-Hsplit. unfold l. by rewrite sortBy_Permutation.
  - intros h Hh. pose proof (sorted_scores_ordered (loadHighScores st ++ [newScore])) as Hs.
    fold l in Hs. rewrite Hsplit in Hs.
    eapply StronglySorted_app_1_elem_of; [exact Hs|exact Hh|].
    apply list_elem_of_singleton. done.
Qed.

(** What an accepted add does to the leaderboard. *)
Lemma addHighScore_accepted (newScore : HighScore) (st st' : Storage) :
  addHighScore newScore st = (true, st') →
  StronglySorted leaderboardOrder (loadHighScores st') ∧
  (length (loadHighScores st') ≤ MAX_HIGH_SCORES)%nat ∧
  (length (loadHighScores st) = MAX_HIGH_SCORES →
   (∀ h, h ∈ loadHighScores st → hs_score newScore < hs_score h) →
   loadHighScores st' ≡ₚ loadHighScores st) ∧
  (length (loadHighScores st) = MAX_HIGH_SCORES →
   (∃ h, h ∈ loadHighScores st ∧ hs_score h < hs_score newScore) →
   ∃ evicted rest,
     loadHighScores st ≡ₚ evicted :: rest ∧
     loadHighScores st' ≡ₚ newScore :: rest ∧
     ∀ h, h ∈ loadHighScores st → leaderboardOrder h evicted).
Proof.
  intros Hadd. split; [|split; [|split]].
  - rewrite (addHighScore_stored _ _ _ Hadd).
    apply StronglySorted_take, sorted_scores_ordered.
  - rewrite (addHighScore_stored _ _ _ Hadd), length_take. lia.
  - intros Hlen Hlow.
    destruct (addHighScore_full_board _ _ _ Hadd Hlen) as (dropped & Hperm & Hlast).
    assert (Hin : dropped ∈ loadHighScores st ++ [newScore]).
    { rewrite Hperm. apply elem_of_app. right. by apply list_elem_of_singleton. }
    apply elem_of_app in Hin as [Hold|Hnew%list_elem_of_singleton].
    + (* an old entry cannot rank below the new one *)
      assert (Hnew : newScore ∈ loadHighScores st' ++ [dropped]).
      { rewrite <-Hperm. apply elem_of_app. right. by apply list_elem_of_singleton. }
      specialize (Hlow _ Hold).
      apply elem_of_app in Hnew as [Hnew|Hnew%list_elem_of_singleton].
      * apply Hlast in Hnew. unfold leaderboardOrder in Hnew. lia.
      * subst. lia.
    + subst dropped. by apply Permutation_app_inv_r in Hperm.
  - intros Hlen (m & Hm & Hhigher).
    destruct (addHighScore_full_board _ _ _ Hadd Hlen) as (dropped & Hperm & Hlast).
    assert (Hbelow : ∀ h, h ∈ loadHighScores st → leaderboardOrder h dropped).
    { intros h Hh.
      assert (Hin : h ∈ loadHighScores st' ++ [dropped]).
      { rewrite <-Hperm. apply elem_of_app. by left. }
      apply elem_of_app in Hin as [Hin|Hin%list_elem_of_singleton].
      - by apply Hlast.
      - subst. apply leaderboardOrder_refl. }
    assert (Hold : dropped ∈ loadHighScores st).
    { assert (Hin : dropped ∈ loadHighScores st ++ [newScore]).
      { rewrite Hperm. apply elem_of_app. right. by apply list_elem_of_singleton. }
      apply elem_of_app in Hin as [Hin|Hin%list_elem_of_singleton]; [done|].
      subst dropped. specialize (Hbelow _ Hm).
      unfold leaderboardOrder in Hbelow. lia. }
    apply elem_of_Permutation in Hold as [rest Hrest].
    exists dropped, rest. split; [done|]. split; [|done].
    rewrite Hrest in Hperm.
    apply (Permutation_app_inv_r [dropped]).
    rewrite <-Hperm. simpl.
    rewrite (Permutation_app_comm (loadHighScores st') [dropped]) in Hperm.
    change ((newScore :: rest) ++ [dropped]) with (newScore :: (rest ++ [dropped])).
    rewrite <-(Permutation_cons_append rest dropped).
    by rewrite <-(Permutation_cons_append (dropped :: rest) newScore).
Qed.

Lemma addHighScore_writes newScore st :
  setItemThrows st = false →
  addHighScore newScore st = (true, (addHighScore newScore st).2).
Proof.
  intros Hok. unfold addHighScore, saveHighScores, saveToStorage.
  by rewrite Hok.
Qed.

(** C4. On a store that takes the write, [addHighScore] succeeds and
    leaves the leaderboard in order (score descending, time ascending among
    equal scores) with at most 10 entries.  On a full board of 10, a new
    score below every stored one leaves the stored entries as they were, and
    a new score above the lowest stored one enters while an entry that ranks
    below all the others leaves. *)
Theorem addHighScore_admission (newScore : HighScore) (st : Storage) :
  setItemThrows st = false →
  let st' := (addHighScore newScore st).2 in
  (addHighScore newScore st).1 = true ∧
  StronglySorted leaderboardOrder (loadHighScores st') ∧
  (length (loadHighScores st') ≤ MAX_HIGH_SCORES)%nat ∧
  (length (loadHighScores st) = MAX_HIGH_SCORES →
   (∀ h, h ∈ loadHighScores st → hs_score newScore < hs_score h) →
   loadHighScores st' ≡ₚ loadHighScores st) ∧
  (length (loadHighScores st) = MAX_HIGH_SCORES →
   (∃ h, h ∈ loadHighScores st ∧ hs_score h < hs_score newScore) →
   ∃ evicted rest,
     loadHighScores st ≡ₚ evicted :: rest ∧
     loadHighScores st' ≡ₚ newScore :: rest ∧
     ∀ h, h ∈ loadHighScores st → leaderboardOrder h evicted).
Proof.
  intros Hok st'. pose proof (addHighScore_writes newScore st Hok) as Hadd.
  split; [by rewrite Hadd|]. by apply addHighScore_accepted.
Qed.

(** C9. [isHighScore] accepts exactly when the board has fewer than 10
    entries or the score is strictly above that of the last stored entry. *)
Theorem isHighScore_iff (candidate : Z) (st : Storage) :
  (isHighScore candidate st = true ↔
     (length (loadHighScores st) < MAX_HIGH_SCORES)%nat ∨
     ∃ lowest, last (loadHighScores st) = Some lowest ∧ hs_score lowest < candidate) ∧
  ((length (loadHighScores st) < MAX_HIGH_SCORES)%nat → isHighScore candidate st = true) ∧
  (length (loadHighScores st) = MAX_HIGH_SCORES →
   (∃ h, h ∈ loadHighScores st ∧ hs_score h = candidate) →
   (∀ h, h ∈ loadHighScores st → candidate ≤ hs_score h) →
   isHighScore candidate st = false).
Proof.
  unfold isHighScore. rewrite Nat.sub_1_r, <-last_lookup.
  split; [|split].
  - destruct (Nat.ltb_spec (length (loadHighScores st)) MAX_HIGH_SCORES) as [Hlt|Hge].
    + split; [by left | done].
    + destruct (last (loadHighScores st)) as [lowest|] eqn:Hlast.
      * rewrite Z.ltb_lt. split.
        -- intros Hlow. right. by exists lowest.
        -- intros [Hlt|(l' & [= <-] & Hlow)]; [lia | done].
      * split; [done|]. intros [Hlt|(l' & [=] & _)]. lia.
  - intros Hlt. by apply Nat.ltb_lt in Hlt as ->.
  - intros Hlen _ Hmin.
    destruct (Nat.ltb_spec (length (loadHighScores st)) MAX_HIGH_SCORES) as [Hlt|_];
      [lia|].
    destruct (last (loadHighScores st)) as [lowest|] eqn:Hlast; [|done].
    apply Z.ltb_ge, Hmin.
    apply last_Some in Hlast as [l' ->].
    apply elem_of_app. right. by apply list_elem_of_singleton.
Qed.

Lemma addHighScore_admission_witness :
  (addHighScore lowEntry fullBoard).1 = true ∧
  loadHighScores (addHighScore lowEntry fullBoard).2 ≡ₚ loadHighScores fullBoard ∧
  StronglySorted leaderboardOrder (loadHighScores (addHighScore highEntry fullBoard).2) ∧
  ∃ evicted rest,
    loadHighScores fullBoard ≡ₚ evicted :: rest ∧
    loadHighScores (addHighScore highEntry fullBoard).2 ≡ₚ highEntry :: rest.
Proof.
  destruct (addHighScore_admission lowEntry fullBoard eq_refl)
    as (Hok & _ & _ & Hlow & _).
  destruct (addHighScore_admission highEntry fullBoard eq_refl)
    as (_ & Hsorted & _ & _ & Hhigh).
  split; [exact Hok|]. split; [|split; [exact Hsorted|]].
  - apply Hlow; [reflexivity|].
    intros h Hh. vm_compute in Hh.
    repeat (apply elem_of_cons in Hh as [->|Hh]; [vm_compute; reflexivity|]).
    by apply elem_of_nil in Hh.
  - destruct Hhigh as (evicted & rest & H1 & H2 & _).
    + reflexivity.
    + exists (boardEntry 1). split; [|vm_compute; reflexivity].
      cbn. rewrite !elem_of_cons. tauto.
    + by exists evicted, rest.
Defined.

Lemma isHighScore_iff_witness :
  isHighScore 0 emptyStorage = true ∧ isHighScore 100 fullBoard = false.
Proof.
  split.
  - apply (proj1 (proj2 (isHighScore_iff 0 emptyStorage))). vm_compute. lia.
  - apply (proj2 (proj2 (isHighScore_iff 100 fullBoard))).
    + vm_compute. reflexivity.
    + exists (boardEntry 1). split; [|vm_compute; reflexivity].
      cbn. rewrite !elem_of_cons. tauto.
    + intros h Hh. vm_compute in Hh.
      repeat (apply elem_of_cons in Hh as [->|Hh]; [vm_compute; discriminate|]).
      by apply elem_of_nil in Hh.
Defined.

End HighScores.

(* ===================================================================== *)
(** ** Game engine: clicks *)
(* ===================================================================== *)

Section Clicks.

Lemma canFlipCard_not_started s card :
  isGameStarted s = false → canFlipCard s card = false.
Proof. intros H. unfold canFlipCard. by rewrite H. Qed.

Lemma canFlipCard_complete s card :
  isGameComplete s = true → canFlipCard s card = false.
Proof. intros H. unfold canFlipCard. rewrite H. by destruct (isGameStarted s). Qed.

Lemma canFlipCard_face_up s card :
  isMatched card = true ∨ isFlipped card = true → canFlipCard s card = false.
Proof.
  intros H. unfold canFlipCard.
  destruct (negb _ || _ || _ || _); [done|].
  by destruct H as [-> | ->]; [|destruct (isMatched card)].
Qed.

Lemma handleCardClick_rejected cardId w :
  (∀ card, clickedCard cardId w = Some card →
           canFlipCard (session w) card = false) →
  handleCardClick cardId w = w.
Proof.
  intros Hreject. unfold handleCardClick. fold (clickedCard cardId w).
  destruct (clickedCard cardId w) as [card|]; [|done].
  by rewrite (Hreject card eq_refl).
Qed.

(** Before the game is started no click gets past [canFlipCard], so the
    branch of [handleCardClick] that starts the game is never taken. *)
Lemma handleCardClick_not_started cardId w :
  isGameStarted (session w) = false → handleCardClick cardId w = w.
Proof.
  intros H. apply handleCardClick_rejected. intros card _.
  by apply canFlipCard_not_started.
Qed.

Lemma handleCardClick_complete cardId w :
  isGameComplete (session w) = true → handleCardClick cardId w = w.
Proof.
  intros H. apply handleCardClick_rejected. intros card _.
  by apply canFlipCard_complete.
Qed.

Lemma runEffects_not_started w :
  isGameStarted (session w) = false → runEffects w = w.
Proof.
  intros H. unfold runEffects, completionEffect, autoFlipEffect.
  rewrite H. simpl. by rewrite H.
Qed.

Lemma runEffects_complete w :
  isGameComplete (session w) = true → runEffects w = w.
Proof.
  intros H. unfold runEffects, completionEffect, autoFlipEffect.
  rewrite H, !andb_false_r. simpl. by rewrite H, !andb_false_r.
Qed.

(** With ids that are all different, a click on the id of a card of the
    deck is about that card. *)
Lemma clickedCard_unique w card :
  NoDup (map id (cards (session w))) →
  card ∈ cards (session w) →
  clickedCard (id card) w = Some card.
Proof.
  unfold clickedCard. induction (cards (session w)) as [|c l IH]; simpl.
  - by intros _ ?%elem_of_nil.
  - intros [Hnotin Hnodup]%NoDup_cons [->|Hin]%elem_of_cons.
    + by rewrite String.eqb_refl.
    + destruct (String.eqb_spec (id c) (id card)) as [Heq|_]; [|by apply IH].
      destruct Hnotin. rewrite Heq. apply list_elem_of_fmap. by exists card.
Qed.

(** C1, on the code.  In a fresh EASY game that has not been started, a
    click on any card of the deck changes nothing: the game stays not
    started and the card stays face down. *)
Theorem first_click_is_ignored :
  isGameStarted (session freshGame) = false ∧
  DeckIntegrity EASY (cards (session freshGame)) ∧
  ∀ card, card ∈ cards (session freshGame) →
    let w := step freshGame (CardClick (id card)) in
    w = freshGame ∧
    isGameStarted (session w) = false ∧
    flippedCards (session w) = [] ∧
    (∀ c, c ∈ cards (session w) → isFlipped c = false).
Proof.
  assert (Hstart : isGameStarted (session freshGame) = false)
    by (vm_compute; reflexivity).
  assert (Hflipped : flippedCards (session freshGame) = [])
    by (vm_compute; reflexivity).
  assert (Hcards : cards (session freshGame)
                   = (generateCards EASY None demoHost).1)
    by (vm_compute; reflexivity).
  assert (Hdeck : DeckIntegrity EASY (cards (session freshGame))).
  { rewrite Hcards. split; [apply generateCards_shape_and_ids|].
    rewrite (proj2 (generateCards_shape_and_ids EASY None demoHost)).
    apply (bool_decide_unpack (NoDup (idsDrawn EASY None demoHost))).
    vm_compute. reflexivity. }
  split; [exact Hstart|]. split; [exact Hdeck|]. intros card Hin w.
  assert (Hw : w = freshGame).
  { unfold w, step, handleEvent.
    rewrite handleCardClick_not_started by exact Hstart.
    apply runEffects_not_started. exact Hstart. }
  rewrite Hw. split; [reflexivity|]. split; [exact Hstart|].
  split; [exact Hflipped|].
  intros c Hc. by apply Hdeck.
Qed.

(** C7. A click that is about a card already matched or already face up
    leaves the hook and everything around it as it was: no flip, no move,
    no change of [flippedCards], no timeout, no callback.  This holds in
    every state, in particular while the game is in progress. *)
Theorem click_on_face_up_card_is_rejected (w : World) (cardId : string) (card : Card) :
  clickedCard cardId w = Some card →
  isMatched card = true ∨ isFlipped card = true →
  handleCardClick cardId w = w.
Proof.
  intros Hclicked Hup. apply handleCardClick_rejected.
  intros card' Hcard'. rewrite Hclicked in Hcard'. injection Hcard' as <-.
  by apply canFlipCard_face_up.
Qed.

Lemma click_on_face_up_card_is_rejected_witness :
  handleCardClick firstCardId afterFirstClick = afterFirstClick.
Proof.
  apply (click_on_face_up_card_is_rejected afterFirstClick firstCardId firstCardUp).
  - vm_compute. reflexivity.
  - right. reflexivity.
Defined.

End Clicks.

(* ===================================================================== *)
(** ** Game engine: completion *)
(* ===================================================================== *)

Section Completion.

Lemma Stutter_refl w : Stutter w w.
Proof. by unfold Stutter. Qed.

Lemma Stutter_trans w1 w2 w3 : Stutter w1 w2 → Stutter w2 w3 → Stutter w1 w3.
Proof. unfold Stutter. intros (?&?&?&?) (?&?&?&?). repeat split; congruence. Qed.

Lemma Stutter_Completes w1 w2 w3 : Stutter w1 w2 → Completes w2 w3 → Completes w1 w3.
Proof.
  unfold Stutter, Completes. intros (Ho&?&?&?) (?&?&?&?&?).
  rewrite <-Ho. repeat split; congruence.
Qed.

Lemma Completes_Stutter w1 w2 w3 : Completes w1 w2 → Stutter w2 w3 → Completes w1 w3.
Proof.
  unfold Stutter, Completes. intros (?&?&?&?&?) (?&?&?&?).
  repeat split; congruence.
Qed.

Lemma popEarliest_None ts : popEarliest ts = None → ts = [].
Proof.
  destruct ts as [|t ts]; [done|]. simpl.
  destruct (popEarliest ts) as [[t' rest']|]; [|done].
  by destruct (due t' <? due t).
Qed.

Lemma popEarliest_count (p : Timeout → bool) ts t rest :
  popEarliest ts = Some (t, rest) →
  length (List.filter p ts) =
    ((if p t then 1 else 0) + length (List.filter p rest))%nat.
Proof.
  revert t rest. induction ts as [|t0 ts IH]; intros t rest; simpl; [done|].
  destruct (popEarliest ts) as [[t' rest']|] eqn:Hpop.
  - specialize (IH t' rest' eq_refl).
    destruct (due t' <? due t0); intros [= <- <-]; simpl;
      destruct (p t0), (p t'); simpl in *; lia.
  - intros [= <- <-]. rewrite (popEarliest_None ts) by done.
    simpl. destruct (p t0); simpl; lia.
Qed.

Ltac crush_stutter :=
  unfold Stutter, completionsFired, completionsDelivered, completionsPending;
  cbn -[Z.add Z.max Z.min calculateScore];
  rewrite ?List.filter_app, ?length_app;
  cbn -[Z.add Z.max Z.min calculateScore];
  repeat split; try done; try lia.

Lemma handleCardClick_Stutter cardId w : Stutter w (handleCardClick cardId w).
Proof.
  unfold handleCardClick.
  destruct (List.find _ _) as [card|]; [|apply Stutter_refl].
  destruct (canFlipCard _ _); [|apply Stutter_refl]. simpl.
  unfold notify.
  destruct (isGameStarted (session w)), (onFlip (options w)),
    (flippedCards (session w) ++ [card]) as [|a [|b [|c l]]];
    crush_stutter.
Qed.

Lemma startGame_Stutter w : Stutter w (startGame w).
Proof. unfold startGame. crush_stutter. Qed.

Lemma pauseGame_Stutter w : Stutter w (pauseGame w).
Proof.
  unfold pauseGame. destruct (negb _ || _); [apply Stutter_refl|].
  destruct (saveGameState _ _ _) as [[ok st] h]. crush_stutter.
Qed.

Lemma resumeGame_Stutter w : Stutter w (resumeGame w).
Proof. unfold resumeGame. destruct (negb _); crush_stutter. Qed.

Lemma autoSave_Stutter w : Stutter w (autoSave w).
Proof.
  unfold autoSave, saveSnapshot. destruct (negb _ || _ || _); [apply Stutter_refl|].
  destruct (saveGameState _ _ _) as [[ok st] h]. crush_stutter.
Qed.

Lemma wait_Stutter ms w : Stutter w (wait ms w).
Proof. unfold wait. crush_stutter. Qed.

Lemma fireTimeout_Stutter w : Stutter w (fireTimeout w).
Proof.
  unfold fireTimeout.
  destruct (popEarliest (pending w)) as [[t rest]|] eqn:Hpop; [|apply Stutter_refl].
  pose proof (popEarliest_count schedulesCompletion _ _ _ Hpop) as Hcount.
  unfold schedulesCompletion at 2 in Hcount.
  destruct (callback t) as [c1 c2 mp mv tm|c1 c2|stats|cardId|c1 c2]; simpl.
  - destruct (checkCardsMatch c1 c2).
    + unfold handleMatch, notify. destruct (onMatch _); crush_stutter.
    + unfold handleNoMatch. crush_stutter.
  - unfold notify. simpl. destruct (onNoMatch _); crush_stutter.
  - crush_stutter.
  - unfold notify. destruct (onFlip _); crush_stutter.
  - destruct (checkCardsMatch c1 c2); [|crush_stutter].
    unfold notify. simpl. destruct (onMatch _); crush_stutter.
Qed.

Lemma autoFlipEffect_Stutter w : Stutter w (autoFlipEffect w).
Proof.
  unfold autoFlipEffect.
  destruct (_ && _); [|apply Stutter_refl].
  destruct (List.filter _ _) as [|a [|b [|c l]]]; crush_stutter.
Qed.

Lemma handleGameCompletion_Completes w :
  gameCompleteTriggeredRef (session w) = false →
  Completes w (handleGameCompletion w).
Proof.
  intros Href. unfold handleGameCompletion. rewrite Href.
  cbn -[calculateScore isHighScore updatePlayerStats getCongratulationsMessage generateId].
  set (finalScore := calculateScore _ _ _ _).
  destruct (isHighScore finalScore (storage w));
    cbn -[calculateScore isHighScore updatePlayerStats getCongratulationsMessage generateId].
  - destruct (generateId (host w)) as [newId h1].
    destruct (updatePlayerStats _ _ _ _ _) as [[stats st] h2].
    destruct (onGameComplete (options w)) eqn:Hsupplied;
      unfold Completes, completionsFired, completionsDelivered, completionsPending;
      cbn -[calculateScore getCongratulationsMessage];
      rewrite ?Hsupplied, ?List.filter_app, ?length_app; simpl;
      repeat split; try done; lia.
  - destruct (updatePlayerStats _ _ _ _ _) as [[stats st] h2].
    destruct (onGameComplete (options w)) eqn:Hsupplied;
      unfold Completes, completionsFired, completionsDelivered, completionsPending;
      cbn -[calculateScore getCongratulationsMessage];
      rewrite ?Hsupplied, ?List.filter_app, ?length_app; simpl;
      repeat split; try done; lia.
Qed.

Lemma completionEffect_progress w :
  Stutter w (completionEffect w) ∨ Completes w (completionEffect w).
Proof.
  unfold completionEffect.
  destruct (gameCompleteTriggeredRef (session w)) eqn:Href.
  - left. rewrite !andb_false_r. simpl. apply Stutter_refl.
  - destruct (_ && _); [right|left; apply Stutter_refl].
    by apply handleGameCompletion_Completes.
Qed.

Lemma runEffects_progress w :
  Stutter w (runEffects w) ∨ Completes w (runEffects w).
Proof.
  unfold runEffects.
  destruct (completionEffect_progress w) as [H|H]; [left|right].
  - eapply Stutter_trans; [exact H|apply autoFlipEffect_Stutter].
  - eapply Completes_Stutter; [exact H|apply autoFlipEffect_Stutter].
Qed.

Lemma handleEvent_Stutter e w : e ≠ ResetGame → Stutter w (handleEvent e w).
Proof.
  intros Hne. destruct e as [cardId| | | | | |ms| |]; cbn [handleEvent].
  - apply handleCardClick_Stutter.
  - apply startGame_Stutter.
  - by destruct Hne.
  - apply pauseGame_Stutter.
  - apply resumeGame_Stutter.
  - apply fireTimeout_Stutter.
  - apply wait_Stutter.
  - unfold withTimer. crush_stutter.
  - apply autoSave_Stutter.
Qed.

Lemma step_progress w e :
  e ≠ ResetGame → Stutter w (step w e) ∨ Completes w (step w e).
Proof.
  intros Hne. unfold step.
  pose proof (handleEvent_Stutter e w Hne) as Hh.
  destruct (runEffects_progress (handleEvent e w)) as [H|H]; [left|right].
  - by eapply Stutter_trans.
  - by eapply Stutter_Completes.
Qed.

Lemma run_progress events w :
  ResetGame ∉ events → Stutter w (run events w) ∨ Completes w (run events w).
Proof.
  revert w. induction events as [|e events IH]; intros w Hno.
  - left. apply Stutter_refl.
  - apply not_elem_of_cons in Hno as [Hne Hno]. simpl.
    destruct (step_progress w e) as [H|H]; [done| |];
      destruct (IH (step w e) Hno) as [H'|H'].
    + left. by eapply Stutter_trans.
    + right. by eapply Stutter_Completes.
    + right. by eapply Completes_Stutter.
    + destruct H as (_&_&Hset&_), H' as (_&Hunset&_). congruence.
Qed.

(** Once the flag is set, nothing short of a reset changes the count. *)
Lemma run_after_completion events w :
  gameCompleteTriggeredRef (session w) = true →
  ResetGame ∉ events → Stutter w (run events w).
Proof.
  intros Hset Hno. destruct (run_progress events w Hno) as [H|H]; [done|].
  destruct H as (_&Hunset&_). congruence.
Qed.

Lemma popEarliest_weight ts t rest :
  popEarliest ts = Some (t, rest) →
  pendingWork ts = (timeoutWork t + pendingWork rest)%nat.
Proof.
  unfold pendingWork.
  revert t rest. induction ts as [|t0 ts IH]; intros t rest; simpl; [done|].
  destruct (popEarliest ts) as [[t' rest']|] eqn:Hpop.
  - specialize (IH t' rest' eq_refl).
    destruct (due t' <? due t0); intros [= <- <-]; simpl in *; lia.
  - intros [= <- <-]. rewrite (popEarliest_None ts) by done.
    simpl. lia.
Qed.

Lemma fireTimeout_work w :
  pending w ≠ [] →
  (pendingWork (pending (fireTimeout w)) < pendingWork (pending w))%nat.
Proof.
  intros Hne. unfold fireTimeout.
  destruct (popEarliest (pending w)) as [[t rest]|] eqn:Hpop.
  - rewrite (popEarliest_weight _ _ _ Hpop). unfold timeoutWork.
    destruct (callback t) as [c1 c2 mp mv tm|c1 c2|stats|cardId|c1 c2]; simpl.
    + destruct (checkCardsMatch c1 c2).
      * unfold handleMatch, notify. destruct (onMatch _); simpl; lia.
      * unfold handleNoMatch, pendingWork. simpl.
        rewrite sum_list_with_app. simpl. lia.
    + unfold notify. simpl. destruct (onNoMatch _); simpl; lia.
    + simpl. lia.
    + unfold notify. destruct (onFlip _); simpl; lia.
    + destruct (checkCardsMatch c1 c2); [|simpl; lia].
      unfold notify. simpl. destruct (onMatch _); simpl; lia.
  - by apply popEarliest_None in Hpop.
Qed.

Lemma fireTimeout_idle w : pending w = [] → fireTimeout w = w.
Proof. intros H. unfold fireTimeout. by rewrite H. Qed.

(** After completion the pending timeouts run out: each firing takes one
    away, and only a failed comparison leaves one more behind. *)
Lemma timeouts_drain n w :
  isGameComplete (session w) = true →
  (pendingWork (pending w) ≤ n)%nat →
  pending (run (replicate n TimeoutFires) w) = [].
Proof.
  revert w. induction n as [|n IH]; intros w Hcomplete Hwork.
  - simpl. destruct (pending w) as [|t ts]; [done|].
    unfold pendingWork, timeoutWork in Hwork. simpl in Hwork.
    repeat case_match; lia.
  - change (run (replicate (S n) TimeoutFires) w)
      with (run (replicate n TimeoutFires) (step w TimeoutFires)).
    assert (Hfired : isGameComplete (session (fireTimeout w)) = true).
    { destruct (fireTimeout_Stutter w) as (_&_&->&_). done. }
    unfold step, handleEvent. rewrite runEffects_complete by done.
    apply IH; [done|].
    destruct (decide (pending w = [])) as [Hnil|Hne].
    + rewrite fireTimeout_idle by done. rewrite Hnil. cbn. lia.
    + pose proof (fireTimeout_work w Hne). lia.
Qed.

Lemma pendingWork_bound ts : (pendingWork ts ≤ 2 * length ts)%nat.
Proof.
  unfold pendingWork. induction ts as [|t ts IH]; simpl; [lia|].
  unfold timeoutWork at 1. repeat case_match; lia.
Qed.

(** C3. In a session that has not completed, whatever happens short of a
    reset schedules the completion callback at most once.  Once the session
    is complete the one-shot flag is set and the callback, when supplied,
    has been scheduled exactly once; clicks change nothing; no later event
    schedules it again; and when the pending timeouts have run it has been
    called exactly that once. *)
Theorem completion_fires_once (w : World) (events : list Event) :
  isGameComplete (session w) = false →
  gameCompleteTriggeredRef (session w) = false →
  ResetGame ∉ events →
  let w' := run events w in
  (completionsFired w' ≤ completionsFired w + 1)%nat ∧
  (isGameComplete (session w') = true →
   gameCompleteTriggeredRef (session w') = true ∧
   completionsFired w' =
     (completionsFired w + if onGameComplete (options w) then 1 else 0)%nat ∧
   (∀ cardId, handleCardClick cardId w' = w' ∧ step w' (CardClick cardId) = w') ∧
   (∀ more, ResetGame ∉ more →
      isGameComplete (session (run more w')) = true ∧
      completionsFired (run more w') = completionsFired w') ∧
   (let settled := run (replicate (2 * length (pending w')) TimeoutFires) w' in
    pending settled = [] ∧
    completionsDelivered settled = completionsFired w')).
Proof.
  intros Hincomplete Hunset Hno w'.
  destruct (run_progress events w Hno) as [H|H]; fold w' in H.
  - destruct H as (_&Href&Hcomplete&Hfired). split; [lia|].
    intros Hdone. congruence.
  - destruct H as (_&_&Hset&Hcomplete&Hfired). split.
    { rewrite Hfired. destruct (onGameComplete _); lia. }
    intros _. split; [done|]. split; [done|]. split; [|split].
    + intros cardId.
      assert (Hclick : handleCardClick cardId w' = w')
        by by apply handleCardClick_complete.
      split; [done|]. unfold step. simpl. rewrite Hclick.
      by apply runEffects_complete.
    + intros more Hmore.
      destruct (run_after_completion more w' Hset Hmore) as (_&_&->&->). done.
    + intros settled.
      assert (Hnone : ResetGame ∉ replicate (2 * length (pending w')) TimeoutFires).
      { intros [Heq _]%elem_of_replicate. discriminate. }
      assert (Hdrained : pending settled = []).
      { apply timeouts_drain; [done|apply pendingWork_bound]. }
      split; [done|].
      destruct (run_after_completion _ w' Hset Hnone) as (_&_&_&Hsame).
      fold settled in Hsame. unfold completionsFired in Hsame at 1.
      unfold completionsPending in Hsame. rewrite Hdrained in Hsame.
      simpl in Hsame. lia.
Qed.

(** A game starts with nothing fired: at mount the flag is unset and no
    completion callback is pending or has been called. *)
Lemma mount_fresh o st h :
  isGameComplete (session (mount o st h)) = false ∧
  gameCompleteTriggeredRef (session (mount o st h)) = false ∧
  completionsFired (mount o st h) = 0%nat.
Proof.
  unfold mount. rewrite runEffects_not_started.
  - unfold initializeGame. cbn [options host].
    destruct (generateCards _ _ h) as [newCards h'].
    cbn. repeat split; reflexivity.
  - unfold initializeGame. cbn [options host].
    destruct (generateCards _ _ h) as [newCards h'].
    cbn. reflexivity.
Qed.

(** So from mount to the next reset the callback is scheduled at most once,
    and in a completed game it is called exactly once when supplied. *)
Lemma mounted_game_notifies_once o st h events :
  ResetGame ∉ events →
  let w := run events (mount o st h) in
  (completionsFired w ≤ 1)%nat ∧
  (isGameComplete (session w) = true → onGameComplete o = true →
   completionsDelivered
     (run (replicate (2 * length (pending w)) TimeoutFires) w) = 1%nat).
Proof.
  intros Hno w.
  destruct (mount_fresh o st h) as (Hincomplete & Hunset & Hzero).
  destruct (run_progress events (mount o st h) Hno) as [H|H]; fold w in H.
  - destruct H as (_&_&Hsame&Hfired). split; [lia|]. congruence.
  - destruct H as (Hopts&_&Hset&Hcomplete&Hfired).
    assert (Ho : options (mount o st h) = o).
    { unfold mount. destruct (runEffects_progress (initializeGame
        (mkWorld o (mkSession [] [] 0 0 0 false false false false None false)
           (mkTimer IDLE 0) st h 0 [] 1 []))) as [(->&_)|(->&_)];
        unfold initializeGame; cbn [options host];
        destruct (generateCards _ _ h) as [newCards h']; reflexivity. }
    rewrite Ho, Hzero in Hfired. split.
    { rewrite Hfired. destruct (onGameComplete o); lia. }
    intros _ Hsupplied. rewrite Hsupplied in Hfired.
    assert (Hnone : ResetGame ∉ replicate (2 * length (pending w)) TimeoutFires).
    { intros [Heq _]%elem_of_replicate. discriminate. }
    destruct (run_after_completion _ w Hset Hnone) as (_&_&_&Hkept).
    unfold completionsFired at 1 in Hkept. unfold completionsPending in Hkept.
    rewrite (timeouts_drain _ w Hcomplete (pendingWork_bound _)) in Hkept.
    cbn [List.filter length] in Hkept. unfold w in *. lia.
Qed.

Lemma completion_fires_once_witness :
  let w' := run fullGame freshGame in
  isGameComplete (session w') = true ∧
  (completionsFired w' ≤ completionsFired freshGame + 1)%nat ∧
  completionsDelivered
    (run (replicate (2 * length (pending w')) TimeoutFires) w')
  = completionsFired w'.
Proof.
  intros w'.
  destruct (completion_fires_once freshGame fullGame) as [Hmost Honce].
  - vm_compute. reflexivity.
  - vm_compute. reflexivity.
  - apply (bool_decide_unpack (ResetGame ∉ fullGame)). vm_compute. reflexivity.
  - assert (Hdone : isGameComplete (session w') = true)
      by (vm_compute; reflexivity).
    split; [exact Hdone|]. split; [exact Hmost|].
    apply (Honce Hdone).
Defined.

End Completion.

(* ===================================================================== *)
(** ** Game engine: the last pair *)
(* ===================================================================== *)

Section AutoResolve.

Lemma popEarliest_elem ts t rest : popEarliest ts = Some (t, rest) → t ∈ ts.
Proof.
  revert t rest. induction ts as [|t0 ts IH]; intros t rest; simpl; [done|].
  destruct (popEarliest ts) as [[t' rest']|] eqn:Hpop.
  - destruct (due t' <? due t0); intros [= <- <-].
    + right. by eapply IH.
    + left.
  - intros [= <- <-]. left.
Qed.

(** A timeout that is due no later than the ones scheduled after it runs
    first. *)
Lemma popEarliest_head t rest :
  Forall (λ t', due t ≤ due t') rest → popEarliest (t :: rest) = Some (t, rest).
Proof.
  intros Hall. simpl.
  destruct (popEarliest rest) as [[t' rest']|] eqn:Hpop.
  - apply popEarliest_elem in Hpop.
    rewrite Forall_forall in Hall. specialize (Hall _ Hpop).
    by destruct (Z.ltb_spec (due t') (due t)); [lia|].
  - by rewrite (popEarliest_None rest).
Qed.

Lemma unmatched_not_won l c rest :
  List.filter (λ card, negb (isMatched card)) l = c :: rest → isGameWon l = false.
Proof.
  intros Hf. unfold isGameWon. apply andb_false_iff. right.
  apply not_true_iff_false. intros Hall.
  assert (Hin : In c (List.filter (λ card, negb (isMatched card)) l))
    by (rewrite Hf; by left).
  apply filter_In in Hin as [Hin Hun].
  rewrite forallb_forall in Hall. rewrite (Hall _ Hin) in Hun. done.
Qed.

Lemma flipCard_unmatched cardId l :
  List.filter (λ card, negb (isMatched card)) (flipCard cardId l)
  = flipCard cardId (List.filter (λ card, negb (isMatched card)) l).
Proof.
  unfold flipCard. induction l as [|c l IH]; [done|].
  cbn [map List.filter].
  destruct (String.eqb (id c) cardId) eqn:Heq, (isMatched c) eqn:Hm;
    cbn [isMatched negb map]; rewrite ?Hm; cbn [negb map]; rewrite ?Heq, IH; done.
Qed.

Lemma flipCard_not_won cardId l c rest :
  List.filter (λ card, negb (isMatched card)) l = c :: rest →
  isGameWon (flipCard cardId l) = false.
Proof.
  intros Hf. pose proof (flipCard_unmatched cardId l) as Hflip.
  rewrite Hf in Hflip. simpl in Hflip. by eapply unmatched_not_won.
Qed.

(** While a comparison is pending and cards are still unmatched, no effect
    does anything. *)
Lemma runEffects_busy w :
  isProcessing (session w) = true →
  isGameWon (cards (session w)) = false →
  runEffects w = w.
Proof.
  intros Hbusy Hwon. unfold runEffects, completionEffect.
  rewrite Hwon, !andb_false_r. unfold autoFlipEffect.
  by rewrite Hbusy, !andb_false_r.
Qed.

(** While the game is paused and cards are still unmatched, no effect does
    anything either. *)
Lemma runEffects_paused w :
  isGamePaused (session w) = true →
  isGameWon (cards (session w)) = false →
  runEffects w = w.
Proof.
  intros Hpaused Hwon. unfold runEffects, completionEffect.
  rewrite Hwon, !andb_false_r. unfold autoFlipEffect.
  by rewrite Hpaused, !andb_false_r.
Qed.

(** One pass of the effects is enough: a second pass finds nothing to do. *)
Lemma runEffects_idempotent w : runEffects (runEffects w) = runEffects w.
Proof.
  unfold runEffects at 2 3.
  destruct (isGameComplete (session (completionEffect w))) eqn:Hdone.
  - assert (Hauto : autoFlipEffect (completionEffect w) = completionEffect w).
    { unfold autoFlipEffect. by rewrite Hdone, !andb_false_r. }
    rewrite Hauto. by apply runEffects_complete.
  - assert (Hsame : completionEffect w = w).
    { unfold completionEffect in *.
      destruct (gameCompleteTriggeredRef (session w)) eqn:Href.
      - by rewrite !andb_false_r.
      - destruct (_ && _); [|done].
        destruct (handleGameCompletion_Completes w Href) as (_&_&_&Hset&_).
        congruence. }
    rewrite Hsame.
    assert (Hauto : autoFlipEffect w = w ∨
      (isProcessing (session (autoFlipEffect w)) = true ∧
       isGameWon (cards (session (autoFlipEffect w))) = false)).
    { unfold autoFlipEffect. destruct (_ && _); [|by left].
      destruct (List.filter _ _) as [|a [|b [|c l]]] eqn:Hleft; try by left.
      right. split; [done|]. by eapply unmatched_not_won. }
    destruct Hauto as [Hid|[Hbusy Hwon]].
    + rewrite Hid. unfold runEffects. by rewrite Hsame.
    + by apply runEffects_busy.
Qed.

(** The effects touch neither the cards nor the two counters. *)
Lemma runEffects_frame w :
  cards (session (runEffects w)) = cards (session w) ∧
  matchedPairs (session (runEffects w)) = matchedPairs (session w) ∧
  moves (session (runEffects w)) = moves (session w).
Proof.
  assert (Hauto : ∀ v,
    cards (session (autoFlipEffect v)) = cards (session v) ∧
    matchedPairs (session (autoFlipEffect v)) = matchedPairs (session v) ∧
    moves (session (autoFlipEffect v)) = moves (session v)).
  { intros v. unfold autoFlipEffect. destruct (_ && _); [|done].
    by destruct (List.filter _ _) as [|a [|b [|c l]]]. }
  assert (Hdone : ∀ v,
    cards (session (completionEffect v)) = cards (session v) ∧
    matchedPairs (session (completionEffect v)) = matchedPairs (session v) ∧
    moves (session (completionEffect v)) = moves (session v)).
  { intros v. unfold completionEffect. destruct (_ && _); [|done].
    unfold handleGameCompletion.
    destruct (gameCompleteTriggeredRef (session v)); [done|].
    cbn -[calculateScore isHighScore updatePlayerStats getCongratulationsMessage generateId].
    destruct (isHighScore _ _);
      cbn -[calculateScore isHighScore updatePlayerStats getCongratulationsMessage generateId].
    - destruct (generateId (host v)) as [newId h1].
      destruct (updatePlayerStats _ _ _ _ _) as [[stats st] h2].
      by destruct (onGameComplete (options v)).
    - destruct (updatePlayerStats _ _ _ _ _) as [[stats st] h2].
      by destruct (onGameComplete (options v)). }
  unfold runEffects.
  destruct (Hauto (completionEffect w)) as (-> & -> & ->). apply Hdone.
Qed.

Lemma resolved_cards firstCard secondCard l :
  map (λ card,
         if String.eqb (id card) (id firstCard) || String.eqb (id card) (id secondCard)
         then mkCard (id card) (value card) (imageUrl card) true true (pairId card)
         else card)
    (flipCard (id secondCard) (flipCard (id firstCard) l))
  = map (λ card, if String.eqb (id card) (id firstCard)
                    || String.eqb (id card) (id secondCard)
                 then matchedCard card else card) l.
Proof.
  unfold flipCard. rewrite !map_map. apply map_ext. intros c.
  destruct (String.eqb (id c) (id firstCard)) eqn:H1; cbn [id];
    destruct (String.eqb (id c) (id secondCard)) eqn:H2; cbn [id];
    rewrite ?H1, ?H2; done.
Qed.

Lemma resolved_all_matched firstCard secondCard l card :
  List.filter (λ card, negb (isMatched card)) l = [firstCard; secondCard] →
  card ∈ map (λ card, if String.eqb (id card) (id firstCard)
                         || String.eqb (id card) (id secondCard)
                      then matchedCard card else card) l →
  isMatched card = true.
Proof.
  intros Hf [c [-> Hc]]%list_elem_of_fmap.
  destruct (isMatched c) eqn:Hm.
  - by destruct (_ || _).
  - assert (Hin : In c (List.filter (λ card, negb (isMatched card)) l)).
    { apply filter_In. split; [by apply list_elem_of_In|by rewrite Hm]. }
    rewrite Hf in Hin. destruct Hin as [<-|[<-|[]]].
    + by rewrite String.eqb_refl.
    + by rewrite String.eqb_refl, orb_true_r.
Qed.

(** The automatic resolution, step by step. *)
Lemma auto_resolution (w : World) (firstCard secondCard : Card) :
  isGameStarted (session w) = true →
  isGamePaused (session w) = false →
  isGameComplete (session w) = false →
  isProcessing (session w) = false →
  (totalPairs (session w) - inject_Z (matchedPairs (session w)) == 1)%Q →
  List.filter (λ card, negb (isMatched card)) (cards (session w))
    = [firstCard; secondCard] →
  pairId firstCard = pairId secondCard →
  id firstCard ≠ id secondCard →
  pending w = [] →
  let started := runEffects w in
  let w' := run [TimeoutFires; TimeoutFires; TimeoutFires] started in
  isProcessing (session started) = true ∧
  cards (session w') =
    map (λ card, if String.eqb (id card) (id firstCard)
                    || String.eqb (id card) (id secondCard)
                 then matchedCard card else card) (cards (session w)) ∧
  (∀ card, card ∈ cards (session w') → isMatched card = true) ∧
  matchedPairs (session w') = matchedPairs (session w) + 1 ∧
  moves (session w') = moves (session w).
Proof.
  intros Hstarted Hpaused Hcomplete Hprocessing Hone Hunmatched Hpair Hids Hpending.
  destruct w as [o s tm st h el pend nh notes].
  destruct s as [cs fl mp mv sc started complete paused processing tref cref].
  simpl in Hstarted, Hpaused, Hcomplete, Hprocessing, Hunmatched, Hpending.
  unfold totalPairs in Hone. simpl in Hone. subst.
  assert (Hwon : isGameWon cs = false) by by eapply unmatched_not_won.
  assert (Hpos : Qgt_bool (inject_Z (Z.of_nat (length cs)) / 2) 0 = true).
  { apply (totalPairs_positive (mkSession cs fl mp mv sc true false false false tref cref)).
    simpl. intros ->. done. }
  apply Qeq_bool_iff in Hone.
  intros started w'.
  assert (Hs : started =
    mkWorld o (mkSession cs fl mp mv sc true false false true tref cref) tm st h el
      [mkTimeout nh (el + 500) (AutoFlip (id firstCard));
       mkTimeout (S nh) (el + 800) (AutoFlip (id secondCard));
       mkTimeout (S (S nh)) (el + 1500) (AutoResolve firstCard secondCard)]
      (S (S (S nh))) notes).
  { unfold started, runEffects, completionEffect.
    cbn -[Qgt_bool Qeq_bool isGameWon Z.add]. rewrite Hwon, !andb_false_r.
    unfold autoFlipEffect.
    cbn -[Qgt_bool Qeq_bool isGameWon Z.add].
    unfold totalPairs. cbn -[Qgt_bool Qeq_bool isGameWon Z.add].
    rewrite Hpos, Hone, Hunmatched.
    reflexivity. }
  assert (Hflip1 : isGameWon (flipCard (id firstCard) cs) = false)
    by by eapply flipCard_not_won.
  assert (Hflip2 :
    isGameWon (flipCard (id secondCard) (flipCard (id firstCard) cs)) = false).
  { eapply flipCard_not_won. rewrite flipCard_unmatched, Hunmatched. reflexivity. }
  assert (Hmatch : checkCardsMatch firstCard secondCard = true).
  { unfold checkCardsMatch. rewrite Hpair, String.eqb_refl. simpl.
    apply negb_true_iff. by apply String.eqb_neq. }
  split; [by rewrite Hs|].
  (* the first card turns *)
  set (w1 := step started TimeoutFires).
  assert (H1 : w1 =
    mkWorld o (mkSession (flipCard (id firstCard) cs) fl mp mv sc
                 true false false true tref cref) tm st h (Z.max el (el + 500))
      [mkTimeout (S nh) (el + 800) (AutoFlip (id secondCard));
       mkTimeout (S (S nh)) (el + 1500) (AutoResolve firstCard secondCard)]
      (S (S (S nh))) (notes ++ if onFlip o then [FlipNotified] else [])).
  { unfold w1, step, handleEvent, fireTimeout. rewrite Hs. cbn [pending].
    rewrite popEarliest_head by (repeat constructor; simpl; lia).
    cbn [callback runCallback]. unfold notify. cbn [options].
    destruct (onFlip o); cbn -[Z.max Z.add flipCard];
      rewrite ?app_nil_r; by apply runEffects_busy. }
  (* the second card turns *)
  set (w2 := step w1 TimeoutFires).
  assert (H2 : ∃ notes2 el2, w2 =
    mkWorld o (mkSession (flipCard (id secondCard) (flipCard (id firstCard) cs))
                 fl mp mv sc true false false true tref cref) tm st h el2
      [mkTimeout (S (S nh)) (el + 1500) (AutoResolve firstCard secondCard)]
      (S (S (S nh))) notes2).
  { unfold w2, step, handleEvent, fireTimeout. rewrite H1. cbn [pending].
    rewrite popEarliest_head by (repeat constructor; simpl; lia).
    cbn [callback runCallback]. unfold notify. cbn [options].
    destruct (onFlip o); cbn -[Z.max Z.add flipCard];
      (rewrite runEffects_busy by done); by eexists _, _. }
  destruct H2 as (notes2 & el2 & H2).
  (* the pair is resolved *)
  assert (H3 : w' = runEffects (fireTimeout w2)).
  { unfold w', run. cbn [foldl]. fold w1. fold w2. reflexivity. }
  destruct (runEffects_frame (fireTimeout w2)) as (Hcards & Hpairs & Hmoves).
  rewrite <-H3 in Hcards, Hpairs, Hmoves.
  assert (Hfired :
    cards (session (fireTimeout w2)) =
      map (λ card, if String.eqb (id card) (id firstCard)
                      || String.eqb (id card) (id secondCard)
                   then matchedCard card else card) cs ∧
    matchedPairs (session (fireTimeout w2)) = mp + 1 ∧
    moves (session (fireTimeout w2)) = mv).
  { unfold fireTimeout. rewrite H2. cbn [pending].
    rewrite popEarliest_head by constructor.
    cbn [callback runCallback]. rewrite Hmatch. unfold notify. cbn [options].
    cbn -[Z.max Z.add flipCard].
    destruct (onMatch o); cbn -[Z.max Z.add flipCard];
      rewrite resolved_cards; (split; [reflexivity|split; reflexivity]). }
  destruct Hfired as (Hc & Hp & Hm).
  rewrite Hcards, Hpairs, Hmoves, Hc, Hp, Hm. cbn [session cards matchedPairs moves].
  split; [reflexivity|]. split; [|split; reflexivity].
  intros card Hcard. eapply resolved_all_matched; eassumption.
Qed.

(** C8, as the code has it.  In a game in progress (started, not paused,
    not complete) that is not comparing and has no timeout pending, with one
    pair left (the two unmatched cards carry the same pair id and different
    ids), the effects schedule the resolution and the three timeouts carry
    it out: both cards end up matched, [matchedPairs] grows by one and
    [moves] stays as it was. *)
Theorem last_pair_resolves_itself (w : World) (firstCard secondCard : Card) :
  isGameStarted (session w) = true →
  isGamePaused (session w) = false →
  isGameComplete (session w) = false →
  isProcessing (session w) = false →
  (totalPairs (session w) - inject_Z (matchedPairs (session w)) == 1)%Q →
  List.filter (λ card, negb (isMatched card)) (cards (session w))
    = [firstCard; secondCard] →
  pairId firstCard = pairId secondCard →
  id firstCard ≠ id secondCard →
  pending w = [] →
  let started := runEffects w in
  let w' := run [TimeoutFires; TimeoutFires; TimeoutFires] started in
  isProcessing (session started) = true ∧
  cards (session w') =
    map (λ card, if String.eqb (id card) (id firstCard)
                    || String.eqb (id card) (id secondCard)
                 then matchedCard card else card) (cards (session w)) ∧
  (∀ card, card ∈ cards (session w') → isMatched card = true) ∧
  matchedPairs (session w') = matchedPairs (session w) + 1 ∧
  moves (session w') = moves (session w).
Proof. apply auto_resolution. Qed.


Lemma last_pair_resolves_itself_witness :
  let w' := run [TimeoutFires; TimeoutFires; TimeoutFires] (runEffects onePairLeft) in
  matchedPairs (session w') = matchedPairs (session onePairLeft) + 1 ∧
  moves (session w') = moves (session onePairLeft) ∧
  ∀ card, card ∈ cards (session w') → isMatched card = true.
Proof.
  intros w'.
  destruct (last_pair_resolves_itself onePairLeft lastPairFirst lastPairSecond)
    as (_ & _ & Hall & Hpairs & Hmoves).
  - vm_compute. reflexivity.
  - vm_compute. reflexivity.
  - vm_compute. reflexivity.
  - vm_compute. reflexivity.
  - vm_compute. reflexivity.
  - vm_compute. reflexivity.
  - vm_compute. reflexivity.
  - vm_compute. discriminate.
  - vm_compute. reflexivity.
  - split; [exact Hpairs|]. split; [exact Hmoves|exact Hall].
Defined.

Lemma timeouts_idle n w :
  pending w = [] → runEffects w = w → run (replicate n TimeoutFires) w = w.
Proof.
  intros Hnone Hquiet. induction n as [|n IH]; [done|].
  change (run (replicate (S n) TimeoutFires) w)
    with (run (replicate n TimeoutFires) (step w TimeoutFires)).
  unfold step, handleEvent. rewrite fireTimeout_idle by done.
  by rewrite Hquiet.
Qed.

(** C8 as stated fails: when the comparison of the second-to-last pair
    resolves while the game is paused, one pair is left and nothing is being
    compared, and the engine schedules nothing. *)
Lemma last_pair_waits_while_paused : ¬ LastPairRule pausedOnePairLeft.
Proof.
  intros Hrule.
  assert (Hquiet : runEffects pausedOnePairLeft = pausedOnePairLeft).
  { apply runEffects_paused; vm_compute; reflexivity. }
  assert (Hnone : pending pausedOnePairLeft = []) by (vm_compute; reflexivity).
  destruct Hrule as (n & _ & Hpairs & _).
  - split; [vm_compute; reflexivity|].
    exists lastPairFirst, lastPairSecond.
    split; [vm_compute; reflexivity|].
    split; [reflexivity|]. vm_compute. discriminate.
  - vm_compute. reflexivity.
  - rewrite Hquiet, (timeouts_idle n _ Hnone Hquiet) in Hpairs. lia.
Qed.

End AutoResolve.

(* ===================================================================== *)
(** ** Game engine: what is pending *)
(* ===================================================================== *)

Section Pending.

(** [popEarliest] takes out the first of the timeouts with the least due
    time. *)
Lemma popEarliest_split ts t rest :
  popEarliest ts = Some (t, rest) →
  ∃ l1 l2, ts = l1 ++ t :: l2 ∧ rest = l1 ++ l2 ∧
           Forall (λ x, due t < due x) l1 ∧ Forall (λ x, due t ≤ due x) l2.
Proof.
  revert t rest. induction ts as [|t0 ts IH]; intros t rest; simpl; [done|].
  destruct (popEarliest ts) as [[t' rest']|] eqn:Hpop.
  - destruct (IH t' rest' eq_refl) as (l1 & l2 & -> & -> & H1 & H2).
    destruct (Z.ltb_spec (due t') (due t0)); intros [= <- <-].
    + exists (t0 :: l1), l2. repeat split; try done. by constructor.
    + exists [], (l1 ++ t' :: l2). repeat split; try done.
      apply Forall_app. split.
      * eapply Forall_impl; [exact H1|]. intros x Hx. simpl in Hx. lia.
      * constructor; [done|].
        eapply Forall_impl; [exact H2|]. intros x Hx. simpl in Hx. lia.
  - intros [= <- <-]. rewrite (popEarliest_None ts Hpop).
    by exists [], [].
Qed.

Lemma popEarliest_first l1 t l2 :
  Forall (λ x, due t < due x) l1 → Forall (λ x, due t ≤ due x) l2 →
  popEarliest (l1 ++ t :: l2) = Some (t, l1 ++ l2).
Proof.
  intros H1 H2. induction H1 as [|x l1 Hx H1 IH]; simpl.
  - by apply popEarliest_head.
  - simpl in IH. rewrite IH.
    by destruct (Z.ltb_spec (due t) (due x)); [|lia].
Qed.

(** Taking the earliest of all pending timeouts either takes a completion
    callback, or takes the earliest of the engine's own. *)
Lemma popEarliest_engine ts t rest :
  popEarliest ts = Some (t, rest) →
  if schedulesCompletion t then engineTimeouts rest = engineTimeouts ts
  else popEarliest (engineTimeouts ts) = Some (t, engineTimeouts rest).
Proof.
  intros (l1 & l2 & -> & -> & H1 & H2)%popEarliest_split.
  unfold engineTimeouts. rewrite !List.filter_app. simpl.
  destruct (schedulesCompletion t) eqn:Ht; simpl; [done|].
  apply popEarliest_first.
  - apply Forall_forall. intros x [Hx _]%list_elem_of_In%filter_In.
    rewrite Forall_forall in H1. by apply H1, list_elem_of_In.
  - apply Forall_forall. intros x [Hx _]%list_elem_of_In%filter_In.
    rewrite Forall_forall in H2. by apply H2, list_elem_of_In.
Qed.

Lemma engineTimeouts_app ts ts' :
  engineTimeouts (ts ++ ts') = engineTimeouts ts ++ engineTimeouts ts'.
Proof. apply List.filter_app. Qed.

(** A handler that leaves the timeouts and [isProcessing] alone keeps them
    in agreement. *)
Lemma Orderly_frame w w' :
  pending w' = pending w →
  isProcessing (session w') = isProcessing (session w) →
  Orderly w → Orderly w'.
Proof. unfold Orderly. by intros -> ->. Qed.

Lemma canFlipCard_idle s card : canFlipCard s card = true → isProcessing s = false.
Proof.
  unfold canFlipCard.
  destruct (isGameStarted s), (isGameComplete s), (isGamePaused s),
    (isProcessing s); simpl; congruence.
Qed.

Lemma handleCardClick_Orderly cardId w : Orderly w → Orderly (handleCardClick cardId w).
Proof.
  intros Hw. unfold handleCardClick.
  destruct (List.find _ _) as [card|]; [|done].
  destruct (canFlipCard _ _) eqn:Hflip; [|done]. simpl.
  apply canFlipCard_idle in Hflip. unfold Orderly in Hw. rewrite Hflip in Hw.
  unfold notify.
  destruct (isGameStarted (session w)), (onFlip (options w)),
    (flippedCards (session w) ++ [card]) as [|a [|b [|c l]]];
    unfold Orderly; cbn -[Z.add engineTimeouts];
    rewrite ?engineTimeouts_app, ?Hflip, ?Hw; try done;
    by eapply busy_comparing.
Qed.

Lemma fireTimeout_Orderly w : Orderly w → Orderly (fireTimeout w).
Proof.
  intros Hw. unfold fireTimeout.
  destruct (popEarliest (pending w)) as [[t rest]|] eqn:Hpop; [|done].
  apply popEarliest_engine in Hpop. unfold Orderly in Hw.
  destruct (schedulesCompletion t) eqn:Ht.
  - unfold schedulesCompletion in Ht.
    destruct (callback t); try done.
    unfold Orderly. cbn -[engineTimeouts]. by rewrite Hpop.
  - destruct (isProcessing (session w)) eqn:Hbusy; [|by rewrite Hw in Hpop].
    assert (Hcases :
      (engineTimeouts rest = [] ∧
       ((∃ c1 c2 mp mv tm, callback t = CompareFlipped c1 c2 mp mv tm) ∨
        (∃ c1 c2, callback t = FlipBack c1 c2) ∨
        (∃ c1 c2, callback t = AutoResolve c1 c2))) ∨
      (∃ a, callback t = AutoFlip a ∧ Busy (engineTimeouts rest))).
    { inversion Hw as [t0 c1 c2 mp mv tm Hcb Heq|t0 c1 c2 Hcb Heq
                      |ta tb tc a b c1 c2 Ha Hb Hc Hab Hbc Heq
                      |tb tc b c1 c2 Hb Hc Hbc Heq|tc c1 c2 Hc Heq|Heq];
        rewrite <-Heq in Hpop.
      - simpl in Hpop. injection Hpop as <- <-. left. split; [done|]. left. eauto 6.
      - simpl in Hpop. injection Hpop as <- <-. left. split; [done|]. right. left. eauto.
      - rewrite popEarliest_head in Hpop
          by (repeat constructor; simpl; lia).
        injection Hpop as <- <-. right. exists a. split; [done|].
        by eapply busy_resolving2.
      - rewrite popEarliest_head in Hpop by (repeat constructor; simpl; lia).
        injection Hpop as <- <-. right. exists b. split; [done|].
        by eapply busy_resolving1.
      - simpl in Hpop. injection Hpop as <- <-. left. split; [done|]. right. right. eauto.
      - done. }
    destruct Hcases as [[Hnil [(c1&c2&mp&mv&tm&->)|[(c1&c2&->)|(c1&c2&->)]]]
                       |(a & -> & Hrest)]; cbn [runCallback].
    + destruct (checkCardsMatch c1 c2).
      * unfold handleMatch, notify. cbn -[Z.add engineTimeouts calculateScore].
        destruct (onMatch (options w)); unfold Orderly;
          cbn -[Z.add engineTimeouts calculateScore]; done.
      * unfold handleNoMatch, Orderly. cbn -[Z.add engineTimeouts].
        rewrite Hbusy, engineTimeouts_app, Hnil. by eapply busy_flipping_back.
    + unfold notify. cbn -[Z.add engineTimeouts].
      destruct (onNoMatch (options w)); unfold Orderly;
        cbn -[Z.add engineTimeouts]; done.
    + destruct (checkCardsMatch c1 c2).
      * unfold notify. cbn -[Z.add engineTimeouts].
        destruct (onMatch (options w)); unfold Orderly;
          cbn -[Z.add engineTimeouts]; done.
      * unfold Orderly. cbn -[Z.add engineTimeouts]. rewrite Hbusy, Hnil.
        apply busy_stuck.
    + unfold notify. cbn -[Z.add engineTimeouts].
      destruct (onFlip (options w)); unfold Orderly;
        cbn -[Z.add engineTimeouts]; by rewrite Hbusy.
Qed.

Lemma handleEvent_Orderly e w :
  e ≠ ResetGame → Orderly w → Orderly (handleEvent e w).
Proof.
  intros Hne Hw. destruct e as [cardId| | | | | |ms| |]; cbn [handleEvent].
  - by apply handleCardClick_Orderly.
  - by eapply Orderly_frame.
  - by destruct Hne.
  - unfold pauseGame. destruct (negb _ || _); [done|].
    destruct (saveGameState _ _ _) as [[ok st] h]. by eapply Orderly_frame.
  - unfold resumeGame. destruct (negb _); [done|]. by eapply Orderly_frame.
  - by apply fireTimeout_Orderly.
  - by eapply Orderly_frame.
  - by eapply Orderly_frame.
  - unfold autoSave, saveSnapshot. destruct (negb _ || _ || _); [done|].
    destruct (saveGameState _ _ _) as [[ok st] h]. by eapply Orderly_frame.
Qed.

Lemma completionEffect_Orderly w : Orderly w → Orderly (completionEffect w).
Proof.
  intros Hw. unfold completionEffect. destruct (_ && _); [|done].
  unfold handleGameCompletion.
  destruct (gameCompleteTriggeredRef (session w)); [done|].
  cbn -[calculateScore isHighScore updatePlayerStats getCongratulationsMessage
        generateId engineTimeouts].
  destruct (isHighScore _ _);
    cbn -[calculateScore isHighScore updatePlayerStats getCongratulationsMessage
          generateId engineTimeouts].
  - destruct (generateId (host w)) as [newId h1].
    destruct (updatePlayerStats _ _ _ _ _) as [[stats st] h2].
    destruct (onGameComplete (options w)); unfold Orderly in *;
      cbn -[Z.add engineTimeouts calculateScore getCongratulationsMessage];
      rewrite ?engineTimeouts_app; cbn [engineTimeouts List.filter];
      by rewrite ?app_nil_r.
  - destruct (updatePlayerStats _ _ _ _ _) as [[stats st] h2].
    destruct (onGameComplete (options w)); unfold Orderly in *;
      cbn -[Z.add engineTimeouts calculateScore getCongratulationsMessage];
      rewrite ?engineTimeouts_app; cbn [engineTimeouts List.filter];
      by rewrite ?app_nil_r.
Qed.

Lemma autoFlipEffect_Orderly w : Orderly w → Orderly (autoFlipEffect w).
Proof.
  intros Hw. unfold autoFlipEffect.
  destruct (isProcessing (session w)) eqn:Hbusy.
  { by rewrite !andb_false_r. }
  destruct (_ && _); [|done].
  destruct (List.filter _ _) as [|a [|b [|c l]]]; try done.
  unfold Orderly in *. rewrite Hbusy in Hw.
  cbn -[Z.add engineTimeouts]. rewrite !engineTimeouts_app, Hw.
  cbn -[Z.add]. eapply busy_resolving3; try done; cbn; unfold CARD_FLIP; lia.
Qed.

Lemma step_Orderly w e : e ≠ ResetGame → Orderly w → Orderly (step w e).
Proof.
  intros Hne Hw. unfold step, runEffects.
  by apply autoFlipEffect_Orderly, completionEffect_Orderly, handleEvent_Orderly.
Qed.

Lemma mount_Orderly o st h : Orderly (mount o st h).
Proof.
  unfold mount. apply autoFlipEffect_Orderly, completionEffect_Orderly.
  unfold initializeGame. cbn [options host].
  destruct (generateCards _ _ h) as [newCards h']. cbn. done.
Qed.

Lemma run_Orderly events w :
  ResetGame ∉ events → Orderly w → Orderly (run events w).
Proof.
  revert w. induction events as [|e events IH]; intros w Hno Hw; [done|].
  apply not_elem_of_cons in Hno as [Hne Hno]. simpl.
  by apply IH, step_Orderly.
Qed.

Lemma filter_both_nil {T} (p : T → bool) (l : list T) :
  List.filter p l = [] → List.filter (λ x, negb (p x)) l = [] → l = [].
Proof.
  destruct l as [|x l]; [done|]. simpl. by destruct (p x).
Qed.

(** With no completion callback around, an engine that is not processing
    has nothing pending. *)
Lemma Orderly_idle w :
  Orderly w → completionsFired w = 0%nat →
  isProcessing (session w) = false → pending w = [].
Proof.
  unfold Orderly, completionsFired, completionsPending.
  intros Hw Hfired Hidle. rewrite Hidle in Hw.
  apply (filter_both_nil schedulesCompletion); [|exact Hw].
  apply length_zero_iff_nil. lia.
Qed.

(** In a game played from mount without a reset, at the moment a handler
    returns and before the effects run: if nothing is being processed and the
    game is not complete, no timeout is pending. *)
Lemma idle_game_has_no_timeouts o st h events e :
  ResetGame ∉ events → e ≠ ResetGame →
  let w := handleEvent e (run events (mount o st h)) in
  isProcessing (session w) = false →
  isGameComplete (session w) = false →
  pending w = [].
Proof.
  intros Hno Hne w Hidle Hincomplete.
  destruct (mount_fresh o st h) as (_ & _ & Hzero).
  assert (Hstutter : Stutter (mount o st h) w).
  { pose proof (handleEvent_Stutter e (run events (mount o st h)) Hne) as He.
    fold w in He.
    destruct (run_progress events (mount o st h) Hno) as [H|H].
    - by eapply Stutter_trans.
    - destruct (Completes_Stutter _ _ _ H He) as (_&_&_&Hdone&_). congruence. }
  destruct Hstutter as (_&_&_&Hfired).
  apply Orderly_idle; [|lia|done].
  apply handleEvent_Orderly; [done|].
  apply run_Orderly; [done|apply mount_Orderly].
Qed.

(** So in such a game the last pair is resolved whenever the game is in
    progress with one pair left and nothing being processed. *)
Lemma last_pair_resolves_in_play o st h events e :
  ResetGame ∉ events → e ≠ ResetGame →
  let w := handleEvent e (run events (mount o st h)) in
  isGameStarted (session w) = true →
  isGamePaused (session w) = false →
  isGameComplete (session w) = false →
  LastPairRule w.
Proof.
  intros Hno Hne w Hstarted Hpaused Hincomplete
    (Hone & firstCard & secondCard & Hleft & Hpair & Hids) Hidle.
  pose proof (idle_game_has_no_timeouts o st h events e Hno Hne Hidle Hincomplete)
    as Hnone. fold w in Hnone.
  destruct (auto_resolution w firstCard secondCard)
    as (_ & _ & Hall & Hpairs & Hmoves); try done.
  by exists 3%nat.
Qed.

End Pending.

(* ===================================================================== *)
(** ** Two games played through *)
(* ===================================================================== *)

Section Scenarios.

(** EASY, two cards of one pair clicked: after the comparison both are
    matched, with one pair, one move and a score of one match bonus. *)
Example first_pair_matched :
  let w := run (StartGame :: clicksOnPair "pair-0" freshGame ++ [TimeoutFires])
             freshGame in
  map isMatched
    (List.filter (λ c, String.eqb (pairId c) "pair-0") (cards (session w)))
    = [true; true] ∧
  matchedPairs (session w) = 1 ∧
  moves (session w) = 1 ∧
  score (session w) = 1 * MATCH_BONUS.
Proof. vm_compute. repeat split; reflexivity. Qed.

(** Three pairs matched by hand, the fourth by the engine: the game is
    complete with four pairs and three moves, and the completion callback is
    called once its timeout has run. *)
Example last_pair_played_by_engine :
  let w := run (fullGame ++ [TimeoutFires]) freshGame in
  isGameComplete (session w) = true ∧
  matchedPairs (session w) = 4 ∧
  moves (session w) = 3 ∧
  completionsDelivered w = 1%nat ∧
  pending w = [].
Proof. vm_compute. repeat split; reflexivity. Qed.

End Scenarios.

(* ===================================================================== *)
(** ** Deck: shuffle, themes and pictures *)
(* ===================================================================== *)

Section DeckPictures.

Lemma randomBelow_calls n h :
  randomCalls (randomBelow n h).2 = S (randomCalls h) ∧
  clockCalls (randomBelow n h).2 = clockCalls h ∧
  randomDraws (randomBelow n h).2 = randomDraws h ∧
  clockReadings (randomBelow n h).2 = clockReadings h.
Proof. done. Qed.

Lemma shuffleLoop_calls {T} i (l : list T) h :
  randomCalls (shuffleLoop i l h).2 = (randomCalls h + i)%nat ∧
  clockCalls (shuffleLoop i l h).2 = clockCalls h.
Proof.
  revert l h. induction i as [|i IH]; intros l h.
  - simpl. split; [lia|done].
  - cbn [shuffleLoop]. unfold eff_bind.
    pose proof (randomBelow_calls (S i + 1) h) as (Hr & Hc & _).
    destruct (randomBelow (S i + 1) h) as [j h'].
    cbn [snd] in Hr, Hc.
    destruct (IH (swap (S i) j l) h') as [IHr IHc].
    rewrite IHr, IHc, Hr, Hc. split; [lia|done].
Qed.

(** X1. [shuffleArray] returns a rearrangement of its argument: the same
    elements, each as often as before, hence the same length.  It draws one
    random number per position but the first ([length - 1] draws, none for
    an empty array) and never reads the clock. *)
Theorem shuffleArray_rearranges {T} (array : list T) (h : Host) :
  let '(shuffled, h') := shuffleArray array h in
  shuffled ≡ₚ array ∧
  length shuffled = length array ∧
  randomCalls h' = (randomCalls h + (length array - 1))%nat ∧
  clockCalls h' = clockCalls h.
Proof.
  pose proof (shuffleArray_Permutation array h) as Hperm.
  pose proof (shuffleLoop_calls (length array - 1) array h) as [Hr Hc].
  fold (shuffleArray array) in Hr, Hc.
  destruct (shuffleArray array h) as [shuffled h']. cbn [fst snd] in *.
  split; [done|]. split; [by rewrite Hperm|]. done.
Qed.

Lemma findTheme_id themeId theme :
  findTheme themeId = Some theme → theme_id theme = themeId.
Proof.
  unfold findTheme. intros [_ H]%find_some. by apply String.eqb_eq.
Qed.

Lemma findTheme_None themeId :
  findTheme themeId = None → themeId ∉ map theme_id CARD_THEMES.
Proof.
  unfold findTheme. intros Hnone (t & -> & Hin)%list_elem_of_fmap.
  apply list_elem_of_In in Hin.
  pose proof (find_none _ _ Hnone t Hin) as Hneq. simpl in Hneq.
  by rewrite String.eqb_refl in Hneq.
Qed.

(** X2. [getCardTheme] always returns a theme of [CARD_THEMES]: the one
    with the id asked for when there is one, and the default theme
    ("animals") for any other id.  "default", the id the application passes,
    is such an id. *)
Theorem getCardTheme_lookup (themeId : string) :
  getCardTheme themeId ∈ CARD_THEMES ∧
  theme_id (getCardTheme themeId) =
    (if bool_decide (themeId ∈ map theme_id CARD_THEMES) then themeId
     else DEFAULT_THEME_ID) ∧
  (themeId ∉ map theme_id CARD_THEMES →
   getCardTheme themeId = getCardTheme DEFAULT_THEME_ID).
Proof.
  split; [apply getCardTheme_listed|].
  destruct (findTheme themeId) as [theme|] eqn:Hfind.
  - pose proof (findTheme_id _ _ Hfind) as Hid.
    assert (Hin : themeId ∈ map theme_id CARD_THEMES).
    { apply list_elem_of_fmap. exists theme. split; [done|].
      apply list_elem_of_In. unfold findTheme in Hfind.
      by apply find_some in Hfind as [? _]. }
    rewrite bool_decide_eq_true_2 by done.
    split; [|by intros []]. unfold getCardTheme. by rewrite Hfind.
  - pose proof (findTheme_None _ Hfind) as Hnotin.
    rewrite bool_decide_eq_false_2 by done.
    assert (Heq : getCardTheme themeId = getCardTheme DEFAULT_THEME_ID).
    { unfold getCardTheme at 1. rewrite Hfind. reflexivity. }
    split; [by rewrite Heq|done].
Qed.

Lemma getCardTheme_lookup_witness :
  getCardTheme "default" = getCardTheme DEFAULT_THEME_ID.
Proof.
  apply (getCardTheme_lookup "default").
  apply (bool_decide_unpack ("default" ∉ map theme_id CARD_THEMES)).
  vm_compute. reflexivity.
Defined.

(** The values a theme offers are all different. *)
Lemma theme_values_NoDup themeId : NoDup (theme_cards (getCardTheme themeId)).
Proof.
  pose proof (getCardTheme_listed themeId) as Hin.
  assert (Hall : Forall (λ t, NoDup (theme_cards t)) CARD_THEMES).
  { apply (bool_decide_unpack (Forall (λ t, NoDup (theme_cards t)) CARD_THEMES)).
    vm_compute. reflexivity. }
  rewrite Forall_forall in Hall. by apply Hall.
Qed.

(** The deck is a rearrangement of the cards pushed for the first values of
    the shuffled theme. *)
Lemma generateCards_selected d themeId h :
  let theme := getCardTheme (default DEFAULT_THEME_ID themeId) in
  let selectedCards :=
    take (totalCards (GAME_CONFIGS d) / 2) (shuffleArray (theme_cards theme) h).1 in
  (generateCards d themeId h).1 ≡ₚ
    pairCards 0 selectedCards (idsDrawn d themeId h) ∧
  length (idsDrawn d themeId h) = (2 * length selectedCards)%nat.
Proof.
  intros theme selectedCards. subst selectedCards.
  unfold generateCards, idsDrawn, eff_bind. fold theme.
  set (n := (totalCards (GAME_CONFIGS d) / 2)%nat).
  pose proof (shuffleArray_Permutation (theme_cards theme) h) as Hshuffled.
  destruct (shuffleArray (theme_cards theme) h) as [shuffledTheme h1].
  cbn [fst snd] in Hshuffled |- *.
  assert (Hlen : length (take n shuffledTheme) = n).
  { apply length_take_le. rewrite (Permutation_length Hshuffled).
    unfold theme. rewrite theme_has_ten_values.
    unfold n. destruct d; simpl; lia. }
  pose proof (pushPairs_pairCards (take n shuffledTheme) 0 [] h1) as Hpushed.
  destruct (pushPairs 0 (take n shuffledTheme) [] h1) as [cards h2].
  cbn [fst app] in Hpushed. rewrite Hlen in Hpushed. subst cards.
  split; [apply shuffleArray_Permutation|].
  by rewrite generateIds_length, Hlen.
Qed.

Lemma pairCards_value index selectedCards ids c :
  c ∈ pairCards index selectedCards ids →
  ∃ k, selectedCards !! k = Some (value c) ∧
       pairId c = "pair-" +:+ pretty (index + k)%nat ∧
       imageUrl c = Some (value c).
Proof.
  revert index ids.
  induction selectedCards as [|v rest IH]; intros index ids; simpl.
  - by intros ?%elem_of_nil.
  - destruct ids as [|id1 [|id2 ids]]; try by intros ?%elem_of_nil.
    rewrite !elem_of_cons. intros [->|[->|Hin]].
    + exists 0%nat. simpl. by rewrite Nat.add_0_r.
    + exists 0%nat. simpl. by rewrite Nat.add_0_r.
    + apply IH in Hin as (k & Hk & Hp & Hi). exists (S k). simpl.
      split; [done|]. split; [|done]. rewrite Hp. do 2 f_equal. lia.
Qed.

(** X3. The pictures of a generated deck: every card shows a value of the
    theme asked for (of the default theme when none is given), its
    [imageUrl] is that value, and two cards of the deck carry the same
    [pairId] exactly when they show the same value. *)
Theorem generateCards_pictures (d : Difficulty) (themeId : option string) (h : Host) :
  let deck := (generateCards d themeId h).1 in
  let theme := getCardTheme (default DEFAULT_THEME_ID themeId) in
  (∀ c, c ∈ deck →
     value c ∈ theme_cards theme ∧ imageUrl c = Some (value c)) ∧
  (∀ c1 c2, c1 ∈ deck → c2 ∈ deck →
     (pairId c1 = pairId c2 ↔ value c1 = value c2)).
Proof.
  intros deck theme.
  destruct (generateCards_selected d themeId h) as [Hperm _].
  fold deck theme in Hperm.
  set (sel := take _ _) in Hperm.
  assert (Hsub : ∀ v, v ∈ sel → v ∈ theme_cards theme).
  { intros v Hv. apply elem_of_take in Hv as (i & Hv & _).
    apply list_elem_of_lookup_2 in Hv.
    by rewrite (shuffleArray_Permutation (theme_cards theme) h) in Hv. }
  assert (Hnodup : NoDup sel).
  { eapply sublist_NoDup; cycle 1; [apply sublist_take|].
    rewrite shuffleArray_Permutation. apply theme_values_NoDup. }
  split.
  - intros c Hc. rewrite Hperm in Hc.
    apply pairCards_value in Hc as (k & Hk & _ & Hi).
    split; [|done]. apply Hsub. by eapply list_elem_of_lookup_2.
  - intros c1 c2 H1 H2. rewrite Hperm in H1, H2.
    apply pairCards_value in H1 as (k1 & Hk1 & Hp1 & _).
    apply pairCards_value in H2 as (k2 & Hk2 & Hp2 & _).
    rewrite Hp1, Hp2. split.
    + intros Heq%pairName_inj. simpl in Heq. subst k2. congruence.
    + intros Heq. rewrite <-Heq in Hk2.
      by rewrite (NoDup_lookup _ _ _ _ Hnodup Hk1 Hk2).
Qed.

(** With distinct ids, the id names the card. *)
Lemma same_id_same_card (l : list Card) x y :
  NoDup (map id l) → x ∈ l → y ∈ l → id x = id y → x = y.
Proof.
  induction l as [|z l IH]; simpl.
  - by intros _ ?%elem_of_nil.
  - intros [Hnotin Hnodup]%NoDup_cons [->|Hx]%elem_of_cons [->|Hy]%elem_of_cons Hid.
    + done.
    + destruct Hnotin. rewrite Hid. apply list_elem_of_fmap. by exists y.
    + destruct Hnotin. rewrite <-Hid. apply list_elem_of_fmap. by exists x.
    + by apply IH.
Qed.

Lemma filter_implied {A} (p q : A → bool) (l : list A) :
  (∀ x, x ∈ l → q x = true → p x = true) →
  List.filter (λ x, p x && q x) l = List.filter q l.
Proof.
  induction l as [|x l IH]; intros Himp; simpl; [done|].
  rewrite IH by (intros y Hy; apply Himp; by right).
  destruct (q x) eqn:Hq.
  - rewrite (Himp x) by (done || left). done.
  - by rewrite andb_false_r.
Qed.

(** In a list with distinct ids, one card carries the id of a card of the list. *)
Lemma one_card_per_id (l : list Card) c :
  NoDup (map id l) → c ∈ l →
  length (List.filter (λ x, String.eqb (id x) (id c)) l) = 1%nat.
Proof.
  induction l as [|x l IH]; simpl.
  - by intros _ ?%elem_of_nil.
  - intros [Hnotin Hnodup]%NoDup_cons Hin.
    destruct (String.eqb_spec (id x) (id c)) as [Heq|Hne].
    + simpl. f_equal. apply length_zero_iff_nil.
      destruct (List.filter _ l) as [|y ?] eqn:Hf; [done|].
      assert (Hy : y ∈ List.filter (λ x, String.eqb (id x) (id c)) l)
        by (rewrite Hf; left).
      apply list_elem_of_In, filter_In in Hy as [Hy Hid].
      apply String.eqb_eq in Hid. destruct Hnotin.
      rewrite Heq, <-Hid. apply list_elem_of_fmap. exists y.
      split; [done|]. by apply list_elem_of_In.
    + apply IH; [done|]. apply elem_of_cons in Hin as [->|Hin]; [done|done].
Qed.

Lemma filter_split_length {A} (p q : A → bool) (l : list A) :
  length (List.filter p l) =
    (length (List.filter (λ x, p x && q x) l)
     + length (List.filter (λ x, p x && negb (q x)) l))%nat.
Proof.
  induction l as [|x l IH]; simpl; [done|].
  destruct (p x), (q x); simpl; lia.
Qed.

Lemma cardsOfPair_filter p deck :
  cardsOfPair p deck = length (List.filter (λ x, String.eqb (pairId x) p) deck).
Proof.
  unfold cardsOfPair. induction deck as [|x l IH]; simpl; [done|].
  rewrite filter_cons.
  destruct (String.eqb_spec (pairId x) p) as [Heq|Hne].
  - rewrite decide_True by done. simpl. by rewrite IH.
  - by rewrite decide_False.
Qed.

(** X4. In a deck with the integrity of a generated deck (pair ids in twos,
    distinct ids), [checkCardsMatch] pairs every card with exactly one card
    of the deck, its partner; the partner matches it back, and no card
    matches itself. *)
Theorem every_card_has_one_partner (d : Difficulty) (deck : list Card) (c : Card) :
  DeckIntegrity d deck → c ∈ deck →
  ∃ partner,
    List.filter (checkCardsMatch c) deck = [partner] ∧
    checkCardsMatch partner c = true ∧
    checkCardsMatch c c = false.
Proof.
  intros [(_ & Hpairs & _) Hnodup] Hin.
  assert (Hlen : length (List.filter (checkCardsMatch c) deck) = 1%nat).
  { pose proof (Hpairs c Hin) as Htwo. rewrite cardsOfPair_filter in Htwo.
    rewrite (filter_split_length _ (λ x, String.eqb (id x) (id c))) in Htwo.
    assert (Hsame :
      List.filter (λ x, String.eqb (pairId x) (pairId c) && String.eqb (id x) (id c)) deck
      = List.filter (λ x, String.eqb (id x) (id c)) deck).
    { apply filter_implied. intros x Hx Hid%String.eqb_eq.
      rewrite (same_id_same_card deck x c Hnodup Hx Hin Hid).
      apply String.eqb_refl. }
    rewrite Hsame, (one_card_per_id deck c Hnodup Hin) in Htwo.
    assert (Hext : List.filter (checkCardsMatch c) deck =
      List.filter (λ x, String.eqb (pairId x) (pairId c) && negb (String.eqb (id x) (id c))) deck).
    { apply filter_ext. intros x. unfold checkCardsMatch.
      by rewrite (String.eqb_sym (pairId c)), (String.eqb_sym (id c)). }
    rewrite Hext. lia. }
  destruct (List.filter (checkCardsMatch c) deck) as [|partner [|? ?]] eqn:Hf;
    simpl in Hlen; try lia.
  exists partner. split; [done|].
  assert (Hp : partner ∈ List.filter (checkCardsMatch c) deck) by (rewrite Hf; left).
  apply list_elem_of_In, filter_In in Hp as [_ Hp].
  split.
  - unfold checkCardsMatch in *.
    by rewrite (String.eqb_sym (pairId partner)), (String.eqb_sym (id partner)).
  - unfold checkCardsMatch. by rewrite !String.eqb_refl.
Qed.

Lemma every_card_has_one_partner_witness :
  ∃ partner,
    List.filter (checkCardsMatch lastPairFirst) demoDeck = [partner] ∧
    checkCardsMatch partner lastPairFirst = true ∧
    checkCardsMatch lastPairFirst lastPairFirst = false.
Proof.
  apply (every_card_has_one_partner EASY).
  - split; [apply (generateCards_shape_and_ids EASY None demoHost)|].
    apply (bool_decide_unpack (NoDup (map id demoDeck))). vm_compute. reflexivity.
  - apply (bool_decide_unpack (lastPairFirst ∈ demoDeck)).
    vm_compute. reflexivity.
Defined.

End DeckPictures.

(* ===================================================================== *)
(** ** Score and ratings *)
(* ===================================================================== *)

Section Ratings.

(** X5. With the same moves, difficulty and number of matched pairs, a
    game that took no longer never scores less. *)
Theorem calculateScore_rewards_speed (moves t1 t2 : Z) (d : Difficulty) (mp : Z) :
  t1 ≤ t2 → calculateScore moves t2 d mp ≤ calculateScore moves t1 d mp.
Proof.
  intros Hle. unfold calculateScore.
  destruct (mp =? _); [|lia].
  unfold TIME_BONUS_MULTIPLIER, PERFECT_GAME_BONUS, MATCH_BONUS, MOVE_PENALTY.
  destruct d; simpl;
    repeat match goal with
    | |- context [if ?b then _ else _] =>
        let H := fresh in destruct b eqn:H
    end;
    rewrite ?Z.ltb_lt, ?Z.ltb_ge, ?Z.eqb_eq, ?Z.eqb_neq in *; lia.
Qed.

Lemma calculateScore_rewards_speed_witness :
  30 ≤ 90 ∧ calculateScore 10 90 MEDIUM 6 ≤ calculateScore 10 30 MEDIUM 6.
Proof. split; [lia|]. apply calculateScore_rewards_speed. lia. Defined.

(** X6. For any time, difficulty and number of matched pairs, no number of
    moves scores more than exactly [PERFECT_MOVES] moves. *)
Theorem calculateScore_best_at_perfect_moves (moves t : Z) (d : Difficulty) (mp : Z) :
  calculateScore moves t d mp ≤ calculateScore (PERFECT_MOVES d) t d mp.
Proof.
  unfold calculateScore.
  destruct (mp =? _); [|lia].
  unfold TIME_BONUS_MULTIPLIER, PERFECT_GAME_BONUS, MATCH_BONUS, MOVE_PENALTY.
  destruct (truthyLimit (timeLimit (GAME_CONFIGS d))) as [limit|];
    repeat match goal with
    | |- context [if ?b then _ else _] =>
        let H := fresh in destruct b eqn:H
    end;
    rewrite ?Z.ltb_lt, ?Z.ltb_ge, ?Z.eqb_eq, ?Z.eqb_neq in *; lia.
Qed.

(** X7. A completed game with fewer moves than [PERFECT_MOVES] scores
    exactly [PERFECT_GAME_BONUS] less than the same game with
    [PERFECT_MOVES] moves: the bonus is paid for that number of moves only,
    and fewer moves earn nothing else. *)
Theorem fewer_moves_lose_the_bonus (moves t : Z) (d : Difficulty) :
  moves < PERFECT_MOVES d →
  calculateScore moves t d (pairCount d) =
    calculateScore (PERFECT_MOVES d) t d (pairCount d) - PERFECT_GAME_BONUS.
Proof.
  intros Hfewer.
  assert (Hbonus : 0 ≤ pairCount d * MATCH_BONUS + 1000).
  { rewrite pairCount_values. by destruct d. }
  unfold calculateScore. fold (pairCount d). rewrite !Z.eqb_refl.
  unfold PERFECT_GAME_BONUS, TIME_BONUS_MULTIPLIER, MOVE_PENALTY in *.
  destruct (truthyLimit (timeLimit (GAME_CONFIGS d))) as [limit|];
    repeat match goal with
    | |- context [if ?b then _ else _] =>
        let H := fresh in destruct b eqn:H
    end;
    rewrite ?Z.ltb_lt, ?Z.ltb_ge, ?Z.eqb_eq, ?Z.eqb_neq in *; lia.
Qed.

Lemma fewer_moves_lose_the_bonus_witness :
  calculateScore 4 30 EASY (pairCount EASY) =
    calculateScore (PERFECT_MOVES EASY) 30 EASY (pairCount EASY) - PERFECT_GAME_BONUS.
Proof. apply fewer_moves_lose_the_bonus. reflexivity. Defined.

Lemma Qle_bool_Z a b c d' :
  (0 < b)%Z → (0 < Z.pos d')%Z →
  Qle_bool (inject_Z a / inject_Z b) (c # d') = (a * Z.pos d' <=? c * b).
Proof.
  intros Hb _.
  destruct b as [|b|b]; try lia.
  apply eq_true_iff_eq. rewrite Qle_bool_iff, Z.leb_le.
  unfold Qle, Qdiv, Qmult, Qinv, inject_Z. simpl. lia.
Qed.

(** X8. The rating of [getPerformanceRating] and the message of
    [getCongratulationsMessage] grade the moves alike: unless the message
    is the one for a fast game, it is "perfect" for the rating perfect,
    "excellent" for excellent, "great job" for great, and "well done" for
    the two ratings below. *)
Theorem rating_agrees_with_message (moves timeElapsed : Z) (d : Difficulty) :
  getCongratulationsMessage moves timeElapsed d ≠ LightningFast →
  getCongratulationsMessage moves timeElapsed d =
    match getPerformanceRating moves d with
    | RatingPerfect => PerfectGame
    | RatingExcellent => Excellent
    | RatingGreat => GreatJob
    | RatingGood | RatingKeepPracticing => WellDone
    end.
Proof.
  unfold getCongratulationsMessage, getPerformanceRating.
  set (fast := match truthyLimit _ with Some _ => _ | None => false end).
  assert (Hperf : Qeq_bool (inject_Z moves / inject_Z (PERFECT_MOVES d)) 1
                  = (moves =? PERFECT_MOVES d)).
  { apply eq_true_iff_eq. rewrite Qeq_bool_iff, Z.eqb_eq.
    destruct d; unfold Qeq, Qdiv, Qmult, Qinv, inject_Z; simpl; lia. }
  rewrite Hperf.
  destruct (moves =? PERFECT_MOVES d); [done|].
  destruct fast; [done|]. intros _.
  change 2%Q with (2 # 1).
  rewrite !Qle_bool_Z by (destruct d; done).
  assert (H12 : Qle_bool (inject_Z moves) (inject_Z (PERFECT_MOVES d) * (12 # 10))
                = (moves * 10 <=? 12 * PERFECT_MOVES d)).
  { apply eq_true_iff_eq. rewrite Qle_bool_iff, Z.leb_le.
    destruct d; unfold Qle, Qmult, inject_Z; simpl; lia. }
  assert (H15 : Qle_bool (inject_Z moves) (inject_Z (PERFECT_MOVES d) * (15 # 10))
                = (moves * 10 <=? 15 * PERFECT_MOVES d)).
  { apply eq_true_iff_eq. rewrite Qle_bool_iff, Z.leb_le.
    destruct d; unfold Qle, Qmult, inject_Z; simpl; lia. }
  rewrite H12, H15.
  destruct (moves * 10 <=? 12 * PERFECT_MOVES d); [done|].
  destruct (moves * 10 <=? 15 * PERFECT_MOVES d); [done|].
  by destruct (moves * 1 <=? 2 * PERFECT_MOVES d).
Qed.

Lemma rating_agrees_with_message_witness :
  getCongratulationsMessage 9 300 EASY =
    match getPerformanceRating 9 EASY with
    | RatingPerfect => PerfectGame
    | RatingExcellent => Excellent
    | RatingGreat => GreatJob
    | RatingGood | RatingKeepPracticing => WellDone
    end.
Proof. apply rating_agrees_with_message. vm_compute. congruence. Defined.

End Ratings.

(* ===================================================================== *)
(** ** Formatting of times *)
(* ===================================================================== *)

Section Clock.

Lemma isDigit_pretty_N_char x : isDigit (pretty_N_char x) = true.
Proof.
  destruct x as [|p]; [reflexivity|].
  repeat (destruct p as [p|p|]; try reflexivity).
Qed.

Lemma allDigits_pretty_N_go x s :
  allDigits s = true → allDigits (pretty_N_go x s) = true.
Proof.
  revert s. induction (N.lt_wf_0 x) as [x _ IH]; intros s Hs.
  destruct (decide (x = 0)%N) as [->|Hx]; [by rewrite pretty_N_go_0|].
  rewrite pretty_N_go_step by lia. apply IH.
  - apply N.div_lt; lia.
  - cbn [allDigits]. by rewrite isDigit_pretty_N_char, Hs.
Qed.

Lemma allDigits_pretty_N (n : N) : allDigits (pretty n) = true.
Proof.
  unfold pretty, pretty_N. destruct (decide (n = 0)%N); [done|].
  by apply allDigits_pretty_N_go.
Qed.

(** A number other than 0 is written without a leading zero. *)
Lemma pretty_N_go_leading x s r :
  (0 < x)%N → pretty_N_go x s ≠ "0" +:+ r.
Proof.
  revert s r. induction (N.lt_wf_0 x) as [x _ IH]; intros s r Hx.
  rewrite pretty_N_go_step by done.
  destruct (decide (x `div` 10 = 0)%N) as [Hdiv|Hdiv].
  - rewrite Hdiv, pretty_N_go_0. cbn. intros [= Hc _].
    assert (Hlt : (x < 10)%N) by (apply N.div_small_iff in Hdiv; [done|lia]).
    rewrite N.mod_small in Hc by done.
    apply (pretty_N_char_inj x 0) in Hc; lia.
  - apply IH; [apply N.div_lt; lia|by apply N.neq_0_lt_0].
Qed.

Lemma pretty_N_leading (n : N) r : pretty n = "0" +:+ r → n = 0%N.
Proof.
  unfold pretty, pretty_N. destruct (decide (n = 0)%N) as [->|Hn]; [done|].
  intros H. by apply pretty_N_go_leading in H; [|lia].
Qed.

Lemma pretty_N_go_nonempty x s : (0 < x)%N → pretty_N_go x s ≠ "".
Proof.
  revert s. induction (N.lt_wf_0 x) as [x _ IH]; intros s Hx.
  rewrite pretty_N_go_step by done.
  destruct (decide (x `div` 10 = 0)%N) as [Hdiv|Hdiv].
  - by rewrite Hdiv, pretty_N_go_0.
  - apply IH; [apply N.div_lt; lia|by apply N.neq_0_lt_0].
Qed.

Lemma pretty_N_nonempty (n : N) : pretty n ≠ "".
Proof.
  unfold pretty, pretty_N. destruct (decide (n = 0)%N); [done|].
  apply pretty_N_go_nonempty. lia.
Qed.

Lemma pretty_Z_nonneg (x : Z) : 0 ≤ x → pretty x = pretty (Z.to_N x).
Proof. destruct x; [done|done|lia]. Qed.

(** Two texts that start with digits up to a first character that is not a
    digit agree on the digits, on that character and on the rest. *)
Lemma split_at_mark a a' c c' b b' :
  allDigits a = true → allDigits a' = true →
  isDigit c = false → isDigit c' = false →
  a +:+ String c b = a' +:+ String c' b' →
  a = a' ∧ c = c' ∧ b = b'.
Proof.
  revert a'. induction a as [|x a IH]; intros [|x' a'] Ha Ha' Hc Hc'; cbn.
  - by intros [= -> ->].
  - intros [= -> _]. cbn [allDigits] in Ha'. by rewrite Hc in Ha'.
  - intros [= -> _]. cbn [allDigits] in Ha. by rewrite Hc' in Ha.
  - intros [= -> Heq]. cbn [allDigits] in Ha, Ha'.
    apply andb_true_iff in Ha as [_ Ha], Ha' as [_ Ha'].
    destruct (IH a' Ha Ha' Hc Hc' Heq) as (-> & -> & ->). done.
Qed.

Lemma allDigits_padStart n s : allDigits s = true → allDigits (padStart n s) = true.
Proof.
  intros Hs. unfold padStart. induction (n - String.length s)%nat; [done|].
  cbn. done.
Qed.

Lemma padStart_pretty_inj (a b : N) :
  padStart 2 (pretty a) = padStart 2 (pretty b) → a = b.
Proof.
  unfold padStart.
  pose proof (pretty_N_nonempty a) as Ha. pose proof (pretty_N_nonempty b) as Hb.
  destruct (pretty a) as [|ca [|ca' ra]] eqn:Hpa; [done| |];
    destruct (pretty b) as [|cb [|cb' rb]] eqn:Hpb; try done; cbn.
  - intros [= ->]. apply (inj pretty). by rewrite Hpa, Hpb.
  - intros [= <- <- <-]. by rewrite (pretty_N_leading b _ Hpb) in Hpb.
  - intros [= -> -> ->]. by rewrite (pretty_N_leading a _ Hpa) in Hpa.
  - intros Heq. apply (inj pretty). by rewrite Hpa, Hpb.
Qed.

(** X9. [formatTime] tells durations apart: two different numbers of
    whole seconds are never written the same way. *)
Theorem formatTime_tells_durations_apart (seconds1 seconds2 : Z) :
  0 ≤ seconds1 ≤ MAX_SAFE_INTEGER → 0 ≤ seconds2 ≤ MAX_SAFE_INTEGER →
  seconds1 ≠ seconds2 →
  formatTime seconds1 ≠ formatTime seconds2.
Proof.
  intros [H1 _] [H2 _] Hne. unfold formatTime.
  rewrite !Z.rem_mod_nonneg by lia.
  rewrite !pretty_Z_nonneg
    by first [apply Z.div_pos; lia | apply Z.mod_pos_bound; lia].
  intros Heq.
  apply (split_at_mark _ _ _ _ _ _) in Heq as (Hm & _ & Hs);
    try (apply allDigits_padStart, allDigits_pretty_N); try done.
  apply padStart_pretty_inj in Hm, Hs.
  apply Z2N.inj in Hm, Hs;
    try first [apply Z.div_pos; lia | apply Z.mod_pos_bound; lia].
  rewrite (Z.div_mod seconds1 60), (Z.div_mod seconds2 60) in Hne by lia. lia.
Qed.

Lemma formatTime_tells_durations_apart_witness :
  formatTime 59 = "00:59" ∧ formatTime 60 = "01:00" ∧
  formatTime 59 ≠ formatTime 60.
Proof.
  split; [vm_compute; reflexivity|]. split; [vm_compute; reflexivity|].
  apply formatTime_tells_durations_apart; unfold MAX_SAFE_INTEGER; lia.
Defined.

Lemma small_numbers_two_characters (n : Z) :
  0 ≤ n < 100 → String.length (padStart 2 (pretty n)) = 2%nat.
Proof.
  intros Hn.
  assert (Hall : forallb (λ k, String.length (padStart 2 (pretty (Z.of_nat k))) =? 2)%nat
                   (seq 0 100) = true) by (vm_compute; reflexivity).
  rewrite forallb_forall in Hall.
  specialize (Hall (Z.to_nat n)). rewrite Z2Nat.id in Hall by lia.
  apply Nat.eqb_eq, Hall, in_seq. lia.
Qed.

Lemma length_append (a b : string) :
  String.length (a +:+ b) = (String.length a + String.length b)%nat.
Proof. induction a as [|c a IH]; simpl; [done|]. f_equal. exact IH. Qed.

(** X10. [formatTime] writes a number of whole seconds as minutes, a colon
    and seconds: both parts are made of digits, the seconds take two
    characters and the minutes at least two; below 100 minutes the text is
    five characters long. *)
Theorem formatTime_is_a_clock (seconds : Z) :
  0 ≤ seconds ≤ MAX_SAFE_INTEGER →
  ∃ mm ss,
    formatTime seconds = mm +:+ ":" +:+ ss ∧
    allDigits mm = true ∧ allDigits ss = true ∧
    String.length ss = 2%nat ∧
    (2 ≤ String.length mm)%nat ∧
    (seconds < 6000 → String.length (formatTime seconds) = 5%nat).
Proof.
  intros [Hs _]. unfold formatTime. rewrite Z.rem_mod_nonneg by lia.
  assert (Hm : 0 ≤ seconds `div` 60) by (apply Z.div_pos; lia).
  assert (Hr : 0 ≤ seconds `mod` 60 < 60) by (apply Z.mod_pos_bound; lia).
  eexists _, _. split; [reflexivity|].
  split; [rewrite pretty_Z_nonneg by done; apply allDigits_padStart, allDigits_pretty_N|].
  split; [rewrite pretty_Z_nonneg by lia; apply allDigits_padStart, allDigits_pretty_N|].
  split; [apply small_numbers_two_characters; lia|].
  split.
  - unfold padStart. rewrite length_append.
    assert (Hz : ∀ k, String.length (zeros k) = k).
    { induction k as [|k IH]; simpl; [done|]. f_equal. exact IH. }
    rewrite Hz. lia.
  - intros Hlt. rewrite !length_append.
    rewrite !small_numbers_two_characters; [done|lia|].
    split; [done|]. apply Z.div_lt_upper_bound; lia.
Qed.

Lemma formatTime_is_a_clock_witness :
  ∃ mm ss,
    formatTime 754 = mm +:+ ":" +:+ ss ∧
    allDigits mm = true ∧ allDigits ss = true ∧
    String.length ss = 2%nat ∧
    (2 ≤ String.length mm)%nat ∧
    (754 < 6000 → String.length (formatTime 754) = 5%nat).
Proof. apply formatTime_is_a_clock. unfold MAX_SAFE_INTEGER. lia. Defined.

Lemma pretty_mark_inj (a b : N) c c' r r' :
  isDigit c = false → isDigit c' = false →
  pretty a +:+ String c r = pretty b +:+ String c' r' →
  a = b ∧ c = c' ∧ r = r'.
Proof.
  intros Hc Hc' Heq.
  apply split_at_mark in Heq as (Hp & -> & ->);
    try apply allDigits_pretty_N; try done.
  by apply (inj pretty) in Hp.
Qed.

(** X11. [formatTimeHuman] tells durations apart as well, although it
    leaves out the minutes of a duration under a minute and the seconds of
    a whole number of minutes. *)
Theorem formatTimeHuman_tells_durations_apart (seconds1 seconds2 : Z) :
  0 ≤ seconds1 ≤ MAX_SAFE_INTEGER → 0 ≤ seconds2 ≤ MAX_SAFE_INTEGER →
  seconds1 ≠ seconds2 →
  formatTimeHuman seconds1 ≠ formatTimeHuman seconds2.
Proof.
  intros [H1 _] [H2 _] Hne. unfold formatTimeHuman.
  rewrite !Z.rem_mod_nonneg by lia.
  pose proof (Z.div_mod seconds1 60 ltac:(lia)) as Hd1.
  pose proof (Z.div_mod seconds2 60 ltac:(lia)) as Hd2.
  assert (Hm1 : 0 ≤ seconds1 `div` 60) by (apply Z.div_pos; lia).
  assert (Hm2 : 0 ≤ seconds2 `div` 60) by (apply Z.div_pos; lia).
  assert (Hr1 : 0 ≤ seconds1 `mod` 60 < 60) by (apply Z.mod_pos_bound; lia).
  assert (Hr2 : 0 ≤ seconds2 `mod` 60 < 60) by (apply Z.mod_pos_bound; lia).
  rewrite !pretty_Z_nonneg by lia.
  destruct (Z.eqb_spec (seconds1 `div` 60) 0) as [Hz1|Hz1],
           (Z.eqb_spec (seconds2 `div` 60) 0) as [Hz2|Hz2];
    try destruct (Z.eqb_spec (seconds1 `mod` 60) 0) as [Hs1|Hs1];
    try destruct (Z.eqb_spec (seconds2 `mod` 60) 0) as [Hs2|Hs2];
    intros Heq;
    apply pretty_mark_inj in Heq as (Ha & Hc & Hrest); try done;
    try (apply Z2N.inj in Ha; [|lia|lia]);
    try lia.
  change (" " +:+ pretty (Z.to_N (seconds1 `mod` 60)) +:+ "s")
    with (String.append " " (pretty (Z.to_N (seconds1 `mod` 60)) +:+ "s")) in Hrest.
  cbn [String.append] in Hrest. injection Hrest as Hrest.
  apply pretty_mark_inj in Hrest as (Hb & _); try done.
  apply Z2N.inj in Hb; lia.
Qed.

Lemma formatTimeHuman_tells_durations_apart_witness :
  formatTimeHuman 60 = "1m" ∧ formatTimeHuman 1 = "1s" ∧
  formatTimeHuman 60 ≠ formatTimeHuman 1.
Proof.
  split; [vm_compute; reflexivity|]. split; [vm_compute; reflexivity|].
  apply formatTimeHuman_tells_durations_apart; unfold MAX_SAFE_INTEGER; lia.
Defined.

End Clock.

(* ===================================================================== *)
(** ** Leaderboard: admission and views *)
(* ===================================================================== *)

Section Leaderboard.

Lemma isHighScore_accepts_above_last candidate st :
  length (loadHighScores st) = MAX_HIGH_SCORES →
  isHighScore candidate st = true →
  ∃ lowest, last (loadHighScores st) = Some lowest ∧ hs_score lowest < candidate.
Proof.
  intros Hfull. unfold isHighScore. rewrite Nat.sub_1_r, <-last_lookup.
  destruct (Nat.ltb_spec (length (loadHighScores st)) MAX_HIGH_SCORES); [lia|].
  destruct (last (loadHighScores st)) as [lowest|]; [|done].
  intros Hlt%Z.ltb_lt. by exists lowest.
Qed.

Lemma accepted_score_on_board (newScore : HighScore) (st : Storage) :
  setItemThrows st = false →
  (length (loadHighScores st) ≤ MAX_HIGH_SCORES)%nat →
  isHighScore (hs_score newScore) st = true →
  newScore ∈ loadHighScores (addHighScore newScore st).2.
Proof.
  intros Hok Hlen Hhigh.
  pose proof (addHighScore_writes newScore st Hok) as Hadd.
  set (st' := (addHighScore newScore st).2) in *.
  assert (Hnew : newScore ∈ loadHighScores st ++ [newScore]).
  { apply elem_of_app. right. by apply list_elem_of_singleton. }
  destruct (decide (length (loadHighScores st) = MAX_HIGH_SCORES)) as [Hfull|Hroom].
  - destruct (addHighScore_full_board _ _ _ Hadd Hfull) as (dropped & Hperm & Hlast).
    apply (isHighScore_accepts_above_last (hs_score newScore) st Hfull) in Hhigh
      as (lowest & Hlowest & Hlt).
    assert (Hlow : lowest ∈ loadHighScores st ++ [newScore]).
    { apply elem_of_app. left. apply last_Some in Hlowest as [l' ->].
      apply elem_of_app. right. by apply list_elem_of_singleton. }
    rewrite Hperm in Hnew, Hlow.
    apply elem_of_app in Hnew as [Hnew|Hnew%list_elem_of_singleton]; [done|].
    subst dropped.
    apply elem_of_app in Hlow as [Hlow|Hlow%list_elem_of_singleton].
    + apply Hlast in Hlow. unfold leaderboardOrder in Hlow. lia.
    + subst. lia.
  - rewrite (addHighScore_stored _ _ _ Hadd).
    rewrite take_ge.
    + by rewrite sortBy_Permutation.
    + rewrite sortBy_length, length_app. simpl. lia.
Qed.

(** X12. What [isHighScore] promises, [addHighScore] keeps: on a store that
    takes the write and holds at most [MAX_HIGH_SCORES] entries, an entry
    whose score [isHighScore] accepts is on the board after [addHighScore]. *)
Theorem accepted_score_enters_board (newScore : HighScore) (st : Storage) :
  setItemThrows st = false →
  (length (loadHighScores st) ≤ MAX_HIGH_SCORES)%nat →
  isHighScore (hs_score newScore) st = true →
  newScore ∈ loadHighScores (addHighScore newScore st).2.
Proof. apply accepted_score_on_board. Qed.

Lemma accepted_score_enters_board_witness :
  highEntry ∈ loadHighScores (addHighScore highEntry fullBoard).2.
Proof.
  apply accepted_score_enters_board; [reflexivity|vm_compute; lia|reflexivity].
Defined.

Lemma getPersonalBest_head st : getPersonalBest st = head (loadHighScores st).
Proof.
  unfold getPersonalBest. by destruct (loadHighScores st).
Qed.

(** X13. After [addHighScore] on a store that takes the write,
    [getPersonalBest] returns an entry, and it leads: it is the new entry or
    one of the board, and none of them ranks before it (higher score, or the
    same score in a shorter time). *)
Theorem getPersonalBest_leads (newScore : HighScore) (st : Storage) :
  setItemThrows st = false →
  ∃ best,
    getPersonalBest (addHighScore newScore st).2 = Some best ∧
    (∀ h, h ∈ loadHighScores st ++ [newScore] → leaderboardOrder best h) ∧
    best ∈ loadHighScores st ++ [newScore].
Proof.
  intros Hok.
  pose proof (addHighScore_writes newScore st Hok) as Hadd.
  rewrite getPersonalBest_head, (addHighScore_stored _ _ _ Hadd).
  pose proof (sorted_scores_ordered (loadHighScores st ++ [newScore])) as Hsorted.
  pose proof (sortBy_Permutation compareScores (loadHighScores st ++ [newScore])) as Hperm.
  destruct (sortBy compareScores (loadHighScores st ++ [newScore])) as [|best rest].
  - apply Permutation_nil_l in Hperm. by destruct (loadHighScores st).
  - exists best. split; [done|]. split.
    + intros h Hh. rewrite <-Hperm in Hh.
      apply elem_of_cons in Hh as [->|Hh]; [apply leaderboardOrder_refl|].
      apply StronglySorted_inv in Hsorted as [_ Hall].
      rewrite Forall_forall in Hall. by apply Hall.
    + rewrite <-Hperm. left.
Qed.

Lemma getPersonalBest_leads_witness :
  ∃ best,
    getPersonalBest (addHighScore highEntry fullBoard).2 = Some best ∧
    (∀ h, h ∈ loadHighScores fullBoard ++ [highEntry] → leaderboardOrder best h) ∧
    best ∈ loadHighScores fullBoard ++ [highEntry].
Proof. apply getPersonalBest_leads. reflexivity. Defined.

Lemma difficultyName_inj d1 d2 : difficultyName d1 = difficultyName d2 → d1 = d2.
Proof. by destruct d1, d2. Qed.

Lemma filter_sublist_of {B} (p : B → bool) (l : list B) :
  List.filter p l `sublist_of` l.
Proof.
  induction l as [|x l IH]; simpl; [constructor|].
  destruct (p x); by constructor.
Qed.

Lemma filter_by_difficulty_length (l : list HighScore) :
  (length (List.filter (λ score, String.eqb (difficultyName (hs_difficulty score)) "EASY") l)
   + length (List.filter (λ score, String.eqb (difficultyName (hs_difficulty score)) "MEDIUM") l)
   + length (List.filter (λ score, String.eqb (difficultyName (hs_difficulty score)) "HARD") l))%nat
  = length l.
Proof.
  induction l as [|x l IH]; simpl; [done|].
  destruct (hs_difficulty x); simpl; lia.
Qed.

(** X14. [getHighScoresByDifficulty] shows the entries of the board that
    were played at the difficulty asked for, in the order of the board; a
    name that is no difficulty shows nothing, and the views of the three
    difficulties share out the board. *)
Theorem getHighScoresByDifficulty_views (st : Storage) :
  (∀ d h, h ∈ getHighScoresByDifficulty (difficultyName d) st ↔
          h ∈ loadHighScores st ∧ hs_difficulty h = d) ∧
  (∀ name, name ∉ map difficultyName [EASY; MEDIUM; HARD] →
           getHighScoresByDifficulty name st = []) ∧
  (length (getHighScoresByDifficulty "EASY" st)
   + length (getHighScoresByDifficulty "MEDIUM" st)
   + length (getHighScoresByDifficulty "HARD" st))%nat
    = length (loadHighScores st) ∧
  (∀ name, getHighScoresByDifficulty name st `sublist_of` loadHighScores st).
Proof.
  unfold getHighScoresByDifficulty. split; [|split; [|split]].
  - intros d h. rewrite list_elem_of_In, filter_In, <-list_elem_of_In.
    split.
    + intros [Hin Heq]. split; [done|].
      by apply String.eqb_eq, difficultyName_inj in Heq.
    + intros [Hin <-]. split; [done|apply String.eqb_refl].
  - intros name Hname.
    induction (loadHighScores st) as [|x l IH]; simpl; [done|].
    destruct (String.eqb_spec (difficultyName (hs_difficulty x)) name) as [Heq|_]; [|done].
    destruct Hname. rewrite <-Heq. apply list_elem_of_fmap.
    exists (hs_difficulty x). split; [done|].
    destruct (hs_difficulty x); rewrite !elem_of_cons; tauto.
  - apply filter_by_difficulty_length.
  - intros name. apply filter_sublist_of.
Qed.

End Leaderboard.

(* ===================================================================== *)
(** ** Player statistics *)
(* ===================================================================== *)

Section Statistics.

Lemma updatePlayerStats_stored moves time st h :
  setItemThrows st = false →
  let st' := (updatePlayerStats moves time true st h).1.2 in
  setItemThrows st' = false ∧
  HIGH_SCORES st' = HIGH_SCORES st ∧
  LAST_GAME_STATE st' = LAST_GAME_STATE st ∧
  PLAYER_STATS st' = Some (updatePlayerStats moves time true st h).1.1 ∧
  gamesPlayed (storedStats st') = gamesPlayed (storedStats st) + 1 ∧
  gamesWon (storedStats st') = gamesWon (storedStats st) + 1 ∧
  totalMoves (storedStats st') = totalMoves (storedStats st) + moves ∧
  bestTime (storedStats st') = minInf (bestTime (storedStats st)) time ∧
  bestMoves (storedStats st') = minInf (bestMoves (storedStats st)) moves.
Proof.
  intros Hok. unfold updatePlayerStats, loadPlayerStats, eff_bind, eff_ret,
    saveToStorage, loadFromStorage, storedStats, Date_now.
  rewrite Hok. cbn [fst snd]. 
  destruct (PLAYER_STATS st) as [stats|]; cbn; done.
Qed.

Lemma recordWins_totals games st h :
  setItemThrows st = false →
  let st' := (recordWins games st h).1 in
  setItemThrows st' = false ∧
  HIGH_SCORES st' = HIGH_SCORES st ∧
  LAST_GAME_STATE st' = LAST_GAME_STATE st ∧
  gamesPlayed (storedStats st') = gamesPlayed (storedStats st) + Z.of_nat (length games) ∧
  gamesWon (storedStats st') = gamesWon (storedStats st) + Z.of_nat (length games) ∧
  totalMoves (storedStats st') = totalMoves (storedStats st) + foldr Z.add 0 games.*1 ∧
  bestTime (storedStats st') = leastOf (bestTime (storedStats st)) games.*2 ∧
  bestMoves (storedStats st') = leastOf (bestMoves (storedStats st)) games.*1.
Proof.
  revert st h. induction games as [|[moves time] games IH]; intros st h Hok.
  - cbn. repeat split; try done; lia.
  - cbn [recordWins]. unfold eff_bind.
    pose proof (updatePlayerStats_stored moves time st h Hok) as Hone.
    destruct (updatePlayerStats moves time true st h) as [[stats st1] h1].
    cbn [fst snd] in Hone |- *.
    destruct Hone as (Hok1 & Hhs & Hlg & _ & Hp & Hw & Hm & Hbt & Hbm).
    destruct (IH st1 h1 Hok1) as (Hok' & Hhs' & Hlg' & Hp' & Hw' & Hm' & Hbt' & Hbm').
    rewrite Hp', Hw', Hm', Hbt', Hbm', Hp, Hw, Hm, Hbt, Hbm, Hhs', Hlg'.
    cbn [length fmap list_fmap foldr fst snd leastOf foldl].
    repeat split; try done; lia.
Qed.

Lemma leastOf_Some (a : Z) (l : list Z) :
  ∃ m, leastOf (Some a) l = Some m ∧ m ∈ a :: l ∧ ∀ x, x ∈ a :: l → m ≤ x.
Proof.
  revert a. induction l as [|y l IH]; intros a.
  - exists a. cbn. split; [done|]. split; [left|].
    intros x ->%list_elem_of_singleton. lia.
  - cbn [leastOf foldl minInf]. destruct (IH (Z.min a y)) as (m & Hm & Hin & Hle).
    exists m. split; [done|]. split.
    + apply elem_of_cons in Hin as [->|Hin].
      * destruct (Z.min_spec a y) as [[_ ->]|[_ ->]]; [left|right; left].
      * right. by right.
    + intros x Hx.
      assert (m ≤ Z.min a y) by (apply Hle; left).
      apply elem_of_cons in Hx as [->|[->|Hx]%elem_of_cons]; [lia|lia|].
      apply Hle. by right.
Qed.

Lemma leastOf_None (l : list Z) :
  l ≠ [] → ∃ m, leastOf None l = Some m ∧ m ∈ l ∧ ∀ x, x ∈ l → m ≤ x.
Proof.
  destruct l as [|a l]; [done|]. intros _. apply (leastOf_Some a l).
Qed.

(** X15. The statistics after a series of completed games, recorded on a
    fresh store that takes the writes: games played and won both count the
    games, [totalMoves] adds up their moves, and [bestTime] and [bestMoves]
    are the least time and the least number of moves of the series. *)
Theorem recordWins_statistics (games : list (Z * Z)) (st : Storage) (h : Host) :
  setItemThrows st = false →
  PLAYER_STATS st = None →
  games ≠ [] →
  ∃ stats fastest fewest,
    PLAYER_STATS (recordWins games st h).1 = Some stats ∧
    gamesPlayed stats = Z.of_nat (length games) ∧
    gamesWon stats = Z.of_nat (length games) ∧
    totalMoves stats = foldr Z.add 0 games.*1 ∧
    bestTime stats = Some fastest ∧
    fastest ∈ games.*2 ∧ (∀ t, t ∈ games.*2 → fastest ≤ t) ∧
    bestMoves stats = Some fewest ∧
    fewest ∈ games.*1 ∧ (∀ m, m ∈ games.*1 → fewest ≤ m).
Proof.
  intros Hok Hnone Hgames.
  destruct (recordWins_totals games st h Hok) as (_ & _ & _ & Hp & Hw & Hm & Hbt & Hbm).
  assert (Hstored : ∃ stats, PLAYER_STATS (recordWins games st h).1 = Some stats).
  { destruct games as [|[moves time] rest]; [done|].
    cbn [recordWins]. unfold eff_bind.
    pose proof (updatePlayerStats_stored moves time st h Hok) as (Hok1 & _ & _ & Hs & _).
    destruct (updatePlayerStats moves time true st h) as [[stats1 st1] h1].
    cbn [fst snd] in *.
    clear -Hok1 Hs. revert st1 h1 stats1 Hok1 Hs.
    induction rest as [|[m t] rest IH]; intros st1 h1 stats1 Hok1 Hs.
    - by exists stats1.
    - cbn [recordWins]. unfold eff_bind.
      pose proof (updatePlayerStats_stored m t st1 h1 Hok1) as (Hok2 & _ & _ & Hs2 & _).
      destruct (updatePlayerStats m t true st1 h1) as [[stats2 st2] h2].
      cbn [fst snd] in *. by eapply IH. }
  destruct Hstored as [stats Hstats].
  unfold storedStats in Hp, Hw, Hm, Hbt, Hbm.
  rewrite Hstats, Hnone in Hp, Hw, Hm, Hbt, Hbm.
  cbn [default from_option Datatypes.id gamesPlayed gamesWon totalMoves
       bestTime bestMoves] in Hp, Hw, Hm, Hbt, Hbm.
  rewrite Z.add_0_l in Hp, Hw, Hm.
  destruct (leastOf_None games.*2) as (fastest & Hf & Hfin & Hfle).
  { by destruct games. }
  destruct (leastOf_None games.*1) as (fewest & Hg & Hgin & Hgle).
  { by destruct games. }
  exists stats, fastest, fewest.
  rewrite Hp, Hw, Hm, Hbt, Hbm, Hf, Hg.
  repeat split; try done.
Qed.

Lemma recordWins_statistics_witness :
  ∃ stats fastest fewest,
    PLAYER_STATS (recordWins [(12, 95); (9, 140); (15, 61)] emptyStorage demoHost).1
      = Some stats ∧
    gamesPlayed stats = Z.of_nat (length [(12, 95); (9, 140); (15, 61)]) ∧
    gamesWon stats = Z.of_nat (length [(12, 95); (9, 140); (15, 61)]) ∧
    totalMoves stats = foldr Z.add 0 [(12, 95); (9, 140); (15, 61)].*1 ∧
    bestTime stats = Some fastest ∧
    fastest ∈ [(12, 95); (9, 140); (15, 61)].*2 ∧
    (∀ t, t ∈ [(12, 95); (9, 140); (15, 61)].*2 → fastest ≤ t) ∧
    bestMoves stats = Some fewest ∧
    fewest ∈ [(12, 95); (9, 140); (15, 61)].*1 ∧
    (∀ m, m ∈ [(12, 95); (9, 140); (15, 61)].*1 → fewest ≤ m).
Proof. by apply recordWins_statistics. Defined.

End Statistics.

(* ===================================================================== *)
(** ** Saved games *)
(* ===================================================================== *)

Section SavedGames.

Lemma hoursDifference_24 (now savedAt : N) :
  negb (Qle_bool (inject_Z (Z.of_N now - Z.of_N savedAt) / (1000 * 60 * 60)) 24)
  = (dayMs <? Z.of_N now - Z.of_N savedAt).
Proof.
  apply eq_true_iff_eq. rewrite negb_true_iff, <-not_true_iff_false.
  rewrite Qle_bool_iff, Z.ltb_lt.
  unfold Qle, Qdiv, Qmult, Qinv, inject_Z, dayMs. simpl. lia.
Qed.

(** What [loadGameState] does with a stored state. *)
Lemma loadGameState_stored st g h :
  LAST_GAME_STATE st = Some g →
  (loadGameState st h).1 =
    if dayMs <? Z.of_N (Date_now h).1 - Z.of_N (sg_savedAt g)
    then (None, setLastGameState None st)
    else (Some g, st).
Proof.
  intros Hg. unfold loadGameState, loadFromStorage. rewrite Hg.
  cbn [fmap option_fmap option_map]. unfold eff_bind.
  destruct (Date_now h) as [now h1]. cbn [fst].
  rewrite hoursDifference_24. by destruct (dayMs <? _).
Qed.

Lemma loadGameState_absent st h :
  LAST_GAME_STATE st = None → loadGameState st h = ((None, st), h).
Proof. intros Hg. unfold loadGameState, loadFromStorage. by rewrite Hg. Qed.

(** X16. Pausing a game in progress stores its state, stamped with the
    time of the pause, on a store that takes the write.  [loadGameState]
    returns that state, and [hasSavedGame] answers yes, as long as no more
    than 24 hours have passed; after that both find nothing and the stored
    state is removed for good. *)
Theorem paused_game_is_kept_for_a_day (w : World) (later : Host) :
  isGameStarted (session w) = true →
  isGameComplete (session w) = false →
  setItemThrows (storage w) = false →
  let savedAt := (Date_now (host w)).1 in
  let now := (Date_now later).1 in
  let st := storage (pauseGame w) in
  LAST_GAME_STATE st = Some (snapshot w savedAt) ∧
  (Z.of_N now - Z.of_N savedAt ≤ dayMs →
     (loadGameState st later).1 = (Some (snapshot w savedAt), st) ∧
     (hasSavedGame st later).1 = (true, st)) ∧
  (dayMs < Z.of_N now - Z.of_N savedAt →
     (loadGameState st later).1 = (None, setLastGameState None st) ∧
     (hasSavedGame st later).1 = (false, setLastGameState None st) ∧
     ∀ h, (hasSavedGame (setLastGameState None st) h).1.1 = false).
Proof.
  intros Hstarted Hcomplete Hok savedAt now st.
  assert (Hst : LAST_GAME_STATE st = Some (snapshot w savedAt)).
  { unfold st, pauseGame. rewrite Hstarted, Hcomplete. simpl.
    unfold saveGameState, saveToStorage, eff_bind, eff_ret. simpl.
    by rewrite Hok. }
  split; [done|].
  pose proof (loadGameState_stored st _ later Hst) as Hload.
  change (sg_savedAt (snapshot w savedAt)) with savedAt in Hload.
  fold now in Hload.
  split.
  - intros Hle. apply Z.ltb_ge in Hle. rewrite Hle in Hload.
    split; [done|]. unfold hasSavedGame, eff_bind.
    destruct (loadGameState st later) as [[loaded st1] h1]. simpl in *.
    by injection Hload as -> ->.
  - intros Hlt. apply Z.ltb_lt in Hlt. rewrite Hlt in Hload.
    split; [done|]. split.
    + unfold hasSavedGame, eff_bind.
      destruct (loadGameState st later) as [[loaded st1] h1]. simpl in *.
      by injection Hload as -> ->.
    + intros h. unfold hasSavedGame, eff_bind.
      by rewrite loadGameState_absent.
Qed.

Lemma paused_game_is_kept_for_a_day_witness :
  let w := afterFirstClick in
  let later := pausedGameHost in
  let savedAt := (Date_now (host w)).1 in
  let now := (Date_now later).1 in
  let st := storage (pauseGame w) in
  LAST_GAME_STATE st = Some (snapshot w savedAt) ∧
  (Z.of_N now - Z.of_N savedAt ≤ dayMs →
     (loadGameState st later).1 = (Some (snapshot w savedAt), st) ∧
     (hasSavedGame st later).1 = (true, st)) ∧
  (dayMs < Z.of_N now - Z.of_N savedAt →
     (loadGameState st later).1 = (None, setLastGameState None st) ∧
     (hasSavedGame st later).1 = (false, setLastGameState None st) ∧
     ∀ h, (hasSavedGame (setLastGameState None st) h).1.1 = false).
Proof.
  apply (paused_game_is_kept_for_a_day afterFirstClick pausedGameHost);
    vm_compute; reflexivity.
Defined.

End SavedGames.

(* ===================================================================== *)
(** ** Settings and theme *)
(* ===================================================================== *)

Section Settings.
Import Preferences.

Lemma updateSetting_stored u st :
  setItemThrows (gameKeys st) = false →
  (updateSetting u st).1 = true ∧
  loadGameSettings (updateSetting u st).2 = withSetting u (loadGameSettings st) ∧
  otherKeys (updateSetting u st).2 = otherKeys st ∧
  setItemThrows (gameKeys (updateSetting u st).2) = false.
Proof.
  intros Hok. unfold updateSetting, saveGameSettings, saveToStore.
  rewrite Hok. done.
Qed.

(** X17. On a store that takes the write, [toggleSound], [toggleMusic] and
    [toggleTheme] each change their own setting and nothing else, in the
    settings or in the rest of the store; toggling twice restores the
    settings. *)
Theorem toggles_flip_one_setting (st : Store) :
  setItemThrows (gameKeys st) = false →
  let s := loadGameSettings st in
  loadGameSettings (toggleSound st).2 = withSetting (SoundEnabled (negb (soundEnabled s))) s ∧
  loadGameSettings (toggleMusic st).2 = withSetting (MusicEnabled (negb (musicEnabled s))) s ∧
  theme (loadGameSettings (toggleTheme st).2) ≠ theme s ∧
  withSetting (ThemeSetting (theme s)) (loadGameSettings (toggleTheme st).2) = s ∧
  loadGameSettings (toggleSound (toggleSound st).2).2 = s ∧
  loadGameSettings (toggleMusic (toggleMusic st).2).2 = s ∧
  loadGameSettings (toggleTheme (toggleTheme st).2).2 = s ∧
  otherKeys (toggleSound st).2 = otherKeys st ∧
  otherKeys (toggleMusic st).2 = otherKeys st ∧
  otherKeys (toggleTheme st).2 = otherKeys st.
Proof.
  intros Hok s. subst s.
  unfold toggleSound, toggleMusic, toggleTheme, updateSetting, saveGameSettings,
    saveToStore, loadGameSettings, loadFromStore, otherKeys.
  rewrite Hok. cbn. rewrite Hok. cbn.
  destruct (GAME_SETTINGS st) as [[snd mus [] tim dly]|]; cbn;
    rewrite ?negb_involutive; repeat split; done.
Qed.

Lemma toggles_flip_one_setting_witness :
  let s := loadGameSettings demoStore in
  loadGameSettings (toggleSound demoStore).2 = withSetting (SoundEnabled (negb (soundEnabled s))) s ∧
  loadGameSettings (toggleMusic demoStore).2 = withSetting (MusicEnabled (negb (musicEnabled s))) s ∧
  theme (loadGameSettings (toggleTheme demoStore).2) ≠ theme s ∧
  withSetting (ThemeSetting (theme s)) (loadGameSettings (toggleTheme demoStore).2) = s ∧
  loadGameSettings (toggleSound (toggleSound demoStore).2).2 = s ∧
  loadGameSettings (toggleMusic (toggleMusic demoStore).2).2 = s ∧
  loadGameSettings (toggleTheme (toggleTheme demoStore).2).2 = s ∧
  otherKeys (toggleSound demoStore).2 = otherKeys demoStore ∧
  otherKeys (toggleMusic demoStore).2 = otherKeys demoStore ∧
  otherKeys (toggleTheme demoStore).2 = otherKeys demoStore.
Proof. apply toggles_flip_one_setting. reflexivity. Defined.

(** X18. After [clearAllGameData] every reader finds its default: an empty
    leaderboard that accepts any score, no saved game, statistics that
    count no game, the default settings, no player name, and the system's
    theme at start-up. *)
Theorem clearAllGameData_restores_defaults (st : Store) :
  let st' := (clearAllGameData st).2 in
  (clearAllGameData st).1 = true ∧
  loadHighScores (gameKeys st') = [] ∧
  getPersonalBest (gameKeys st') = None ∧
  (∀ score, isHighScore score (gameKeys st') = true) ∧
  (∀ h, loadGameState (gameKeys st') h = ((None, gameKeys st'), h)) ∧
  (∀ h, (hasSavedGame (gameKeys st') h).1.1 = false) ∧
  (∀ h, gamesPlayed (loadPlayerStats (gameKeys st') h).1 = 0) ∧
  loadGameSettings st' = DEFAULT_SETTINGS ∧
  loadPlayerName st' = "" ∧
  hasPlayerName st' = false ∧
  (∀ prefersDark, initializeTheme prefersDark st' = prefersDark) ∧
  setItemThrows (gameKeys st') = setItemThrows (gameKeys st).
Proof.
  cbn. repeat split; try done. by intros [].
Qed.

(** X19. [saveThemePreference] stores the theme as JSON text, quotes
    included, and [initializeTheme] compares the stored text with the bare
    word: after a theme has been saved, light or dark, the start-up never
    selects the dark theme, whatever the system prefers. *)
Theorem saved_theme_is_not_applied (t : Theme) (prefersDark : bool) (st : Store) :
  setItemThrows (gameKeys st) = false →
  let st' := (saveThemePreference t st).2 in
  THEME_PREFERENCE st' = Some (JSON_stringify (themeName t)) ∧
  initializeTheme prefersDark st' = false.
Proof.
  intros Hok. unfold saveThemePreference, saveToStore. rewrite Hok.
  by destruct t.
Qed.

Lemma saved_theme_is_not_applied_witness :
  let st' := (saveThemePreference dark demoStore).2 in
  THEME_PREFERENCE st' = Some (JSON_stringify (themeName dark)) ∧
  initializeTheme true st' = false.
Proof. apply saved_theme_is_not_applied. reflexivity. Defined.

End Settings.

(* ===================================================================== *)
(** ** Game engine: what every state satisfies *)
(* ===================================================================== *)

Section Reachable.

Lemma isGameWon_map (f : Card → Card) l :
  (∀ c, isMatched c = true → isMatched (f c) = true) →
  isGameWon l = true → isGameWon (map f l) = true.
Proof.
  intros Hf. unfold isGameWon. rewrite length_map.
  intros [Hlen Hall]%andb_true_iff. rewrite Hlen. simpl.
  rewrite forallb_forall in Hall |- *.
  intros c' (c & <- & Hc)%in_map_iff. by apply Hf, Hall.
Qed.

Lemma isGameWon_flipCard cardId l :
  isGameWon l = true → isGameWon (flipCard cardId l) = true.
Proof.
  apply isGameWon_map. intros c Hc. by destruct (String.eqb _ _).
Qed.

Lemma isGameWon_unflipCards ids l :
  isGameWon l = true → isGameWon (unflipCards ids l) = true.
Proof.
  apply isGameWon_map. intros c Hc. by destruct (includes _ _).
Qed.

Lemma isGameWon_markCardsAsMatched ids l :
  isGameWon l = true → isGameWon (markCardsAsMatched ids l) = true.
Proof.
  apply isGameWon_map. intros c Hc. by destruct (includes _ _).
Qed.

Lemma canFlipCard_true s card :
  canFlipCard s card = true →
  isGameStarted s = true ∧ isGameComplete s = false ∧ isGamePaused s = false ∧
  isProcessing s = false ∧ isMatched card = false ∧ isFlipped card = false ∧
  (length (flippedCards s) < 2)%nat.
Proof.
  unfold canFlipCard.
  destruct (isGameStarted s), (isGameComplete s), (isGamePaused s),
    (isProcessing s), (isMatched card), (isFlipped card); cbn [negb orb];
    try done.
  destruct (2 <=? length (flippedCards s))%nat eqn:Hlen; [done|].
  apply Nat.leb_gt in Hlen. by intros _.
Qed.

Ltac crush_tidy :=
  unfold Tidy;
  cbn -[Z.add Z.max Z.min calculateScore isGameWon flipCard unflipCards
        markCardsAsMatched];
  intuition (try done; try lia;
             auto using isGameWon_flipCard, isGameWon_unflipCards,
               isGameWon_markCardsAsMatched).

Lemma handleCardClick_Tidy cardId w : Tidy w → Tidy (handleCardClick cardId w).
Proof.
  intros HT. unfold handleCardClick.
  destruct (List.find _ _) as [card|]; [|done].
  destruct (canFlipCard _ _) eqn:Hcan; [|done].
  apply canFlipCard_true in Hcan as (Hs & Hc & Hp & Hpr & _ & _ & Hlen).
  destruct HT as (_ & _ & Href & _). rewrite Hc in Href.
  cbn [negb]. rewrite Hs. cbn [negb]. unfold notify.
  destruct (onFlip (options w));
    destruct (flippedCards (session w)) as [|a [|b l]]; simpl in Hlen; try lia;
    unfold Tidy; cbn -[isGameWon flipCard]; rewrite Hc, <-Href;
    repeat split; try done; try lia.
Qed.

Lemma startGame_Tidy w : Tidy w → Tidy (startGame w).
Proof. unfold startGame. crush_tidy. Qed.

Lemma initializeGame_session w :
  ∃ newCards h ref,
    generateCards (difficulty (options w)) (themeId (options w)) (host w)
      = (newCards, h) ∧
    session (initializeGame w)
      = mkSession newCards [] 0 0 0 false false false false ref false ∧
    options (initializeGame w) = options w ∧
    storage (initializeGame w) = storage w ∧
    notifications (initializeGame w) = notifications w.
Proof.
  unfold initializeGame.
  destruct (generateCards _ _ _) as [newCards h].
  exists newCards, h.
  cbn -[generateCards].
  destruct (processingTimeoutRef (session w)) as [t|]; eexists; done.
Qed.

Lemma resetGame_Tidy w : Tidy (resetGame w).
Proof.
  unfold resetGame.
  destruct (initializeGame_session w) as (newCards & h & ref & _ & Hs & _ & _).
  unfold Tidy. cbn. rewrite Hs. cbn. repeat split; try done; lia.
Qed.

Lemma pauseGame_Tidy w : Tidy w → Tidy (pauseGame w).
Proof.
  intros HT. unfold pauseGame.
  destruct (isGameStarted (session w)); [|done].
  destruct (isGameComplete (session w)) eqn:Hc; [done|]. cbn [negb orb].
  destruct (saveGameState _ _ _) as [[ok st] h].
  destruct HT as (H1 & H2 & H3 & H4). rewrite Hc in H3.
  unfold Tidy. cbn -[isGameWon]. rewrite Hc. repeat split; done.
Qed.

Lemma resumeGame_Tidy w : Tidy w → Tidy (resumeGame w).
Proof. unfold resumeGame. destruct (negb _); [done|]. crush_tidy. Qed.

Lemma autoSave_Tidy w : Tidy w → Tidy (autoSave w).
Proof.
  intros HT. unfold autoSave, saveSnapshot.
  destruct (isGameStarted (session w)); [|done].
  destruct (isGameComplete (session w)) eqn:Hc; [done|].
  destruct (isGamePaused (session w)); [done|]. cbn [negb orb].
  destruct (saveGameState _ _ _) as [[ok st] h].
  destruct HT as (H1 & H2 & H3 & H4).
  unfold Tidy. cbn -[isGameWon]. rewrite Hc in *. repeat split; done.
Qed.

Lemma wait_Tidy ms w : Tidy w → Tidy (wait ms w).
Proof. unfold wait. crush_tidy. Qed.

Lemma fireTimeout_Tidy w : Tidy w → Tidy (fireTimeout w).
Proof.
  intros HT. unfold fireTimeout.
  destruct (popEarliest (pending w)) as [[t rest]|]; [|done].
  destruct (callback t) as [c1 c2 mp mv tm|c1 c2|stats|cardId|c1 c2];
    cbn [runCallback].
  - destruct (checkCardsMatch c1 c2).
    + unfold handleMatch, notify. destruct (onMatch _); revert HT; crush_tidy.
    + unfold handleNoMatch. revert HT. crush_tidy.
  - unfold notify. cbn [options]. destruct (onNoMatch _); revert HT; crush_tidy.
  - revert HT. crush_tidy.
  - unfold notify. cbn [options]. destruct (onFlip _); revert HT; crush_tidy.
  - destruct (checkCardsMatch c1 c2); [|revert HT; crush_tidy].
    unfold notify. cbn [options withSession].
    destruct (onMatch _); revert HT; unfold Tidy;
      cbn -[isGameWon]; intros (H1 & H2 & H3 & H4);
      (repeat split; try done; try lia);
      try (apply isGameWon_map; [|by apply H4];
           intros c Hc; by destruct (_ || _));
      by apply H4.
Qed.

Lemma handleEvent_Tidy e w : Tidy w → Tidy (handleEvent e w).
Proof.
  intros HT. destruct e as [cardId| | | | | |ms| |]; cbn [handleEvent].
  - by apply handleCardClick_Tidy.
  - by apply startGame_Tidy.
  - apply resetGame_Tidy.
  - by apply pauseGame_Tidy.
  - by apply resumeGame_Tidy.
  - by apply fireTimeout_Tidy.
  - by apply wait_Tidy.
  - revert HT. unfold withTimer. crush_tidy.
  - by apply autoSave_Tidy.
Qed.

(** What the completion transition leaves in the session and the store. *)
Lemma handleGameCompletion_session w :
  gameCompleteTriggeredRef (session w) = false →
  let w' := handleGameCompletion w in
  session w' =
    setScore (calculateScore (moves (session w)) (time (timer w))
                (difficulty (options w)) (matchedPairs (session w)))
      (setIsGameComplete true (setGameCompleteTriggeredRef true (session w))) ∧
  LAST_GAME_STATE (storage w') = None ∧
  options w' = options w ∧
  (∀ t, t ∈ pending w' → t ∈ pending w ∨ schedulesCompletion t = true).
Proof.
  intros Href. unfold handleGameCompletion. rewrite Href.
  cbn -[calculateScore isHighScore updatePlayerStats getCongratulationsMessage generateId].
  set (finalScore := calculateScore _ _ _ _).
  destruct (isHighScore finalScore (storage w));
    cbn -[calculateScore isHighScore updatePlayerStats getCongratulationsMessage generateId].
  - destruct (generateId (host w)) as [newId h1].
    destruct (updatePlayerStats _ _ _ _ _) as [[stats st] h2].
    destruct (onGameComplete (options w));
      cbn -[calculateScore getCongratulationsMessage]; repeat split; auto;
      intros t [Ht|Ht%list_elem_of_singleton]%elem_of_app; subst; auto.
  - destruct (updatePlayerStats _ _ _ _ _) as [[stats st] h2].
    destruct (onGameComplete (options w));
      cbn -[calculateScore getCongratulationsMessage]; repeat split; auto;
      intros t [Ht|Ht%list_elem_of_singleton]%elem_of_app; subst; auto.
Qed.

Lemma completionEffect_Tidy w : Tidy w → Tidy (completionEffect w).
Proof.
  intros HT. unfold completionEffect.
  destruct (isGameStarted (session w)) eqn:Hs; [|done].
  destruct (isGameComplete (session w)) eqn:Hc; [done|].
  destruct (gameCompleteTriggeredRef (session w)) eqn:Hr; [done|].
  destruct (0 <? length (cards (session w)))%nat; [|done].
  destruct (isGameWon (cards (session w))) eqn:Hw; [|done].
  cbn [negb andb].
  destruct (handleGameCompletion_session w Hr) as (Hsess & Hst & _).
  destruct HT as (H1 & H2 & _).
  unfold Tidy. rewrite Hsess, Hst. cbn -[isGameWon calculateScore].
  repeat split; done.
Qed.

Lemma autoFlipEffect_Tidy w : Tidy w → Tidy (autoFlipEffect w).
Proof.
  intros HT. unfold autoFlipEffect.
  destruct (_ && _); [|done].
  destruct (List.filter _ _) as [|a [|b [|c l]]]; try done.
  revert HT. crush_tidy.
Qed.

Lemma runEffects_Tidy w : Tidy w → Tidy (runEffects w).
Proof. intros HT. by apply autoFlipEffect_Tidy, completionEffect_Tidy. Qed.

Lemma step_Tidy w e : Tidy w → Tidy (step w e).
Proof. intros HT. by apply runEffects_Tidy, handleEvent_Tidy. Qed.

Lemma run_Tidy events w : Tidy w → Tidy (run events w).
Proof.
  revert w. induction events as [|e events IH]; intros w HT; [done|].
  simpl. by apply IH, step_Tidy.
Qed.

Lemma mount_Tidy o st h : Tidy (mount o st h).
Proof.
  unfold mount. apply runEffects_Tidy.
  match goal with |- Tidy (initializeGame ?w0) => set (w := w0) end.
  destruct (initializeGame_session w) as (newCards & h' & ref & _ & Hs & _ & _).
  unfold Tidy. rewrite Hs. cbn. repeat split; try done; lia.
Qed.

(** After the effects have run, a started game with every card matched is
    complete. *)
Lemma runEffects_settled w :
  Tidy w →
  let s := session (runEffects w) in
  isGameStarted s = true → isGameWon (cards s) = true → isGameComplete s = true.
Proof.
  intros (_ & _ & Href & _). unfold runEffects.
  assert (Hauto : ∀ w', session (autoFlipEffect w') = session w' ∨
    session (autoFlipEffect w') = setIsProcessing true (session w')).
  { intros w'. unfold autoFlipEffect.
    destruct (_ && _); [|by left].
    destruct (List.filter _ _) as [|a [|b [|c l]]]; try by left.
    by right. }
  assert (Hfields : ∀ w', isGameStarted (session (autoFlipEffect w')) = isGameStarted (session w') ∧
     cards (session (autoFlipEffect w')) = cards (session w') ∧
     isGameComplete (session (autoFlipEffect w')) = isGameComplete (session w')).
  { intros w'. by destruct (Hauto w') as [-> | ->]. }
  destruct (Hfields (completionEffect w)) as (-> & -> & ->).
  unfold completionEffect.
  destruct (isGameStarted (session w)) eqn:Hs; [|simpl; by rewrite Hs].
  destruct (isGameComplete (session w)) eqn:Hc; [simpl; by rewrite Hc|].
  rewrite <-Href. cbn [negb andb].
  destruct (isGameWon (cards (session w))) eqn:Hw.
  - assert (Hlen : (0 <? length (cards (session w)))%nat = true).
    { unfold isGameWon in Hw. by apply andb_true_iff in Hw as [? _]. }
    rewrite Hlen. cbn [andb].
    assert (Hr : gameCompleteTriggeredRef (session w) = false) by congruence.
    destruct (handleGameCompletion_session w Hr) as (Hsess & _).
    rewrite Hsess. done.
  - rewrite andb_false_r. by rewrite Hw.
Qed.

Lemma run_app events1 events2 w :
  run (events1 ++ events2) w = run events2 (run events1 w).
Proof. unfold run. by rewrite foldl_app. Qed.

Lemma run_snoc events e w : run (events ++ [e]) w = step (run events w) e.
Proof. by rewrite run_app. Qed.

Lemma reachable_settled o st h events :
  ∃ w', Tidy w' ∧ run events (mount o st h) = runEffects w'.
Proof.
  destruct events as [|e events _] using rev_ind.
  - eexists. split; [|reflexivity].
    match goal with |- Tidy (initializeGame ?w0) => set (w := w0) end.
    destruct (initializeGame_session w) as (newCards & h' & ref & _ & Hs & _ & _).
    unfold Tidy. rewrite Hs. cbn. repeat split; try done; lia.
  - rewrite run_snoc. eexists. split; [|reflexivity].
    apply handleEvent_Tidy, run_Tidy, mount_Tidy.
Qed.

(** X20. In every state of a mounted game, whatever the events, at most
    two cards are held for comparison, and while two are held the engine is
    processing. *)
Theorem at_most_two_cards_compared (o : Options) (st : Storage) (h : Host)
    (events : list Event) :
  let s := session (run events (mount o st h)) in
  (length (flippedCards s) ≤ 2)%nat ∧
  (length (flippedCards s) = 2%nat → isProcessing s = true).
Proof.
  intros s. destruct (run_Tidy events _ (mount_Tidy o st h)) as (H1 & H2 & _).
  done.
Qed.

(** X21. The completion flag and the deck.  In every state in which a
    mounted game waits for the next event, that is once the effects of the
    last update have run, [isGameComplete] holds exactly when the game has
    been started and all cards of its (non-empty) deck are matched.  In
    the render between a handler's update and its effects the flag can
    still be down with every card matched, but it is never up without:
    there too a complete game has been started and has all its cards
    matched. *)
Theorem complete_iff_all_matched (o : Options) (st : Storage) (h : Host)
    (events : list Event) :
  let w := run events (mount o st h) in
  isGameComplete (session w)
    = isGameStarted (session w) && isGameWon (cards (session w)) ∧
  ∀ e, let rendered := session (handleEvent e w) in
    isGameComplete rendered = true →
    isGameStarted rendered = true ∧ isGameWon (cards rendered) = true.
Proof.
  intros w. pose proof (run_Tidy events _ (mount_Tidy o st h)) as HT.
  fold w in HT. split.
  - destruct HT as (_ & _ & _ & H4).
    destruct (isGameComplete (session w)) eqn:Hc.
    + destruct (H4 eq_refl) as (-> & -> & _). done.
    + destruct (reachable_settled o st h events) as (w' & HT' & Hrun).
      pose proof (runEffects_settled w' HT') as Hsettled.
      rewrite <-Hrun in Hsettled. fold w in Hsettled. cbv zeta in Hsettled.
      destruct (isGameStarted (session w)); [|done].
      destruct (isGameWon (cards (session w))); [|done].
      rewrite Hsettled in Hc; done.
  - intros e rendered Hc.
    destruct (handleEvent_Tidy e w HT) as (_ & _ & _ & H4).
    destruct (H4 Hc) as (Hs & Hw & _). done.
Qed.

(** Between the update that matches the last pair and the effects, a game
    is started and won and not yet complete. *)
Lemma all_matched_before_completion :
  isGameStarted (session allMatched) = true ∧
  isGameWon (cards (session allMatched)) = true ∧
  isGameComplete (session allMatched) = false.
Proof. vm_compute. done. Qed.

(** X22. A complete game is never kept for resuming: in every state of a
    mounted game in which the game is complete, the store holds no saved
    game, whether or not the game was paused and saved on the way. *)
Theorem finished_game_is_not_kept (o : Options) (st : Storage) (h : Host)
    (events : list Event) :
  isGameComplete (session (run events (mount o st h))) = true →
  LAST_GAME_STATE (storage (run events (mount o st h))) = None.
Proof.
  intros Hc.
  destruct (run_Tidy events _ (mount_Tidy o st h)) as (_ & _ & _ & H4).
  by apply H4.
Qed.

Lemma finished_game_is_not_kept_witness :
  isGameComplete (session (run pausedAndFinished freshGame)) = true ∧
  LAST_GAME_STATE (storage (run pausedAndFinished freshGame)) = None.
Proof.
  split; [vm_compute; reflexivity|].
  apply (finished_game_is_not_kept (demoOptions EASY) emptyStorage demoHost).
  vm_compute. reflexivity.
Defined.

End Reachable.

(* ===================================================================== *)
(** ** Game engine: the deck during play *)
(* ===================================================================== *)

Section NoReset.

Lemma sameCard_refl c : sameCard c c.
Proof. by unfold sameCard. Qed.

Lemma sameCard_trans c1 c2 c3 : sameCard c1 c2 → sameCard c2 c3 → sameCard c1 c3.
Proof.
  unfold sameCard. intros (?&?&?&?&?) (?&?&?&?&?).
  repeat split; try congruence. auto.
Qed.

Lemma sameCards_refl l : Forall2 sameCard l l.
Proof. induction l; constructor; [apply sameCard_refl|done]. Qed.

Lemma sameCards_map (f : Card → Card) l :
  (∀ c, sameCard c (f c)) → Forall2 sameCard l (map f l).
Proof. intros Hf. induction l; simpl; constructor; [apply Hf|done]. Qed.

Lemma sameCards_flipCard cardId l : Forall2 sameCard l (flipCard cardId l).
Proof.
  apply sameCards_map. intros c. destruct (String.eqb _ _); by unfold sameCard.
Qed.

Lemma sameCards_unflipCards ids l : Forall2 sameCard l (unflipCards ids l).
Proof.
  apply sameCards_map. intros c. destruct (includes _ _); by unfold sameCard.
Qed.

Lemma sameCards_markCardsAsMatched ids l :
  Forall2 sameCard l (markCardsAsMatched ids l).
Proof.
  apply sameCards_map. intros c. destruct (includes _ _); by unfold sameCard.
Qed.

Lemma PlayedOn_refl w : PlayedOn w w.
Proof. unfold PlayedOn. split; [apply sameCards_refl|]. repeat split; lia || done. Qed.

Lemma PlayedOn_trans w1 w2 w3 : PlayedOn w1 w2 → PlayedOn w2 w3 → PlayedOn w1 w3.
Proof.
  unfold PlayedOn. intros (Hc & ? & ? & ?) (Hc' & ? & ? & ?).
  split; [|repeat split; try lia; congruence].
  clear -Hc Hc'. revert Hc'. generalize (cards (session w3)).
  induction Hc as [|c1 c2 l1 l2 Hcc Hll IH]; intros l3 Hc'.
  - by inversion Hc'.
  - inversion Hc' as [|? c3 ? l3' Hcc' Hll']; subst.
    constructor; [by eapply sameCard_trans|by apply IH].
Qed.

Ltac crush_played :=
  unfold PlayedOn;
  cbn -[Z.add Z.max Z.min calculateScore flipCard unflipCards markCardsAsMatched];
  repeat split; try done; try lia;
  auto using sameCards_refl, sameCards_flipCard, sameCards_unflipCards,
    sameCards_markCardsAsMatched.

Lemma handleCardClick_PlayedOn cardId w : PlayedOn w (handleCardClick cardId w).
Proof.
  unfold handleCardClick.
  destruct (List.find _ _) as [card|]; [|apply PlayedOn_refl].
  destruct (canFlipCard _ _); [|apply PlayedOn_refl]. cbn [negb].
  unfold notify.
  destruct (isGameStarted (session w)), (onFlip (options w)),
    (flippedCards (session w) ++ [card]) as [|a [|b [|c l]]];
    crush_played.
Qed.

Lemma fireTimeout_PlayedOn w : PlayedOn w (fireTimeout w).
Proof.
  unfold fireTimeout.
  destruct (popEarliest (pending w)) as [[t rest]|]; [|apply PlayedOn_refl].
  destruct (callback t) as [c1 c2 mp mv tm|c1 c2|stats|cardId|c1 c2];
    cbn [runCallback].
  - destruct (checkCardsMatch c1 c2).
    + unfold handleMatch, notify. destruct (onMatch _); crush_played.
    + unfold handleNoMatch. crush_played.
  - unfold notify. cbn [options]. destruct (onNoMatch _); crush_played.
  - crush_played.
  - unfold notify. cbn [options]. destruct (onFlip _); crush_played.
  - destruct (checkCardsMatch c1 c2); [|crush_played].
    unfold notify. cbn [options withSession].
    destruct (onMatch _); unfold PlayedOn; cbn; repeat split; try done; try lia;
      apply sameCards_map; intros c; destruct (_ || _); by unfold sameCard.
Qed.

Lemma handleEvent_PlayedOn e w : e ≠ ResetGame → PlayedOn w (handleEvent e w).
Proof.
  intros Hne. destruct e as [cardId| | | | | |ms| |]; cbn [handleEvent].
  - apply handleCardClick_PlayedOn.
  - unfold startGame. crush_played.
  - by destruct Hne.
  - unfold pauseGame. destruct (negb _ || _); [apply PlayedOn_refl|].
    destruct (saveGameState _ _ _) as [[ok st] h]. crush_played.
  - unfold resumeGame. destruct (negb _); crush_played.
  - apply fireTimeout_PlayedOn.
  - unfold wait. crush_played.
  - unfold withTimer. crush_played.
  - unfold autoSave, saveSnapshot. destruct (negb _ || _ || _); [apply PlayedOn_refl|].
    destruct (saveGameState _ _ _) as [[ok st] h]. crush_played.
Qed.

Lemma runEffects_PlayedOn w : PlayedOn w (runEffects w).
Proof.
  unfold runEffects. apply (PlayedOn_trans _ (completionEffect w)).
  - unfold completionEffect. cbv zeta.
    destruct (gameCompleteTriggeredRef (session w)) eqn:Hr.
    { cbn [negb]. rewrite !andb_false_r. cbn [andb]. apply PlayedOn_refl. }
    destruct (_ && _); [|apply PlayedOn_refl].
    destruct (handleGameCompletion_session w Hr) as (Hs & _ & Ho & _).
    unfold PlayedOn. rewrite Hs, Ho. cbn -[calculateScore].
    repeat split; try done; try lia. apply sameCards_refl.
  - unfold autoFlipEffect.
    destruct (_ && _); [|apply PlayedOn_refl].
    destruct (List.filter _ _) as [|a [|b [|c l]]]; crush_played.
Qed.

Lemma step_PlayedOn w e : e ≠ ResetGame → PlayedOn w (step w e).
Proof.
  intros Hne. unfold step. eapply PlayedOn_trans;
    [by apply handleEvent_PlayedOn|apply runEffects_PlayedOn].
Qed.

Lemma no_reset_PlayedOn (w : World) (events : list Event) :
  ResetGame ∉ events → PlayedOn w (run events w).
Proof.
  revert w. induction events as [|e events IH]; intros w Hno.
  - apply PlayedOn_refl.
  - apply not_elem_of_cons in Hno as [Hne Hno]. simpl.
    eapply PlayedOn_trans; [by apply step_PlayedOn|by apply IH].
Qed.

(** X23. Short of a reset, play keeps the deck and takes no progress back:
    the cards stay the same cards in the same places (id, value, picture
    and pair), a matched card stays matched, and [moves] and [matchedPairs]
    never go down. *)
Theorem play_keeps_the_deck (w : World) (events : list Event) :
  ResetGame ∉ events → PlayedOn w (run events w).
Proof. apply no_reset_PlayedOn. Qed.

Lemma play_keeps_the_deck_witness : PlayedOn freshGame (run fullGame freshGame).
Proof.
  apply play_keeps_the_deck.
  apply (bool_decide_unpack (ResetGame ∉ fullGame)). vm_compute. reflexivity.
Defined.

(** X24. A reset, from any state, starts afresh: a newly generated deck of
    the game's difficulty and theme, face down and unmatched, counters and
    score at zero, the game neither started, complete, paused nor
    processing, and no saved game; the leaderboard and the statistics are
    kept. *)
Theorem resetGame_starts_afresh (w : World) :
  let w' := step w ResetGame in
  let s := session w' in
  DeckShape (difficulty (options w)) (cards s) ∧
  cards s = (generateCards (difficulty (options w)) (themeId (options w)) (host w)).1 ∧
  flippedCards s = [] ∧ matchedPairs s = 0 ∧ moves s = 0 ∧ score s = 0 ∧
  isGameStarted s = false ∧ isGameComplete s = false ∧
  isGamePaused s = false ∧ isProcessing s = false ∧
  gameCompleteTriggeredRef s = false ∧
  LAST_GAME_STATE (storage w') = None ∧
  HIGH_SCORES (storage w') = HIGH_SCORES (storage w) ∧
  PLAYER_STATS (storage w') = PLAYER_STATS (storage w) ∧
  notifications w' = notifications w.
Proof.
  intros w' s. subst s w'. unfold step. cbn [handleEvent].
  assert (Hstarted : isGameStarted (session (resetGame w)) = false).
  { unfold resetGame.
    destruct (initializeGame_session w) as (newCards & h & ref & _ & Hs & _).
    cbn. by rewrite Hs. }
  rewrite (runEffects_not_started _ Hstarted).
  unfold resetGame.
  destruct (initializeGame_session w) as (newCards & h & ref & Hgen & Hs & Ho & Hst & Hn).
  cbn [session withStorage storage notifications].
  rewrite Hs, Hst, Hn. cbn.
  pose proof (generateCards_shape_and_ids (difficulty (options w))
                (themeId (options w)) (host w)) as [Hshape _].
  rewrite Hgen in Hshape |- *. cbn [fst] in *.
  split; [exact Hshape|]. repeat split; done.
Qed.

End NoReset.

(* ===================================================================== *)
(** ** Game engine: a turn *)
(* ===================================================================== *)

Section Turns.

Lemma isGameWon_flipCard_eq cardId l : isGameWon (flipCard cardId l) = isGameWon l.
Proof.
  unfold isGameWon, flipCard. rewrite length_map. f_equal.
  induction l as [|c l IH]; simpl; [done|].
  rewrite IH. by destruct (String.eqb _ _).
Qed.

Lemma flipCard_ids cardId l : map id (flipCard cardId l) = map id l.
Proof.
  unfold flipCard. rewrite map_map. apply map_ext. intros c.
  by destruct (String.eqb _ _).
Qed.

Lemma flipCard_other cardId l c :
  c ∈ l → id c ≠ cardId → c ∈ flipCard cardId l.
Proof.
  intros Hin Hne. apply list_elem_of_fmap. exists c. split; [|done].
  by rewrite (proj2 (String.eqb_neq _ _) Hne).
Qed.

Lemma not_won_with_unmatched l c :
  c ∈ l → isMatched c = false → isGameWon l = false.
Proof.
  intros Hin Hm. unfold isGameWon. apply andb_false_iff. right.
  apply not_true_iff_false. rewrite forallb_forall. intros Hall.
  apply list_elem_of_In in Hin. by rewrite (Hall _ Hin) in Hm.
Qed.

(** With more than the last pair left and a card still unmatched, no effect
    does anything. *)
Lemma runEffects_many_left w :
  isGameWon (cards (session w)) = false →
  Qeq_bool (totalPairs (session w) - inject_Z (matchedPairs (session w))) 1 = false →
  runEffects w = w.
Proof.
  intros Hwon Hmany. unfold runEffects, completionEffect.
  rewrite Hwon, !andb_false_r. unfold autoFlipEffect.
  by rewrite Hmany, !andb_false_r.
Qed.

Lemma eta_face_down c :
  isFlipped c = false →
  mkCard (id c) (value c) (imageUrl c) false (isMatched c) (pairId c) = c.
Proof. destruct c. simpl. by intros ->. Qed.

(** Turning two face-down cards up and back restores the deck. *)
Lemma unflip_restores (l : list Card) card1 card2 :
  NoDup (map id l) → card1 ∈ l → card2 ∈ l →
  isFlipped card1 = false → isFlipped card2 = false →
  unflipCards [id card1; id card2] (flipCard (id card2) (flipCard (id card1) l)) = l.
Proof.
  intros Hnodup H1 H2 Hf1 Hf2.
  unfold unflipCards, flipCard. rewrite !map_map.
  rewrite <-(map_id l) at 2. apply map_ext_in. intros c Hc%list_elem_of_In.
  unfold includes. cbn [existsb].
  destruct (String.eqb_spec (id c) (id card1)) as [Heq1|Hne1]; cbn [id].
  - rewrite (same_id_same_card l c card1 Hnodup Hc H1 Heq1) in *.
    destruct (String.eqb (id card1) (id card2)); cbn [id isFlipped isMatched value imageUrl pairId];
      rewrite String.eqb_refl; cbn [orb]; by apply eta_face_down.
  - destruct (String.eqb_spec (id c) (id card2)) as [Heq2|Hne2]; cbn [id].
    + rewrite (same_id_same_card l c card2 Hnodup Hc H2 Heq2) in *.
      rewrite (proj2 (String.eqb_neq _ _) Hne1), String.eqb_refl.
      cbn [orb isFlipped isMatched value imageUrl pairId id].
      by apply eta_face_down.
    + by rewrite (proj2 (String.eqb_neq _ _) Hne1), (proj2 (String.eqb_neq _ _) Hne2).
Qed.

Lemma mark_after_flips card1 card2 l :
  markCardsAsMatched [id card1; id card2]
    (flipCard (id card2) (flipCard (id card1) l))
  = withPairMatched card1 card2 l.
Proof.
  unfold markCardsAsMatched, flipCard, withPairMatched, includes, matchedCard.
  rewrite !map_map. apply map_ext. intros c. cbn [existsb].
  destruct (String.eqb (id c) (id card1)) eqn:H1; cbn [id];
    destruct (String.eqb (id c) (id card2)) eqn:H2; cbn [id];
    rewrite ?H1, ?H2; done.
Qed.

Lemma flipCard_length cardId l : length (flipCard cardId l) = length l.
Proof. unfold flipCard. apply length_map. Qed.

Lemma find_by_id (l : list Card) card :
  NoDup (map id l) → card ∈ l →
  List.find (λ c, String.eqb (id c) (id card)) l = Some card.
Proof.
  induction l as [|c l IH]; simpl.
  - by intros _ ?%elem_of_nil.
  - intros [Hnotin Hnodup]%NoDup_cons [->|Hin]%elem_of_cons.
    + by rewrite String.eqb_refl.
    + destruct (String.eqb_spec (id c) (id card)) as [Heq|_]; [|by apply IH].
      destruct Hnotin. rewrite Heq. apply list_elem_of_fmap. by exists card.
Qed.

(** The two clicks of a turn: both cards lie face up, the move is counted
    and the comparison is scheduled. *)
Lemma two_clicks o cs mp mv sc tref cref tm st h el nh notes card1 card2 :
  let w := mkWorld o (mkSession cs [] mp mv sc true false false false tref cref)
             tm st h el [] nh notes in
  ReadyForTurn w card1 card2 →
  run [CardClick (id card1); CardClick (id card2)] w =
    mkWorld o
      (mkSession (flipCard (id card2) (flipCard (id card1) cs)) [card1; card2]
         mp (mv + 1) sc true false false true (Some nh) cref)
      tm st h el
      [mkTimeout nh (el + CARD_FLIP) (CompareFlipped card1 card2 mp mv (time tm))]
      (S nh)
      ((notes ++ (if onFlip o then [FlipNotified] else []))
         ++ (if onFlip o then [FlipNotified] else [])).
Proof.
  intros w (_ & _ & _ & _ & _ & _ & Hnodup & H1 & H2 & Hne & Hf1 & Hm1 & Hf2 & Hm2 & Hmany).
  cbn [session cards matchedPairs] in Hnodup, H1, H2, Hmany.
  assert (Hmany' : Qeq_bool (inject_Z (Z.of_nat (length cs)) / 2 - inject_Z mp) 1 = false).
  { apply not_true_iff_false. by rewrite Qeq_bool_iff. }
  unfold run. cbn [foldl].
  (* the first click *)
  assert (Hstep1 : step w (CardClick (id card1)) =
    mkWorld o (mkSession (flipCard (id card1) cs) [card1] mp mv sc
                 true false false false tref cref) tm st h el [] nh
      (notes ++ (if onFlip o then [FlipNotified] else []))).
  { unfold step, handleEvent, handleCardClick, w. cbn [session cards].
    rewrite (find_by_id cs card1 Hnodup H1).
    unfold canFlipCard. cbn [isGameStarted isGameComplete isGamePaused
      isProcessing flippedCards negb orb length]. rewrite Hm1, Hf1.
    cbn [orb negb Nat.leb app]. unfold notify. cbn [options].
    destruct (onFlip o); cbn -[flipCard]; rewrite ?app_nil_r;
      (apply runEffects_many_left;
        [cbn [session cards]; rewrite isGameWon_flipCard_eq;
           by apply (not_won_with_unmatched cs card1)
        |unfold totalPairs; cbn [session cards matchedPairs];
           by rewrite flipCard_length]). }
  rewrite Hstep1.
  (* the second click *)
  unfold step, handleEvent, handleCardClick. cbn [session cards].
  rewrite (find_by_id (flipCard (id card1) cs) card2)
    by first [by rewrite flipCard_ids | apply flipCard_other; [done|congruence]].
  unfold canFlipCard. cbn [isGameStarted isGameComplete isGamePaused
    isProcessing flippedCards negb orb length]. rewrite Hm2, Hf2.
  cbn [orb negb Nat.leb app]. unfold notify. cbn [options].
  destruct (onFlip o); cbn -[flipCard Z.add CARD_FLIP]; rewrite ?app_nil_r;
    (apply runEffects_busy;
      [done
      |cbn [session cards]; rewrite !isGameWon_flipCard_eq;
         by apply (not_won_with_unmatched cs card1)]).
Qed.

(** A single pending timeout runs. *)
Lemma fireTimeout_single o s tm st h el t nh notes :
  fireTimeout (mkWorld o s tm st h el [t] nh notes) =
    runCallback (callback t) (mkWorld o s tm st h (Z.max el (due t)) [] nh notes).
Proof. reflexivity. Qed.

Lemma runCallback_no_match o s tm st h el pend nh notes c1 c2 mp mv t :
  checkCardsMatch c1 c2 = false →
  runCallback (CompareFlipped c1 c2 mp mv t) (mkWorld o s tm st h el pend nh notes) =
    mkWorld o (setProcessingTimeoutRef (Some nh) s) tm st h el
      (pend ++ [mkTimeout nh (el + NO_MATCH_DELAY) (FlipBack c1 c2)]) (S nh) notes.
Proof. intros Hno. cbn [runCallback]. rewrite Hno. reflexivity. Qed.

Lemma withSession_mk f o s tm st h el pend nh notes :
  withSession f (mkWorld o s tm st h el pend nh notes)
  = mkWorld o (f s) tm st h el pend nh notes.
Proof. reflexivity. Qed.

Lemma notify_mk supplied n o s tm st h el pend nh notes :
  notify supplied n (mkWorld o s tm st h el pend nh notes)
  = mkWorld o s tm st h el pend nh (notes ++ if supplied then [n] else []).
Proof. destruct supplied; cbn; by rewrite ?app_nil_r. Qed.

Lemma runCallback_match o s tm st h el pend nh notes c1 c2 mp mv t :
  checkCardsMatch c1 c2 = true →
  runCallback (CompareFlipped c1 c2 mp mv t) (mkWorld o s tm st h el pend nh notes) =
    mkWorld o
      (setIsProcessing false
         (setScore (calculateScore (mv + 1) t (difficulty o) (mp + 1))
            (setFlippedCards []
               (setMatchedPairs (λ prev, prev + 1)
                  (setCards (markCardsAsMatched [id c1; id c2]) s)))))
      tm st h el pend nh
      (notes ++ if onMatch o then [MatchNotified] else []).
Proof.
  intros Hyes. cbn [runCallback]. rewrite Hyes.
  unfold handleMatch. cbv zeta. rewrite !withSession_mk. cbn [options].
  by rewrite notify_mk, withSession_mk.
Qed.

Lemma runCallback_flip_back o s tm st h el pend nh notes c1 c2 :
  runCallback (FlipBack c1 c2) (mkWorld o s tm st h el pend nh notes) =
    mkWorld o
      (setIsProcessing false
         (setFlippedCards [] (setCards (unflipCards [id c1; id c2]) s)))
      tm st h el pend nh
      (notes ++ if onNoMatch o then [NoMatchNotified] else []).
Proof.
  cbn [runCallback]. cbv zeta. rewrite !withSession_mk. cbn [options].
  by rewrite notify_mk.
Qed.

(** What one pass of the effects can do to the session. *)
Lemma runEffects_session v :
  session (runEffects v) = session v ∨
  session (runEffects v) = setIsProcessing true (session v) ∨
  session (runEffects v) =
    setScore (calculateScore (moves (session v)) (time (timer v))
                (difficulty (options v)) (matchedPairs (session v)))
      (setIsGameComplete true (setGameCompleteTriggeredRef true (session v))).
Proof.
  assert (Hauto : ∀ u, session (autoFlipEffect u) = session u ∨
    (isGameComplete (session u) = false ∧
     session (autoFlipEffect u) = setIsProcessing true (session u))).
  { intros u. unfold autoFlipEffect. cbv zeta.
    destruct (isGameComplete (session u)) eqn:Hc.
    { left. cbn [negb]. by rewrite !andb_false_r. }
    destruct (_ && _); [|by left].
    destruct (List.filter _ _) as [|a [|b [|c l]]]; try by left.
    right. by split. }
  unfold runEffects, completionEffect. cbv zeta.
  destruct (gameCompleteTriggeredRef (session v)) eqn:Hr.
  { cbn [negb]. rewrite !andb_false_r. cbn [andb].
    destruct (Hauto v) as [->|[_ ->]]; auto. }
  destruct (_ && _).
  - destruct (handleGameCompletion_session v Hr) as (Hs & _).
    destruct (Hauto (handleGameCompletion v)) as [->|[Hc _]].
    + right. right. exact Hs.
    + rewrite Hs in Hc. done.
  - destruct (Hauto v) as [->|[_ ->]]; auto.
Qed.

(** X25. A turn with the two cards of a pair: in a game that waits for a
    turn, clicking two face-down cards with the same [pairId] and letting
    the comparison run marks both cards matched and leaves them face up,
    adds one to [matchedPairs] and to [moves], and sets the score to
    [calculateScore] of the new counters. *)
Theorem matching_cards_stay_up (w : World) (card1 card2 : Card) :
  ReadyForTurn w card1 card2 →
  pairId card1 = pairId card2 →
  let s := session w in
  let s' := session (run [CardClick (id card1); CardClick (id card2); TimeoutFires] w) in
  cards s' = withPairMatched card1 card2 (cards s) ∧
  matchedPairs s' = matchedPairs s + 1 ∧
  moves s' = moves s + 1 ∧
  score s' = calculateScore (moves s + 1) (time (timer w)) (difficulty (options w))
               (matchedPairs s + 1) ∧
  flippedCards s' = [].
Proof.
  intros Hready Hpair.
  destruct w as [o s tm st h el pend nh notes].
  destruct s as [cs fl mp mv sc started complete paused processing tref cref].
  pose proof Hready as (Hs & Hp & Hc & Hpr & Hfl & Hpend & _ & _ & _ & Hne & _).
  cbn in Hs, Hp, Hc, Hpr, Hfl, Hpend. subst.
  intros s s'. subst s s'. cbn [session cards matchedPairs moves timer options].
  change [CardClick (id card1); CardClick (id card2); TimeoutFires]
    with ([CardClick (id card1); CardClick (id card2)] ++ [TimeoutFires]).
  rewrite run_snoc, (two_clicks _ _ _ _ _ _ _ _ _ _ _ _ _ _ _ Hready).
  assert (Hmatch : checkCardsMatch card1 card2 = true).
  { unfold checkCardsMatch. rewrite Hpair, String.eqb_refl. cbn [andb].
    apply negb_true_iff. by apply String.eqb_neq. }
  unfold step. cbn [handleEvent].
  match goal with |- context [runEffects ?v] => set (fired := v) end.
  assert (Hfired : session fired =
    mkSession (withPairMatched card1 card2 cs) [] (mp + 1) (mv + 1)
      (calculateScore (mv + 1) (time tm) (difficulty o) (mp + 1))
      true false false false (Some nh) cref ∧
    timer fired = tm ∧ options fired = o).
  { unfold fired. rewrite fireTimeout_single. cbn [callback due].
    rewrite (runCallback_match _ _ _ _ _ _ _ _ _ _ _ _ _ _ Hmatch).
    cbn [session timer options].
    unfold setIsProcessing, setScore, setFlippedCards, setMatchedPairs, setCards.
    cbn [cards flippedCards matchedPairs moves score isGameStarted
         isGameComplete isGamePaused isProcessing processingTimeoutRef
         gameCompleteTriggeredRef].
    by rewrite mark_after_flips. }
  destruct Hfired as (Hsess & Htimer & Hopts).
  destruct (runEffects_session fired) as [-> | [-> | ->]];
    rewrite ?Htimer, ?Hopts, Hsess; cbn -[calculateScore Z.add]; done.
Qed.

(** X26. A turn with cards of two pairs: after the comparison and the flip
    back the deck is as it was before the turn, [matchedPairs] and the
    score are unchanged, [moves] has grown by one, and the game waits for
    the next turn. *)
Theorem different_cards_turn_back (w : World) (card1 card2 : Card) :
  ReadyForTurn w card1 card2 →
  pairId card1 ≠ pairId card2 →
  let w' := run [CardClick (id card1); CardClick (id card2);
                 TimeoutFires; TimeoutFires] w in
  cards (session w') = cards (session w) ∧
  matchedPairs (session w') = matchedPairs (session w) ∧
  moves (session w') = moves (session w) + 1 ∧
  score (session w') = score (session w) ∧
  ReadyForTurn w' card1 card2.
Proof.
  intros Hready Hpair.
  destruct w as [o s tm st h el pend nh notes].
  destruct s as [cs fl mp mv sc started complete paused processing tref cref].
  pose proof Hready as
    (Hs & Hp & Hc & Hpr & Hfl & Hpend & Hnodup & H1 & H2 & Hne & Hf1 & Hm1 & Hf2 & Hm2 & Hmany).
  cbn in Hs, Hp, Hc, Hpr, Hfl, Hpend, Hnodup, H1, H2, Hmany. subst.
  assert (Hmany' : Qeq_bool (inject_Z (Z.of_nat (length cs)) / 2 - inject_Z mp) 1 = false).
  { apply not_true_iff_false. by rewrite Qeq_bool_iff. }
  assert (Hwon : isGameWon cs = false)
    by by apply (not_won_with_unmatched cs card1).
  intros w'. subst w'.
  change [CardClick (id card1); CardClick (id card2); TimeoutFires; TimeoutFires]
    with ([CardClick (id card1); CardClick (id card2)] ++ [TimeoutFires; TimeoutFires]).
  rewrite run_app, (two_clicks _ _ _ _ _ _ _ _ _ _ _ _ _ _ _ Hready).
  unfold run.
  assert (Hmatch : checkCardsMatch card1 card2 = false).
  { unfold checkCardsMatch. apply andb_false_iff. left. by apply String.eqb_neq. }
  cbn [foldl].
  (* the comparison finds no match and schedules the flip back *)
  match goal with |- context [step (step ?v TimeoutFires) TimeoutFires] =>
    set (compared := step v TimeoutFires) end.
  assert (Hcompared : ∃ el' notes', compared =
    mkWorld o
      (mkSession (flipCard (id card2) (flipCard (id card1) cs)) [card1; card2]
         mp (mv + 1) sc true false false true (Some (S nh)) cref)
      tm st h el'
      [mkTimeout (S nh) (el' + NO_MATCH_DELAY) (FlipBack card1 card2)]
      (S (S nh)) notes').
  { unfold compared, step. cbn [handleEvent]. rewrite fireTimeout_single.
    cbn [callback due].
    rewrite (runCallback_no_match _ _ _ _ _ _ _ _ _ _ _ _ _ _ Hmatch).
    unfold setProcessingTimeoutRef.
    cbn [cards flippedCards matchedPairs moves score isGameStarted
         isGameComplete isGamePaused isProcessing processingTimeoutRef
         gameCompleteTriggeredRef app].
    eexists _, _. apply runEffects_busy; [reflexivity|].
    cbn [session cards]. by rewrite !isGameWon_flipCard_eq. }
  destruct Hcompared as (el' & notes' & Hcompared). rewrite Hcompared.
  clear compared Hcompared.
  (* the flip back *)
  assert (Hquiet : ∀ el2 ref2 nh2 notes2,
    runEffects
      (mkWorld o (mkSession cs [] mp (mv + 1) sc true false false false ref2 cref)
         tm st h el2 [] nh2 notes2)
    = mkWorld o (mkSession cs [] mp (mv + 1) sc true false false false ref2 cref)
        tm st h el2 [] nh2 notes2).
  { intros. apply runEffects_many_left; [exact Hwon|exact Hmany']. }
  unfold step. cbn [handleEvent]. rewrite fireTimeout_single.
  cbn [callback due]. rewrite runCallback_flip_back.
  unfold setIsProcessing, setFlippedCards, setCards.
  cbn [cards flippedCards matchedPairs moves score isGameStarted
       isGameComplete isGamePaused isProcessing processingTimeoutRef
       gameCompleteTriggeredRef].
  rewrite (unflip_restores cs card1 card2 Hnodup H1 H2 Hf1 Hf2), Hquiet.
  cbn [session cards matchedPairs moves score].
  split; [reflexivity|]. split; [reflexivity|].
  split; [reflexivity|]. split; [reflexivity|].
  unfold ReadyForTurn.
  cbn [session cards flippedCards matchedPairs isGameStarted isGamePaused
       isGameComplete isProcessing pending].
  repeat (split; [first [reflexivity | assumption]|]). exact Hmany.
Qed.

Lemma ReadyForTurn_startedGame c1 c2 :
  bool_decide (c1 ∈ cards (session startedGame)) = true →
  bool_decide (c2 ∈ cards (session startedGame)) = true →
  bool_decide (id c1 ≠ id c2) = true →
  isFlipped c1 = false → isMatched c1 = false →
  isFlipped c2 = false → isMatched c2 = false →
  ReadyForTurn startedGame c1 c2.
Proof.
  intros H1 H2 H3 H4 H5 H6 H7.
  unfold ReadyForTurn. cbv zeta.
  split; [vm_compute; reflexivity|].
  split; [vm_compute; reflexivity|].
  split; [vm_compute; reflexivity|].
  split; [vm_compute; reflexivity|].
  split; [vm_compute; reflexivity|].
  split; [vm_compute; reflexivity|].
  split; [apply (bool_decide_unpack (NoDup (map id (cards (session startedGame)))));
          vm_compute; reflexivity|].
  apply bool_decide_eq_true in H1, H2, H3.
  do 3 (split; [done|]).
  do 4 (split; [done|]).
  intros Hq. apply Qeq_bool_iff in Hq. vm_compute in Hq. discriminate.
Defined.

Lemma matching_cards_stay_up_witness :
  let s := session startedGame in
  let s' := session (run [CardClick (id lastPairFirst); CardClick (id lastPairSecond);
                          TimeoutFires] startedGame) in
  cards s' = withPairMatched lastPairFirst lastPairSecond (cards s) ∧
  matchedPairs s' = matchedPairs s + 1 ∧
  moves s' = moves s + 1 ∧
  score s' = calculateScore (moves s + 1) (time (timer startedGame))
               (difficulty (options startedGame)) (matchedPairs s + 1) ∧
  flippedCards s' = [].
Proof.
  apply matching_cards_stay_up; [|reflexivity].
  apply ReadyForTurn_startedGame; vm_compute; reflexivity.
Defined.

Lemma different_cards_turn_back_witness :
  let w' := run [CardClick (id lastPairFirst); CardClick (id firstCardDown);
                 TimeoutFires; TimeoutFires] startedGame in
  cards (session w') = cards (session startedGame) ∧
  matchedPairs (session w') = matchedPairs (session startedGame) ∧
  moves (session w') = moves (session startedGame) + 1 ∧
  score (session w') = score (session startedGame) ∧
  ReadyForTurn w' lastPairFirst firstCardDown.
Proof.
  apply different_cards_turn_back.
  - apply ReadyForTurn_startedGame; vm_compute; reflexivity.
  - apply (bool_decide_unpack (pairId lastPairFirst ≠ pairId firstCardDown)).
    vm_compute. reflexivity.
Defined.

End Turns.

(* ===================================================================== *)
(** ** Game engine: the counter of matched pairs *)
(* ===================================================================== *)

Section Counting.

Lemma matchedCards_map (f : Card → Card) l :
  (∀ c, isMatched (f c) = isMatched c) → matchedCards (map f l) = matchedCards l.
Proof.
  intros Hf. unfold matchedCards. induction l as [|c l IH]; simpl; [done|].
  rewrite Hf. destruct (isMatched c); simpl; by rewrite IH.
Qed.

Lemma matchedCards_flipCard cardId l :
  matchedCards (flipCard cardId l) = matchedCards l.
Proof. apply matchedCards_map. intros c. by destruct (String.eqb _ _). Qed.

Lemma matchedCards_unflipCards ids l :
  matchedCards (unflipCards ids l) = matchedCards l.
Proof. apply matchedCards_map. intros c. by destruct (includes _ _). Qed.

Lemma unmatchedIn_map (f : Card → Card) l c :
  (∀ x, id (f x) = id x ∧ isMatched (f x) = isMatched x) →
  unmatchedIn l c → unmatchedIn (map f l) c.
Proof.
  intros Hf (c' & Hin & Hid & Hm). exists (f c').
  destruct (Hf c') as [-> ->]. split; [|done].
  apply list_elem_of_fmap. by exists c'.
Qed.

Lemma faceUpIn_flipCard cardId l c : faceUpIn l c → faceUpIn (flipCard cardId l) c.
Proof.
  intros (c' & Hin & Hid & Hf & Hm).
  exists (if String.eqb (id c') cardId
          then mkCard (id c') (value c') (imageUrl c') true (isMatched c') (pairId c')
          else c').
  split; [apply list_elem_of_fmap; by exists c'|].
  by destruct (String.eqb _ _).
Qed.

Lemma markCardsAsMatched_pair c1 c2 l :
  markCardsAsMatched [id c1; id c2] l = withPairMatched c1 c2 l.
Proof.
  unfold markCardsAsMatched, withPairMatched, includes. apply map_ext.
  intros c. cbn [existsb]. by rewrite orb_false_r.
Qed.

(** Marking a pair adds the unmatched cards with one of the two ids to the
    matched ones. *)
Lemma matchedCards_withPairMatched c1 c2 l :
  matchedCards (withPairMatched c1 c2 l) =
    (matchedCards l
     + length (List.filter
         (λ c, (String.eqb (id c) (id c1) || String.eqb (id c) (id c2))
               && negb (isMatched c)) l))%nat.
Proof.
  unfold matchedCards, withPairMatched. induction l as [|c l IH]; simpl; [done|].
  destruct (String.eqb (id c) (id c1) || String.eqb (id c) (id c2)),
    (isMatched c) eqn:Hm; simpl; rewrite ?Hm; simpl; lia.
Qed.

Lemma filter_or_length {A} (a b u : A → bool) (l : list A) :
  (∀ x, a x = true → b x = true → False) →
  length (List.filter (λ x, (a x || b x) && u x) l) =
    (length (List.filter (λ x, a x && u x) l)
     + length (List.filter (λ x, b x && u x) l))%nat.
Proof.
  intros Hdisj. induction l as [|x l IH]; simpl; [done|].
  destruct (a x) eqn:Ha, (b x) eqn:Hb, (u x); simpl; try lia.
  destruct (Hdisj x Ha Hb).
Qed.

Lemma unmatched_with_id_length l c :
  NoDup (map id l) → unmatchedIn l c →
  length (List.filter (λ x, String.eqb (id x) (id c) && negb (isMatched x)) l) = 1%nat.
Proof.
  intros Hnodup (c' & Hin & Hid & Hm).
  rewrite <-(one_card_per_id l c' Hnodup Hin), Hid. f_equal.
  apply filter_ext_in_iff. intros x Hx%list_elem_of_In.
  destruct (String.eqb_spec (id x) (id c)) as [Heq|_]; [|done].
  rewrite <-Hid in Heq.
  by rewrite (same_id_same_card l x c' Hnodup Hx Hin Heq), Hm.
Qed.

Lemma matchedCards_pair c1 c2 l :
  NoDup (map id l) → id c1 ≠ id c2 → unmatchedIn l c1 → unmatchedIn l c2 →
  matchedCards (withPairMatched c1 c2 l) = (matchedCards l + 2)%nat.
Proof.
  intros Hnodup Hne H1 H2. rewrite matchedCards_withPairMatched.
  rewrite (filter_or_length (λ x, String.eqb (id x) (id c1))
             (λ x, String.eqb (id x) (id c2))).
  - by rewrite !unmatched_with_id_length.
  - intros x Ha%String.eqb_eq Hb%String.eqb_eq. congruence.
Qed.

Lemma withPairMatched_ids c1 c2 l : map id (withPairMatched c1 c2 l) = map id l.
Proof.
  unfold withPairMatched. rewrite map_map. apply map_ext. intros c.
  by destruct (_ || _).
Qed.

Lemma unflipCards_ids ids l : map id (unflipCards ids l) = map id l.
Proof.
  unfold unflipCards. rewrite map_map. apply map_ext. intros c.
  by destruct (includes _ _).
Qed.

Lemma unmatchedIn_flipCard cardId l c :
  unmatchedIn l c → unmatchedIn (flipCard cardId l) c.
Proof. apply unmatchedIn_map. intros x. by destruct (String.eqb _ _). Qed.

Lemma unmatchedIn_unflipCards ids l c :
  unmatchedIn l c → unmatchedIn (unflipCards ids l) c.
Proof. apply unmatchedIn_map. intros x. by destruct (includes _ _). Qed.

Lemma comparison_engine t c1 c2 :
  comparison t = Some (c1, c2) → schedulesCompletion t = false.
Proof. unfold comparison, schedulesCompletion. by destruct (callback t). Qed.

Lemma popEarliest_rest ts t rest t' :
  popEarliest ts = Some (t, rest) → t' ∈ rest → t' ∈ ts.
Proof.
  intros (l1 & l2 & -> & -> & _)%popEarliest_split.
  rewrite !elem_of_app, elem_of_cons. tauto.
Qed.

(** When a comparison runs, no other comparison is pending. *)
Lemma comparison_alone w t rest c1 c2 :
  Orderly w → popEarliest (pending w) = Some (t, rest) →
  comparison t = Some (c1, c2) →
  ∀ t', t' ∈ rest → comparison t' = None.
Proof.
  intros Hw Hpop Hcmp.
  pose proof (comparison_engine _ _ _ Hcmp) as Hengine.
  apply popEarliest_engine in Hpop. rewrite Hengine in Hpop.
  assert (Hnil : engineTimeouts rest = []).
  { unfold Orderly in Hw. unfold comparison in Hcmp.
    destruct (isProcessing (session w)); [|by rewrite Hw in Hpop].
    inversion Hw as [t0 a b mp mv tm Hcb Heq|t0 a b Hcb Heq
                    |ta tb tc a b a' b' Ha Hb Hc Hab Hbc Heq
                    |tb tc b a' b' Hb Hc Hbc Heq|tc a' b' Hc Heq|Heq];
      rewrite <-Heq in Hpop.
    - simpl in Hpop. by injection Hpop as <- <-.
    - simpl in Hpop. by injection Hpop as <- <-.
    - rewrite popEarliest_head in Hpop by (repeat constructor; simpl; lia).
      injection Hpop as <- <-. by rewrite Ha in Hcmp.
    - rewrite popEarliest_head in Hpop by (repeat constructor; simpl; lia).
      injection Hpop as <- <-. by rewrite Hb in Hcmp.
    - simpl in Hpop. by injection Hpop as <- <-.
    - done. }
  intros t' Ht'. destruct (comparison t') as [[a b]|] eqn:Hc'; [|done].
  apply comparison_engine in Hc'.
  assert (Hin : In t' (engineTimeouts rest)).
  { apply filter_In. split; [by apply list_elem_of_In|by rewrite Hc']. }
  by rewrite Hnil in Hin.
Qed.

Lemma Counted_frame w w' :
  cards (session w') = cards (session w) →
  flippedCards (session w') = flippedCards (session w) →
  matchedPairs (session w') = matchedPairs (session w) →
  (∀ t, t ∈ pending w' → t ∈ pending w ∨ comparison t = None) →
  Counted w → Counted w'.
Proof.
  unfold Counted. intros -> -> -> Hpend (H1 & H2 & H3 & H4).
  repeat split; try done.
  all: destruct (Hpend t H) as [Hold|Hnone]; [|congruence];
    by destruct (H3 t c1 c2 Hold H0) as (? & ? & ?).
Qed.

Lemma find_some_id (l : list Card) cardId card :
  List.find (λ c, String.eqb (id c) cardId) l = Some card →
  card ∈ l ∧ id card = cardId.
Proof.
  intros [Hin Hid]%find_some. split; [by apply list_elem_of_In|].
  by apply String.eqb_eq.
Qed.

Lemma handleCardClick_Counted cardId w : Counted w → Counted (handleCardClick cardId w).
Proof.
  intros HC. unfold handleCardClick.
  destruct (List.find _ _) as [card|] eqn:Hfind; [|done].
  destruct (canFlipCard _ _) eqn:Hcan; [|done].
  apply find_some_id in Hfind as [Hin Hid].
  apply canFlipCard_true in Hcan as (Hs & _ & _ & _ & Hm & Hf & Hlen).
  destruct w as [o s tm st h el pend nh notes].
  cbn [session] in *. rewrite Hs. cbn [negb].
  destruct HC as (Hnodup & Hcount & Hpend & Hflipped).
  cbn [session pending] in Hnodup, Hcount, Hpend, Hflipped.
  rewrite !withSession_mk, notify_mk, withSession_mk.
  assert (Hcard : faceUpIn (flipCard cardId (cards s)) card).
  { exists (mkCard (id card) (value card) (imageUrl card) true (isMatched card)
              (pairId card)).
    split; [|done]. apply list_elem_of_fmap. exists card.
    by rewrite Hid, String.eqb_refl. }
  assert (Hbase : ∀ pend' nh' notes',
    (∀ t, t ∈ pend' → t ∈ pend ∨
       ∃ a mp mv t0, flippedCards s = [a] ∧
                     callback t = CompareFlipped a card mp mv t0) →
    ∀ s', cards s' = flipCard cardId (cards s) →
          flippedCards s' = flippedCards s ++ [card] →
          matchedPairs s' = matchedPairs s →
    Counted (mkWorld o s' tm st h el pend' nh' notes')).
  { intros pend' nh' notes' Hnew s' Hc' Hf' Hm'.
    unfold Counted. cbn [session pending]. rewrite Hc', Hf', Hm'.
    split; [by rewrite flipCard_ids|].
    split; [by rewrite matchedCards_flipCard|]. split.
    - intros t c1 c2 Ht Hcmp.
      destruct (Hnew t Ht) as [Hold|(a & mp & mv & t0 & Hfl & Hcb)].
      + destruct (Hpend t c1 c2 Hold Hcmp) as (Hne & Hu1 & Hu2).
        split; [done|]. split; by apply unmatchedIn_flipCard.
      + unfold comparison in Hcmp. rewrite Hcb in Hcmp.
        injection Hcmp as <- <-.
        destruct (Hflipped a) as (a' & Ha' & Hida & Hfa & Hma).
        { rewrite Hfl. left. }
        split; [|split].
        * intros Heq. rewrite <-Hida in Heq.
          rewrite (same_id_same_card _ _ _ Hnodup Ha' Hin Heq) in Hfa. congruence.
        * apply unmatchedIn_flipCard. by exists a'.
        * apply unmatchedIn_flipCard. by exists card.
    - intros c [Hc|Hc%list_elem_of_singleton]%elem_of_app.
      + by apply faceUpIn_flipCard, Hflipped.
      + by subst c. }
  destruct (flippedCards s) as [|a [|b l]] eqn:Hfl; simpl in Hlen; try lia;
    cbn [app].
  - apply Hbase; try reflexivity. intros t Ht. by left.
  - rewrite !withSession_mk. unfold setTimeout. cbn [nextHandle options session
      timer storage host elapsed pending notifications].
    rewrite withSession_mk.
    apply Hbase; try reflexivity.
    intros t [Ht|Ht%list_elem_of_singleton]%elem_of_app; [by left|].
    right. subst t. by eexists a, _, _, _.
Qed.

Lemma runCallback_auto_flip o s tm st h el pend nh notes cardId :
  runCallback (AutoFlip cardId) (mkWorld o s tm st h el pend nh notes) =
    mkWorld o (setCards (flipCard cardId) s) tm st h el pend nh
      (notes ++ if onFlip o then [FlipNotified] else []).
Proof.
  cbn [runCallback]. cbv zeta. cbn [options]. by rewrite notify_mk, withSession_mk.
Qed.

Lemma runCallback_auto_resolve o s tm st h el pend nh notes c1 c2 :
  checkCardsMatch c1 c2 = true →
  runCallback (AutoResolve c1 c2) (mkWorld o s tm st h el pend nh notes) =
    mkWorld o
      (setIsProcessing false
         (setFlippedCards []
            (setMatchedPairs (λ prev, prev + 1)
               (setCards (withPairMatched c1 c2) s))))
      tm st h el pend nh
      (notes ++ if onMatch o then [MatchNotified] else []).
Proof.
  intros Hyes. cbn [runCallback]. rewrite Hyes. cbv zeta.
  rewrite !withSession_mk. cbn [options]. by rewrite notify_mk.
Qed.

Ltac open_counted :=
  unfold Counted, setIsProcessing, setScore, setFlippedCards, setMatchedPairs,
    setCards, setProcessingTimeoutRef;
  cbn [session pending cards flippedCards matchedPairs].

Lemma fireTimeout_Counted w : Orderly w → Counted w → Counted (fireTimeout w).
Proof.
  intros Hw HC. unfold fireTimeout.
  destruct (popEarliest (pending w)) as [[t rest]|] eqn:Hpop; [|done].
  pose proof (popEarliest_elem _ _ _ Hpop) as Ht.
  pose proof (comparison_alone w t rest) as Halone.
  specialize (Halone) with (1 := Hw) (2 := Hpop).
  pose proof (λ t', popEarliest_rest _ _ _ t' Hpop) as Hrest.
  destruct w as [o s tm st h el pend nh notes].
  cbn [options session timer storage host elapsed pending nextHandle notifications] in *.
  destruct HC as (Hnodup & Hcount & Hpend & Hflipped).
  cbn [session pending] in Hnodup, Hcount, Hpend, Hflipped.
  pose proof (Hpend t) as Hthis. specialize (Hthis) with (1 := Ht).
  destruct (callback t) as [c1 c2 mp mv t0|c1 c2|stats|cardId|c1 c2] eqn:Hcb.
  - assert (Hc : comparison t = Some (c1, c2))
      by (unfold comparison; by rewrite Hcb).
    destruct (Hthis c1 c2 Hc) as (Hne & Hu1 & Hu2).
    destruct (checkCardsMatch c1 c2) eqn:Hmatch.
    + rewrite (runCallback_match _ _ _ _ _ _ _ _ _ _ _ _ _ _ Hmatch).
      open_counted.
      rewrite markCardsAsMatched_pair, withPairMatched_ids, matchedCards_pair by done.
      split; [done|]. split; [lia|]. split.
      * intros t' a b Ht' Hcmp. rewrite (Halone c1 c2 Hc t' Ht') in Hcmp. done.
      * by intros c ?%elem_of_nil.
    + rewrite (runCallback_no_match _ _ _ _ _ _ _ _ _ _ _ _ _ _ Hmatch).
      open_counted.
      repeat split; try done.
      all: apply elem_of_app in H as [H|H%list_elem_of_singleton];
        [|subst; done];
        by destruct (Hpend t1 c0 c3 (Hrest _ H) H0) as (? & ? & ?).
  - rewrite runCallback_flip_back.
    open_counted.
    rewrite unflipCards_ids, matchedCards_unflipCards.
    split; [done|]. split; [done|]. split.
    + intros t' a b Ht' Hcmp.
      destruct (Hpend t' a b (Hrest _ Ht') Hcmp) as (? & ? & ?).
      split; [done|]. split; by apply unmatchedIn_unflipCards.
    + by intros c ?%elem_of_nil.
  - cbn [runCallback]. rewrite notify_mk.
    apply (Counted_frame (mkWorld o s tm st h el pend nh notes));
      [done|done|done| |exact (conj Hnodup (conj Hcount (conj Hpend Hflipped)))].
    intros t' Ht'. left. by apply Hrest.
  - rewrite runCallback_auto_flip.
    open_counted.
    rewrite flipCard_ids, matchedCards_flipCard.
    split; [done|]. split; [done|]. split.
    + intros t' a b Ht' Hcmp.
      destruct (Hpend t' a b (Hrest _ Ht') Hcmp) as (? & ? & ?).
      split; [done|]. split; by apply unmatchedIn_flipCard.
    + intros c Hc. by apply faceUpIn_flipCard, Hflipped.
  - assert (Hc : comparison t = Some (c1, c2))
      by (unfold comparison; by rewrite Hcb).
    destruct (Hthis c1 c2 Hc) as (Hne & Hu1 & Hu2).
    destruct (checkCardsMatch c1 c2) eqn:Hmatch.
    + rewrite (runCallback_auto_resolve _ _ _ _ _ _ _ _ _ _ _ Hmatch).
      open_counted.
      rewrite withPairMatched_ids, matchedCards_pair by done.
      split; [done|]. split; [lia|]. split.
      * intros t' a b Ht' Hcmp. rewrite (Halone c1 c2 Hc t' Ht') in Hcmp. done.
      * by intros c ?%elem_of_nil.
    + cbn [runCallback]. rewrite Hmatch.
      apply (Counted_frame (mkWorld o s tm st h el pend nh notes));
        [done|done|done| |exact (conj Hnodup (conj Hcount (conj Hpend Hflipped)))].
      intros t' Ht'. left. by apply Hrest.
Qed.

Lemma NoDup_map_filter {A B} (f : A → B) (p : A → bool) (l : list A) :
  NoDup (map f l) → NoDup (map f (List.filter p l)).
Proof.
  induction l as [|x l IH]; simpl; [done|].
  intros [Hnotin Hnodup]%NoDup_cons.
  destruct (p x); [|by apply IH]. simpl. apply NoDup_cons. split; [|by apply IH].
  intros (y & Hy & Hin)%list_elem_of_fmap. apply Hnotin.
  apply list_elem_of_fmap. exists y. split; [done|].
  apply list_elem_of_In. apply list_elem_of_In, filter_In in Hin. tauto.
Qed.

Lemma autoFlipEffect_Counted w : Counted w → Counted (autoFlipEffect w).
Proof.
  intros HC. unfold autoFlipEffect. cbv zeta.
  destruct (_ && _); [|done].
  destruct (List.filter _ _) as [|a [|b [|c l]]] eqn:Hleft; try done.
  destruct w as [o s tm st h el pend nh notes].
  cbn [session] in *.
  destruct HC as (Hnodup & Hcount & Hpend & Hflipped).
  cbn [session pending] in Hnodup, Hcount, Hpend, Hflipped.
  assert (Hab : ∀ x, x ∈ [a; b] → x ∈ cards s ∧ isMatched x = false).
  { intros x Hx. rewrite <-Hleft in Hx.
    apply list_elem_of_In, filter_In in Hx as [Hx Hm].
    split; [by apply list_elem_of_In|]. by apply negb_true_iff. }
  assert (Hne : id a ≠ id b).
  { pose proof (NoDup_map_filter id (λ card, negb (isMatched card)) _ Hnodup) as Hnd.
    rewrite Hleft in Hnd. simpl in Hnd.
    apply NoDup_cons in Hnd as [Hnotin _]. intros Heq. apply Hnotin.
    rewrite Heq. left. }
  rewrite withSession_mk. unfold setTimeout.
  cbn -[Z.add]. unfold Counted. cbn -[Z.add Z.mul].
  split; [done|]. split; [done|]. split; [|done].
  intros t c1 c2 Ht Hcmp.
  rewrite !elem_of_app, !list_elem_of_singleton in Ht.
  destruct Ht as [[[Ht| ->]| ->]| ->]; try done.
  - by apply Hpend with t.
  - injection Hcmp as <- <-. split; [done|].
    split; [exists a|exists b]; (split; [|split; [done|]]); apply Hab;
      rewrite !elem_of_cons; tauto.
Qed.

Lemma completionEffect_Counted w : Counted w → Counted (completionEffect w).
Proof.
  intros HC. unfold completionEffect. cbv zeta.
  destruct (gameCompleteTriggeredRef (session w)) eqn:Hr.
  { cbn [negb]. by rewrite !andb_false_r. }
  destruct (_ && _); [|done].
  destruct (handleGameCompletion_session w Hr) as (Hs & _ & _ & Hpend).
  apply (Counted_frame w); try done; try by rewrite Hs.
  intros t Ht. destruct (Hpend t Ht) as [?|Hcompl]; [by left|right].
  unfold schedulesCompletion in Hcompl. unfold comparison.
  by destruct (callback t).
Qed.

Lemma handleEvent_Counted e w :
  e ≠ ResetGame → Orderly w → Counted w → Counted (handleEvent e w).
Proof.
  intros Hne Hw HC. destruct e as [cardId| | | | | |ms| |]; cbn [handleEvent].
  - by apply handleCardClick_Counted.
  - apply (Counted_frame w); try done. by left.
  - by destruct Hne.
  - unfold pauseGame. destruct (negb _ || _); [done|].
    destruct (saveGameState _ _ _) as [[ok st] h].
    apply (Counted_frame w); try done. by left.
  - unfold resumeGame. destruct (negb _); [done|].
    apply (Counted_frame w); try done. by left.
  - by apply fireTimeout_Counted.
  - apply (Counted_frame w); try done. by left.
  - apply (Counted_frame w); try done. by left.
  - unfold autoSave, saveSnapshot. destruct (negb _ || _ || _); [done|].
    destruct (saveGameState _ _ _) as [[ok st] h].
    apply (Counted_frame w); try done. by left.
Qed.

Lemma run_Counted events w :
  ResetGame ∉ events → Orderly w → Counted w →
  Orderly (run events w) ∧ Counted (run events w).
Proof.
  revert w. induction events as [|e events IH]; intros w Hno Hw HC; [done|].
  apply not_elem_of_cons in Hno as [Hne Hno]. simpl.
  apply IH; [done|by apply step_Orderly|].
  unfold step, runEffects.
  by apply autoFlipEffect_Counted, completionEffect_Counted, handleEvent_Counted.
Qed.

Lemma mount_session o st h :
  session (mount o st h) =
    mkSession (generateCards (difficulty o) (themeId o) h).1 [] 0 0 0
      false false false false None false ∧
  pending (mount o st h) = [] ∧
  options (mount o st h) = o.
Proof.
  unfold mount. rewrite runEffects_not_started.
  - unfold initializeGame. cbn [options host].
    destruct (generateCards _ _ h) as [newCards h']. by cbn.
  - unfold initializeGame. cbn [options host].
    destruct (generateCards _ _ h) as [newCards h']. by cbn.
Qed.

Lemma matchedCards_none l :
  (∀ c, c ∈ l → isMatched c = false) → matchedCards l = 0%nat.
Proof.
  unfold matchedCards. induction l as [|c l IH]; intros Hall; simpl; [done|].
  rewrite (Hall c) by left. apply IH. intros x Hx. apply Hall. by right.
Qed.

Lemma mount_Counted o st h :
  NoDup (map id (cards (session (mount o st h)))) → Counted (mount o st h).
Proof.
  intros Hnodup. destruct (mount_session o st h) as (Hs & Hp & _).
  unfold Counted. rewrite Hp. rewrite Hs in Hnodup |- *.
  cbn [cards flippedCards matchedPairs] in *.
  split; [done|]. split.
  - rewrite matchedCards_none; [done|].
    intros c Hc.
    by apply (proj1 (generateCards_shape_and_ids (difficulty o) (themeId o) h)).
  - split; [by intros t c1 c2 ?%elem_of_nil|by intros c ?%elem_of_nil].
Qed.

Lemma matchedCards_all l : isGameWon l = true → matchedCards l = length l.
Proof.
  unfold isGameWon, matchedCards. intros [_ Hall]%andb_true_iff.
  induction l as [|c l IH]; simpl in *; [done|].
  apply andb_true_iff in Hall as [-> Hall]. simpl. by rewrite IH.
Qed.

(** X27. The counter of matched pairs counts the matched cards: in a game
    mounted with distinct card ids, after any events short of a reset,
    twice [matchedPairs] is the number of matched cards of the deck; so a
    complete game has [matchedPairs] equal to the number of pairs of its
    difficulty. *)
Theorem matchedPairs_counts_the_matched_cards (o : Options) (st : Storage) (h : Host)
    (events : list Event) :
  NoDup (map id (cards (session (mount o st h)))) →
  ResetGame ∉ events →
  let s := session (run events (mount o st h)) in
  2 * matchedPairs s = Z.of_nat (matchedCards (cards s)) ∧
  (isGameComplete s = true → matchedPairs s = pairCount (difficulty o)).
Proof.
  intros Hnodup Hno s.
  destruct (run_Counted events (mount o st h) Hno (mount_Orderly o st h)
              (mount_Counted o st h Hnodup)) as [_ (_ & Hcount & _)].
  fold s in Hcount. split; [done|]. intros Hc.
  destruct (run_Tidy events _ (mount_Tidy o st h)) as (_ & _ & _ & H4).
  destruct (H4 Hc) as (_ & Hwon & _). fold s in Hwon.
  rewrite (matchedCards_all _ Hwon) in Hcount.
  destruct (no_reset_PlayedOn (mount o st h) events Hno) as (Hsame & _).
  fold s in Hsame. apply Forall2_length in Hsame.
  destruct (mount_session o st h) as (Hs & _). rewrite Hs in Hsame.
  cbn [cards] in Hsame.
  destruct (generateCards_shape_and_ids (difficulty o) (themeId o) h) as [(Hlen & _) _].
  lia.
Qed.

Lemma matchedPairs_counts_the_matched_cards_witness :
  let s := session (run fullGame freshGame) in
  2 * matchedPairs s = Z.of_nat (matchedCards (cards s)) ∧
  (isGameComplete s = true → matchedPairs s = pairCount (difficulty (demoOptions EASY))).
Proof.
  apply (matchedPairs_counts_the_matched_cards (demoOptions EASY) emptyStorage demoHost).
  - apply (bool_decide_unpack
             (NoDup (map id (cards (session (mount (demoOptions EASY) emptyStorage demoHost)))))).
    vm_compute. reflexivity.
  - apply (bool_decide_unpack (ResetGame ∉ fullGame)). vm_compute. reflexivity.
Defined.

End Counting.

(* ===================================================================== *)
(** ** The board's guards *)
(* ===================================================================== *)

Section BoardGuards.
Import Board.

(** X28. The guards of the board agree with the engine's: a click that
    goes through the board (a card calls back only when it is enabled, face
    down and unmatched; the board disables its cards before the start,
    during a pause and while the engine is processing) has the effect of
    the same click made on the engine directly, and the board lets through
    every click the engine would accept. *)
Theorem board_guard_agrees_with_engine (w : World) (card : Card) :
  NoDup (map id (cards (session w))) →
  card ∈ cards (session w) →
  clickOnBoard card w = handleCardClick (id card) w ∧
  (canFlipCard (session w) card = true →
   handleClick card (cardsDisabled (isGameStarted (session w))
                       (isGamePaused (session w)) (isProcessing (session w)))
   = Some (id card)).
Proof.
  intros Hnodup Hin. split.
  - unfold clickOnBoard, handleClick, cardsDisabled.
    destruct (negb _ && _ && _) eqn:Hguard; [done|].
    symmetry. apply handleCardClick_rejected. intros card' Hclicked.
    rewrite (clickedCard_unique w card Hnodup Hin) in Hclicked.
    injection Hclicked as <-.
    unfold canFlipCard.
    destruct (isGameStarted (session w)), (isGamePaused (session w)),
      (isProcessing (session w)), (isFlipped card), (isMatched card),
      (isGameComplete (session w)); simpl in *; done.
  - intros (Hs & _ & Hp & Hpr & Hm & Hf & _)%canFlipCard_true.
    unfold handleClick, cardsDisabled. by rewrite Hs, Hp, Hpr, Hm, Hf.
Qed.

Lemma board_guard_agrees_with_engine_witness :
  clickOnBoard lastPairFirst startedGame = handleCardClick (id lastPairFirst) startedGame ∧
  (canFlipCard (session startedGame) lastPairFirst = true →
   handleClick lastPairFirst
     (cardsDisabled (isGameStarted (session startedGame))
        (isGamePaused (session startedGame)) (isProcessing (session startedGame)))
   = Some (id lastPairFirst)).
Proof.
  apply board_guard_agrees_with_engine.
  - apply (bool_decide_unpack (NoDup (map id (cards (session startedGame))))).
    vm_compute. reflexivity.
  - apply (bool_decide_unpack (lastPairFirst ∈ cards (session startedGame))).
    vm_compute. reflexivity.
Defined.

End BoardGuards.

(* ===================================================================== *)
(** ** Game engine: completion and the store *)
(* ===================================================================== *)

Section Recording.

(** The store the completion transition leaves. *)
Lemma handleGameCompletion_storage w :
  gameCompleteTriggeredRef (session w) = false →
  let finalScore :=
    calculateScore (moves (session w)) (time (timer w)) (difficulty (options w))
      (matchedPairs (session w)) in
  ∃ st1 h1,
    storage (handleGameCompletion w) =
      setLastGameState None
        (updatePlayerStats (moves (session w)) (time (timer w)) true st1 h1).1.2 ∧
    if isHighScore finalScore (storage w)
    then ∃ newId date,
      st1 = (addHighScore
               (mkHighScore newId None (moves (session w)) (time (timer w))
                  (difficulty (options w)) date finalScore) (storage w)).2
    else st1 = storage w.
Proof.
  intros Href finalScore. unfold handleGameCompletion. rewrite Href.
  cbn -[calculateScore isHighScore updatePlayerStats addHighScore
        getCongratulationsMessage generateId].
  fold finalScore.
  destruct (isHighScore finalScore (storage w));
    cbn -[calculateScore isHighScore updatePlayerStats addHighScore
          getCongratulationsMessage generateId].
  - destruct (generateId (host w)) as [newId h1].
    cbn -[calculateScore isHighScore updatePlayerStats addHighScore
          getCongratulationsMessage].
    match goal with |- context [updatePlayerStats ?m ?t true ?st ?h] =>
      exists st, h end.
    destruct (updatePlayerStats _ _ _ _ _) as [[stats st] h2].
    split; [by destruct (onGameComplete (options w))|]. by eexists _, _.
  - match goal with |- context [updatePlayerStats ?m ?t true ?st ?h] =>
      exists st, h end.
    destruct (updatePlayerStats _ _ _ _ _) as [[stats st] h2].
    split; [by destruct (onGameComplete (options w))|]. done.
Qed.

(** X29. Completion records the game: on a store that takes the writes and
    holds at most [MAX_HIGH_SCORES] entries, after [handleGameCompletion]
    the leaderboard holds an entry with the game's final score, moves, time
    and difficulty when [isHighScore] accepts the score, and is unchanged
    otherwise; it still holds at most [MAX_HIGH_SCORES] entries; the
    statistics count one more game played and won; and no saved game is
    left. *)
Theorem completion_records_the_game (w : World) :
  gameCompleteTriggeredRef (session w) = false →
  setItemThrows (storage w) = false →
  (length (loadHighScores (storage w)) ≤ MAX_HIGH_SCORES)%nat →
  let w' := handleGameCompletion w in
  let finalScore :=
    calculateScore (moves (session w)) (time (timer w)) (difficulty (options w))
      (matchedPairs (session w)) in
  (if isHighScore finalScore (storage w)
   then ∃ entry,
     entry ∈ loadHighScores (storage w') ∧
     hs_score entry = finalScore ∧ hs_moves entry = moves (session w) ∧
     hs_time entry = time (timer w) ∧ hs_difficulty entry = difficulty (options w)
   else loadHighScores (storage w') = loadHighScores (storage w)) ∧
  (length (loadHighScores (storage w')) ≤ MAX_HIGH_SCORES)%nat ∧
  gamesPlayed (storedStats (storage w')) = gamesPlayed (storedStats (storage w)) + 1 ∧
  gamesWon (storedStats (storage w')) = gamesWon (storedStats (storage w)) + 1 ∧
  LAST_GAME_STATE (storage w') = None.
Proof.
  intros Href Hok Hlen w' finalScore.
  destruct (handleGameCompletion_storage w Href) as (st1 & h1 & Hst & Hadd).
  fold w' finalScore in Hst, Hadd.
  assert (Hst1 : setItemThrows st1 = false ∧
                 storedStats st1 = storedStats (storage w)).
  { destruct (isHighScore finalScore (storage w)).
    - destruct Hadd as (newId & date & ->).
      unfold addHighScore, saveHighScores, saveToStorage. by rewrite Hok.
    - by subst st1. }
  destruct Hst1 as [Hok1 Hstats1].
  destruct (updatePlayerStats_stored (moves (session w)) (time (timer w)) st1 h1 Hok1)
    as (_ & Hhs & _ & _ & Hp & Hw & _).
  assert (Hboard : loadHighScores (storage w') = loadHighScores st1).
  { rewrite Hst. unfold loadHighScores, loadFromStorage. cbn [HIGH_SCORES setLastGameState].
    by rewrite Hhs. }
  assert (Hstored : storedStats (storage w') =
    storedStats (updatePlayerStats (moves (session w)) (time (timer w)) true st1 h1).1.2).
  { by rewrite Hst. }
  rewrite Hboard, Hstored, Hp, Hw, Hstats1, Hst.
  split; [|split; [|by repeat split]].
  - destruct (isHighScore finalScore (storage w)) eqn:Hhigh; [|by subst st1].
    destruct Hadd as (newId & date & ->).
    exists (mkHighScore newId None (moves (session w)) (time (timer w))
              (difficulty (options w)) date finalScore).
    split; [|done]. by apply accepted_score_on_board.
  - destruct (isHighScore finalScore (storage w)); [|by subst st1].
    destruct Hadd as (newId & date & ->).
    match goal with |- context [addHighScore ?e _] =>
      pose proof (addHighScore_writes e (storage w) Hok) as Hwrite end.
    rewrite (addHighScore_stored _ _ _ Hwrite), length_take. lia.
Qed.

Lemma completion_records_the_game_witness :
  let w' := handleGameCompletion allMatched in
  let finalScore :=
    calculateScore (moves (session allMatched)) (time (timer allMatched))
      (difficulty (options allMatched)) (matchedPairs (session allMatched)) in
  (if isHighScore finalScore (storage allMatched)
   then ∃ entry,
     entry ∈ loadHighScores (storage w') ∧
     hs_score entry = finalScore ∧ hs_moves entry = moves (session allMatched) ∧
     hs_time entry = time (timer allMatched) ∧
     hs_difficulty entry = difficulty (options allMatched)
   else loadHighScores (storage w') = loadHighScores (storage allMatched)) ∧
  (length (loadHighScores (storage w')) ≤ MAX_HIGH_SCORES)%nat ∧
  gamesPlayed (storedStats (storage w')) = gamesPlayed (storedStats (storage allMatched)) + 1 ∧
  gamesWon (storedStats (storage w')) = gamesWon (storedStats (storage allMatched)) + 1 ∧
  LAST_GAME_STATE (storage w') = None.
Proof.
  apply (completion_records_the_game allMatched).
  - vm_compute. reflexivity.
  - vm_compute. reflexivity.
  - vm_compute. lia.
Defined.

(** X30. Completion on a store that refuses every write: the game is still
    completed with its final score and the saved game is still dropped, but
    neither the leaderboard nor the statistics change, while the completion
    callback is still told that the score is a new high score whenever
    [isHighScore] accepts it. *)
Theorem completion_survives_a_full_store (w : World) :
  gameCompleteTriggeredRef (session w) = false →
  setItemThrows (storage w) = true →
  let w' := handleGameCompletion w in
  let finalScore :=
    calculateScore (moves (session w)) (time (timer w)) (difficulty (options w))
      (matchedPairs (session w)) in
  isGameComplete (session w') = true ∧
  score (session w') = finalScore ∧
  HIGH_SCORES (storage w') = HIGH_SCORES (storage w) ∧
  PLAYER_STATS (storage w') = PLAYER_STATS (storage w) ∧
  LAST_GAME_STATE (storage w') = None ∧
  (onGameComplete (options w) = true →
   ∃ t stats, pending w' = pending w ++ [t] ∧
     callback t = NotifyComplete stats ∧
     stats_score stats = finalScore ∧
     stats_isNewHighScore stats = isHighScore finalScore (storage w)).
Proof.
  intros Href Hfull. unfold handleGameCompletion. rewrite Href.
  cbn -[calculateScore isHighScore getCongratulationsMessage generateId Z.add].
  set (finalScore := calculateScore _ _ _ _).
  unfold addHighScore, saveHighScores, saveToStorage, updatePlayerStats,
    loadPlayerStats, eff_bind, eff_ret, Date_now.
  destruct (isHighScore finalScore (storage w)) eqn:Hhigh;
    cbn -[calculateScore isHighScore getCongratulationsMessage generateId Z.add].
  - destruct (generateId (host w)) as [newId h1].
    cbn -[calculateScore isHighScore getCongratulationsMessage generateId Z.add].
    rewrite Hfull.
    cbn -[calculateScore isHighScore getCongratulationsMessage generateId Z.add].
    rewrite Hfull.
    destruct (onGameComplete (options w));
      cbn -[calculateScore isHighScore getCongratulationsMessage Z.add];
      repeat split; try done.
    intros _. eexists _, _. split; [reflexivity|]. by cbn.
  - rewrite Hfull.
    destruct (onGameComplete (options w));
      cbn -[calculateScore isHighScore getCongratulationsMessage Z.add];
      repeat split; try done.
    intros _. eexists _, _. split; [reflexivity|]. by cbn.
Qed.

Lemma completion_survives_a_full_store_witness :
  let w := withStorage refusingStorage allMatched in
  let w' := handleGameCompletion w in
  let finalScore :=
    calculateScore (moves (session w)) (time (timer w)) (difficulty (options w))
      (matchedPairs (session w)) in
  isGameComplete (session w') = true ∧
  score (session w') = finalScore ∧
  HIGH_SCORES (storage w') = HIGH_SCORES (storage w) ∧
  PLAYER_STATS (storage w') = PLAYER_STATS (storage w) ∧
  LAST_GAME_STATE (storage w') = None ∧
  (onGameComplete (options w) = true →
   ∃ t stats, pending w' = pending w ++ [t] ∧
     callback t = NotifyComplete stats ∧
     stats_score stats = finalScore ∧
     stats_isNewHighScore stats = isHighScore finalScore (storage w)).
Proof.
  apply (completion_survives_a_full_store (withStorage refusingStorage allMatched));
    vm_compute; reflexivity.
Defined.

End Recording.
